(** * Pecel: discovery, filtering, ingestion and serialisation of a file tree

    A shallow embedding of [cmd/main/main.go].  Go strings are byte
    sequences and are modelled by [string] (a list of 8-bit [ascii]);
    [int] and [int64] are modelled by [Z] with the 64-bit wrap-around of
    the additions written out.  What the program obtains from the Go
    standard library and from the operating system (regular expressions,
    [filepath.Rel], the Unicode tail of [strings.EqualFold], gzip, the
    clock, float formatting) is a field of the classes [PathLib] and
    [OutLib]; the file tree and the system calls are a [World]. *)

From Stdlib Require Import ZArith List String Ascii Bool Lia Permutation.
From Stdlib Require Import DecimalString DecimalZ.
Import ListNotations.
Local Open Scope string_scope.
Local Open Scope Z_scope.
Set Warnings "-register-all".

(** ** Machine integers *)

Definition wrap64 (z : Z) : Z := (z + 2 ^ 63) mod 2 ^ 64 - 2 ^ 63.

Definition add64 (a b : Z) : Z := wrap64 (a + b).

Definition int64_range (z : Z) : Prop := - 2 ^ 63 <= z < 2 ^ 63.

(** ** Strings as bytes *)

Definition byte_of (c : ascii) : Z := Z.of_N (N_of_ascii c).

Definition len (s : string) : Z := Z.of_nat (String.length s).

Definition HasPrefix (s p : string) : bool := String.prefix p s.

Fixpoint chars (s : string) : list ascii :=
  match s with
  | EmptyString => []
  | String c r => c :: chars r
  end.

Fixpoint of_chars (l : list ascii) : string :=
  match l with
  | [] => EmptyString
  | c :: r => String c (of_chars r)
  end.

Definition is_ascii_string (s : string) : Prop :=
  Forall (fun c => byte_of c < 128) (chars s).

(** ** The records of the program *)

Record Config := {
  InputDir : string;
  OutputFile : string;
  Extensions : list string;
  ExcludeHidden : bool;
  MaxFileSize : Z;
  MinFileSize : Z;
  ExcludePattern : string;
  IncludePattern : string;
  OutputFormat : string;
  Compress : bool;
  Parallel : Z;
  Quiet : bool;
  Verbose : bool;
  DryRun : bool
}.

Record FileInfo := {
  Path : string;
  Size : Z;
  Modified : string;
  Content : string;
  RelativePath : string
}.

(** [Duration] is the elapsed time; the program keeps it as a float64 of
    seconds, the model keeps the nanoseconds it was computed from. *)
Record Stats := {
  FilesProcessed : Z;
  Directories : Z;
  TotalBytes : Z;
  Duration : Z;
  OutputSize : Z
}.

Definition zeroStats : Stats :=
  {| FilesProcessed := 0; Directories := 0; TotalBytes := 0;
     Duration := 0; OutputSize := 0 |}.

(** What [os.FileInfo] gives the program: the leaf name, the size, the
    modification time (already in the layout ["2006-01-02 15:04:05"]) and
    the directory bit. *)
Record OsFileInfo := {
  Name : string;
  FSize : Z;
  ModTime : string;
  IsDir : bool
}.

(** ** [isHidden] *)

Definition isHidden (name : string) : bool :=
  HasPrefix name "." || (HasPrefix name "~" && (1 <? len name)).

(** ** [filepath.Ext]: the suffix from the last dot of the last element.

    The library scans the bytes from the end and stops at a separator;
    [ext_scan] is that loop over the reversed bytes, [acc] being the bytes
    already passed. *)

Definition dot : ascii := "."%char.
Definition slash : ascii := "/"%char.

Fixpoint ext_scan (rev_bytes : list ascii) (acc : list ascii) : list ascii :=
  match rev_bytes with
  | [] => []
  | c :: r =>
      if Ascii.eqb c slash then []
      else if Ascii.eqb c dot then c :: acc
      else ext_scan r (c :: acc)
  end.

Definition Ext (path : string) : string :=
  of_chars (ext_scan (rev (chars path)) []).

(** ** Lower-casing of ASCII letters, used to state case-insensitivity *)

Definition is_upper (c : ascii) : bool :=
  (65 <=? byte_of c) && (byte_of c <=? 90).

Definition to_lower (c : ascii) : ascii :=
  if is_upper c then ascii_of_N (Z.to_N (byte_of c + 32)) else c.

Fixpoint ToLower (s : string) : string :=
  match s with
  | EmptyString => EmptyString
  | String c r => String (to_lower c) (ToLower r)
  end.

(** ** What the program takes from the Go library on paths and patterns *)

Class PathLib := {
  (** The library's compiled regular expressions. *)
  Regexp : Type;
  (** [regexp.Compile]; [None] is its error. *)
  Compile : string -> option Regexp;
  MatchString : Regexp -> string -> bool;
  (** [filepath.Rel base target]; [None] is its error. *)
  Rel : string -> string -> option string;
  (** [filepath.Join] of a directory and one name, and [filepath.Dir]. *)
  Join : string -> string -> string;
  Dir : string -> string;
  (** [strings.TrimSpace] *)
  TrimSpace : string -> string;
  (** The continuation of [strings.EqualFold] once a byte outside ASCII
      is met (simple Unicode case folding, rune by rune). *)
  equalFoldUnicode : string -> string -> bool
}.

Section Filter.

Context {L : PathLib}.

(** [strings.EqualFold]: the ASCII fast path of the library, byte by
    byte, handing over to the Unicode loop at the first non-ASCII byte. *)
Fixpoint EqualFold (s t : string) : bool :=
  match s, t with
  | String sr s', String tr t' =>
      if 128 <=? Z.lor (byte_of sr) (byte_of tr) then equalFoldUnicode s t
      else if byte_of tr =? byte_of sr then EqualFold s' t'
      else
        let lo := Z.min (byte_of sr) (byte_of tr) in
        let hi := Z.max (byte_of sr) (byte_of tr) in
        if (65 <=? lo) && (lo <=? 90) && (hi =? lo + 32)
        then EqualFold s' t'
        else false
  | EmptyString, EmptyString => true
  | _, _ => false
  end.

(** The extension loop of [shouldProcessFile]: [found] is set by the
    first allowed extension that folds to [ext]. *)
Fixpoint extFound (ext : string) (allowed : list string) : bool :=
  match allowed with
  | [] => false
  | allowedExt :: rest =>
      if EqualFold ext allowedExt then true else extFound ext rest
  end.

(** [relPath, _ := filepath.Rel(...)]: the error is dropped and the
    path is then the empty string. *)
Definition relOrEmpty (base path : string) : string :=
  match Rel base path with
  | Some r => r
  | None => ""
  end.

Definition shouldProcessFile (path : string) (info : OsFileInfo)
    (config : Config) (excludeRegex includeRegex : option Regexp) : bool :=
  if ExcludeHidden config && isHidden (Name info) then false
  else if (0 <? MaxFileSize config) && (MaxFileSize config <? FSize info)
  then false
  else if (0 <? MinFileSize config) && (FSize info <? MinFileSize config)
  then false
  else if (negb (Nat.eqb (List.length (Extensions config)) 0))
          && negb (extFound (Ext path) (Extensions config))
  then false
  else
    let relPath := relOrEmpty (InputDir config) path in
    if match excludeRegex with
       | Some re => MatchString re relPath
       | None => false
       end
    then false
    else if match includeRegex with
            | Some re => negb (MatchString re relPath)
            | None => false
            end
    then false
    else true.

(** *** The predicate as the specification words it

    Six rules in a fixed order; [firstFailure] is the first rule that
    rejects, if any. *)
Inductive Rule :=
| RHidden | RMaxSize | RMinSize | RExtension | RExclude | RInclude.

Definition rule_rejects (path : string) (info : OsFileInfo)
    (config : Config) (excludeRegex includeRegex : option Regexp)
    (r : Rule) : bool :=
  match r with
  | RHidden => ExcludeHidden config && isHidden (Name info)
  | RMaxSize => (0 <? MaxFileSize config) && (MaxFileSize config <? FSize info)
  | RMinSize => (0 <? MinFileSize config) && (FSize info <? MinFileSize config)
  | RExtension =>
      match Extensions config with
      | [] => false
      | _ => negb (existsb (EqualFold (Ext path)) (Extensions config))
      end
  | RExclude =>
      match excludeRegex with
      | Some re => MatchString re (relOrEmpty (InputDir config) path)
      | None => false
      end
  | RInclude =>
      match includeRegex with
      | Some re => negb (MatchString re (relOrEmpty (InputDir config) path))
      | None => false
      end
  end.

Definition rule_order : list Rule :=
  [RHidden; RMaxSize; RMinSize; RExtension; RExclude; RInclude].

Definition ruleIndex (r : Rule) : nat :=
  match r with
  | RHidden => 1 | RMaxSize => 2 | RMinSize => 3
  | RExtension => 4 | RExclude => 5 | RInclude => 6
  end.

Definition firstFailure (path : string) (info : OsFileInfo)
    (config : Config) (excludeRegex includeRegex : option Regexp)
    : option Rule :=
  find (rule_rejects path info config excludeRegex includeRegex) rule_order.

(** ** The file tree as [filepath.Walk] reads it

    [filepath.Walk] calls [os.Lstat] on every name and [readDirNames]
    (which sorts) on every directory.  An [Entry] is what these calls
    return for one name: a file, a directory with its sorted entries
    ([None] when reading the directory fails), or a name whose [Lstat]
    fails. *)
Inductive Entry :=
| EFile (name : string) (size : Z) (mtime : string)
| EDir (name : string) (entries : option (list Entry))
| EErr (name : string).

Definition entryName (e : Entry) : string :=
  match e with
  | EFile name _ _ => name
  | EDir name _ => name
  | EErr name => name
  end.

Definition entryIsDir (e : Entry) : bool :=
  match e with
  | EDir _ _ => true
  | _ => false
  end.

Definition fileOsInfo (name : string) (size : Z) (mtime : string) : OsFileInfo :=
  {| Name := name; FSize := size; ModTime := mtime; IsDir := false |}.

Definition dirOsInfo (name : string) : OsFileInfo :=
  {| Name := name; FSize := 0; ModTime := ""; IsDir := true |}.

(** What a [WalkFunc] returns: [nil], [filepath.SkipDir],
    [filepath.SkipAll] or another error. *)
Inductive WalkErr := WNil | WSkipDir | WSkipAll | WOther.

Definition isNil (r : WalkErr) : bool :=
  match r with WNil => true | _ => false end.

Definition isSkipDir (r : WalkErr) : bool :=
  match r with WSkipDir => true | _ => false end.

(** A [WalkFunc] over a state [S]: path, info, whether [err] is non-nil. *)
Definition WalkFunc (S : Type) : Type :=
  string -> option OsFileInfo -> bool -> S -> S * WalkErr.

(** The library's recursive [walk]; [walkNames] is its loop over the
    names of one directory. *)
Fixpoint walk {S : Type} (fn : WalkFunc S) (path : string) (e : Entry) (s : S)
    {struct e} : S * WalkErr :=
  match e with
  | EFile name size mtime => fn path (Some (fileOsInfo name size mtime)) false s
  | EErr _ => fn path None true s
  | EDir name entries =>
      let '(s1, err1) :=
        fn path (Some (dirOsInfo name))
           (match entries with None => true | Some _ => false end) s in
      match entries with
      | Some names =>
          if isNil err1 then
            (fix walkNames (names : list Entry) (s : S) {struct names}
                 : S * WalkErr :=
               match names with
               | [] => (s, WNil)
               | c :: rest =>
                   let filename := Join path (entryName c) in
                   match c with
                   | EErr _ =>
                       let '(s', err) := fn filename None true s in
                       if negb (isNil err) && negb (isSkipDir err)
                       then (s', err)
                       else walkNames rest s'
                   | _ =>
                       let '(s', err) := walk fn filename c s in
                       if negb (isNil err)
                          && (negb (entryIsDir c) || negb (isSkipDir err))
                       then (s', err)
                       else walkNames rest s'
                   end
               end) names s1
          else (s1, err1)
      | None => (s1, err1)
      end
  end.

(** [filepath.Walk root fn]; [root] is what [os.Lstat] returns for the
    root path.  [SkipDir] and [SkipAll] at the top are no error. *)
Definition Walk {S : Type} (rootPath : string) (root : Entry)
    (fn : WalkFunc S) (s : S) : S * WalkErr :=
  let '(s', err) := walk fn rootPath root s in
  match err with
  | WSkipDir | WSkipAll => (s', WNil)
  | _ => (s', err)
  end.

(** *** The callback of [main] *)

Definition incDirectories (st : Stats) : Stats :=
  {| FilesProcessed := FilesProcessed st;
     Directories := add64 (Directories st) 1;
     TotalBytes := TotalBytes st;
     Duration := Duration st;
     OutputSize := OutputSize st |}.

(** State of the walk: the statistics and [filePaths]. *)
Definition WalkState : Type := Stats * list string.

Definition walkCallback (config : Config)
    (excludeRegex includeRegex : option Regexp) : WalkFunc WalkState :=
  fun path info err st =>
    if err then (st, WNil)
    else
      match info with
      | None => (st, WNil)
      | Some info =>
          if IsDir info then
            let st' := (incDirectories (fst st), snd st) in
            if ExcludeHidden config && isHidden (Name info)
            then (st', WSkipDir)
            else (st', WNil)
          else if negb (shouldProcessFile path info config excludeRegex includeRegex)
          then (st, WNil)
          else ((fst st, (snd st ++ [path])%list), WNil)
      end.

Definition discover (config : Config)
    (excludeRegex includeRegex : option Regexp) (root : Entry) (stats : Stats)
    : WalkState * WalkErr :=
  Walk (InputDir config) root
       (walkCallback config excludeRegex includeRegex) (stats, []).

End Filter.

(** ** The operating system as the program calls it after the walk *)

Record World := {
  (** [os.Stat]; [None] is its error. *)
  os_Stat : string -> option OsFileInfo;
  (** [os.ReadFile]; [None] is its error. *)
  os_ReadFile : string -> option string;
  (** What [os.Lstat] and the directory reads give below a root path. *)
  os_Tree : string -> Entry;
  (** Whether [os.Create] of a path succeeds. *)
  os_Create : string -> bool
}.

Inductive IngestErr := StatFailed | ReadFailed.

Section Ingest.

Context {L : PathLib}.
Variable w : World.

Definition getRelativePath (path baseDir : string) : string :=
  match Rel baseDir path with
  | Some relPath => relPath
  | None => path
  end.

(** [processSingleFile] returns its record also with an error: the
    record is then filled as far as the function came. *)
Definition processSingleFile (path baseDir : string)
    : FileInfo * option IngestErr :=
  let rel := getRelativePath path baseDir in
  match os_Stat w path with
  | None =>
      ({| Path := path; Size := 0; Modified := ""; Content := "";
          RelativePath := rel |}, Some StatFailed)
  | Some fileInfo =>
      match os_ReadFile w path with
      | None =>
          ({| Path := path; Size := FSize fileInfo;
              Modified := ModTime fileInfo; Content := "";
              RelativePath := rel |}, Some ReadFailed)
      | Some content =>
          ({| Path := path; Size := FSize fileInfo;
              Modified := ModTime fileInfo; Content := content;
              RelativePath := rel |}, None)
      end
  end.

(** [stats.FilesProcessed++; stats.TotalBytes += info.Size] *)
Definition countFile (info : FileInfo) (st : Stats) : Stats :=
  {| FilesProcessed := add64 (FilesProcessed st) 1;
     Directories := Directories st;
     TotalBytes := add64 (TotalBytes st) (Size info);
     Duration := Duration st;
     OutputSize := OutputSize st |}.

(** The loop of [processFilesSequential] from a state of its two
    variables; the progress lines it prints are not modelled. *)
Fixpoint sequentialLoop (paths : list string) (baseDir : string)
    (fileInfos : list FileInfo) (stats : Stats) : list FileInfo * Stats :=
  match paths with
  | [] => (fileInfos, stats)
  | path :: rest =>
      match processSingleFile path baseDir with
      | (_, Some _) => sequentialLoop rest baseDir fileInfos stats
      | (info, None) =>
          sequentialLoop rest baseDir (fileInfos ++ [info])%list
                         (countFile info stats)
      end
  end.

Definition processFilesSequential (paths : list string) (baseDir : string)
    (verbose quiet : bool) (stats : Stats) : list FileInfo * Stats :=
  sequentialLoop paths baseDir [] stats.

(** *** [processFilesParallel] as a transition system

    The goroutines are the sender (the function itself, sending the
    paths and closing [fileChan]) and the workers.  A worker is at the
    head of its [range] loop, holds a path it received, or has left the
    loop. *)
Inductive Worker :=
| Idle
| Holding (path : string)
| Exited.

Record ParState := {
  toSend : list string;
  fileChan : list string;
  fileClosed : bool;
  workers : list Worker;
  resultChan : list FileInfo;
  errorChan : list string
}.

Definition parInit (paths : list string) (nworkers : Z) : ParState :=
  {| toSend := paths;
     fileChan := [];
     fileClosed := false;
     workers := repeat Idle (Z.to_nat nworkers);
     resultChan := [];
     errorChan := [] |}.

(** Replace the worker at index [i]. *)
Fixpoint setWorker (ws : list Worker) (i : nat) (x : Worker) : list Worker :=
  match ws, i with
  | [], _ => []
  | _ :: r, O => x :: r
  | y :: r, S j => y :: setWorker r j x
  end.

(** One step of one goroutine; [cap] is the capacity [len(paths)] of the
    three channels, a send on a full channel is not enabled. *)
Inductive parStep (baseDir : string) (cap : nat) : ParState -> ParState -> Prop :=
| StepSend p ps s :
    toSend s = p :: ps ->
    (List.length (fileChan s) < cap)%nat ->
    parStep baseDir cap s
      {| toSend := ps; fileChan := (fileChan s ++ [p])%list;
         fileClosed := fileClosed s; workers := workers s;
         resultChan := resultChan s; errorChan := errorChan s |}
| StepClose s :
    toSend s = [] ->
    fileClosed s = false ->
    parStep baseDir cap s
      {| toSend := []; fileChan := fileChan s;
         fileClosed := true; workers := workers s;
         resultChan := resultChan s; errorChan := errorChan s |}
| StepRecv i p q s :
    nth_error (workers s) i = Some Idle ->
    fileChan s = p :: q ->
    parStep baseDir cap s
      {| toSend := toSend s; fileChan := q;
         fileClosed := fileClosed s;
         workers := setWorker (workers s) i (Holding p);
         resultChan := resultChan s; errorChan := errorChan s |}
| StepExit i s :
    nth_error (workers s) i = Some Idle ->
    fileChan s = [] ->
    fileClosed s = true ->
    parStep baseDir cap s
      {| toSend := toSend s; fileChan := [];
         fileClosed := true;
         workers := setWorker (workers s) i Exited;
         resultChan := resultChan s; errorChan := errorChan s |}
| StepResult i p info s :
    nth_error (workers s) i = Some (Holding p) ->
    processSingleFile p baseDir = (info, None) ->
    (List.length (resultChan s) < cap)%nat ->
    parStep baseDir cap s
      {| toSend := toSend s; fileChan := fileChan s;
         fileClosed := fileClosed s;
         workers := setWorker (workers s) i Idle;
         resultChan := (resultChan s ++ [info])%list;
         errorChan := errorChan s |}
| StepError i p info e s :
    nth_error (workers s) i = Some (Holding p) ->
    processSingleFile p baseDir = (info, Some e) ->
    (List.length (errorChan s) < cap)%nat ->
    parStep baseDir cap s
      {| toSend := toSend s; fileChan := fileChan s;
         fileClosed := fileClosed s;
         workers := setWorker (workers s) i Idle;
         resultChan := resultChan s;
         errorChan := (errorChan s ++ [p])%list |}.

Inductive parSteps (baseDir : string) (cap : nat) : ParState -> ParState -> Prop :=
| ParRefl s : parSteps baseDir cap s s
| ParNext s1 s2 s3 :
    parSteps baseDir cap s1 s2 -> parStep baseDir cap s2 s3 ->
    parSteps baseDir cap s1 s3.

(** [wg.Wait()] returns: every path is sent, the channel is closed and
    every worker has left its loop. *)
Definition parDone (s : ParState) : Prop :=
  toSend s = [] /\ fileClosed s = true /\ Forall (fun x => x = Exited) (workers s).

(** The collecting loop over the closed [resultChan]. *)
Fixpoint collectResults (results : list FileInfo) (fileInfos : list FileInfo)
    (stats : Stats) : list FileInfo * Stats :=
  match results with
  | [] => (fileInfos, stats)
  | info :: rest =>
      collectResults rest (fileInfos ++ [info])%list (countFile info stats)
  end.

(** [processFilesParallel] returns [out] on some schedule of its
    goroutines. *)
Definition processFilesParallel (paths : list string) (baseDir : string)
    (nworkers : Z) (verbose quiet : bool) (stats : Stats)
    (out : list FileInfo * Stats) : Prop :=
  exists s,
    parSteps baseDir (List.length paths) (parInit paths nworkers) s /\
    parDone s /\
    out = collectResults (resultChan s) [] stats.

(** The records a list of paths yields, in the order of the paths. *)
Fixpoint ingested (paths : list string) (baseDir : string) : list FileInfo :=
  match paths with
  | [] => []
  | path :: rest =>
      match processSingleFile path baseDir with
      | (_, Some _) => ingested rest baseDir
      | (info, None) => info :: ingested rest baseDir
      end
  end.

Definition ingestOk (baseDir : string) (path : string) : bool :=
  match snd (processSingleFile path baseDir) with
  | None => true
  | Some _ => false
  end.

End Ingest.

(** ** Formatting *)

Definition nl : string := String "010"%char "".

(** [%d] *)
Definition itoa (z : Z) : string := NilEmpty.string_of_int (Z.to_int z).

Fixpoint Repeat (s : string) (count : nat) : string :=
  match count with
  | O => ""
  | S n => s ++ Repeat s n
  end.

(** The integer nearest to [n / d] for [0 < d], ties to the even one. *)
Definition roundHalfEven (n d : Z) : Z :=
  let q := n / d in
  let r := n mod d in
  if 2 * r <? d then q
  else if d <? 2 * r then q + 1
  else if Z.even q then q else q + 1.

(** The value of [float64(x)] for [0 <= x]: [x] rounded to 53
    significant bits, ties to even. *)
Definition toFloat64 (x : Z) : Z :=
  let bits := Z.log2 x + 1 in
  if bits <=? 53 then x
  else let ulp := 2 ^ (bits - 53) in roundHalfEven x ulp * ulp.

(** [%.1f] of the quotient [num / den] of two floats whose quotient is
    exact (a float divided by a power of two). *)
Definition fmtFloat1 (num den : Z) : string :=
  let tenths := roundHalfEven (10 * num) den in
  itoa (tenths / 10) ++ "." ++ itoa (tenths mod 10).

(** The loop of [formatBytes]; it runs at most five times on an int64. *)
Fixpoint unitLoop (fuel : nat) (n div exp : Z) : Z * Z :=
  match fuel with
  | O => (div, exp)
  | S fuel' =>
      if 1024 <=? n then unitLoop fuel' (n / 1024) (div * 1024) (exp + 1)
      else (div, exp)
  end.

Definition unitLetter (exp : Z) : string :=
  match String.get (Z.to_nat exp) "KMGTPE" with
  | Some c => String c ""
  | None => ""
  end.

Definition formatBytes (bytes : Z) : string :=
  if bytes <? 1024 then itoa bytes ++ " B"
  else
    let '(div, exp) := unitLoop 6 (bytes / 1024) 1024 0 in
    fmtFloat1 (toFloat64 bytes) div ++ " " ++ unitLetter exp ++ "B".

(** ** What the serialisers take from the Go library *)

Class OutLib := {
  (** The bytes a [gzip.Writer] puts on its underlying writer for the
      bytes written to it, from [NewWriter] to [Close]. *)
  gzip : string -> string;
  (** [time.Now()] in the layouts ["2006-01-02 15:04:05"] and RFC 3339. *)
  nowLocal : string;
  nowRFC3339 : string;
  (** [%.2f] of the seconds of a duration, and the number
      [encoding/json] prints for them. *)
  fmtSeconds2 : Z -> string;
  jsonSeconds : Z -> string;
  (** [xml.MarshalIndent] of the document of [writeXMLOutput]: the
      generation time, the statistics and the records. *)
  xmlMarshalIndent : string -> Stats -> list FileInfo -> string;
  (** [xml.Header] *)
  xmlHeader : string;
  (** [strings.ToLower] *)
  strings_ToLower : string -> string
}.

Section Serialise.

Context {O : OutLib}.

(** A serialiser returns the size it reports and the bytes it put on
    its writer.  Writes are taken to succeed: the text and Markdown
    writers ignore their errors, and the branches of the JSON and XML
    writers for a failing encoder are left out. *)
Definition Written : Type := Z * string.

Definition textHeader (stats : Stats) : string :=
  "Pecel Output" ++ nl
  ++ "Generated: " ++ nowLocal ++ nl
  ++ "Files: " ++ itoa (FilesProcessed stats)
  ++ " | Directories: " ++ itoa (Directories stats)
  ++ " | Total Size: " ++ formatBytes (TotalBytes stats) ++ nl ++ nl.

Definition textSection (info : FileInfo) : string :=
  nl ++ Repeat "=" 80 ++ nl ++ RelativePath info ++ nl
  ++ "Size: " ++ formatBytes (Size info)
  ++ " | Modified: " ++ Modified info ++ nl
  ++ Repeat "-" 80 ++ nl
  ++ Content info ++ nl
  ++ Repeat "=" 80 ++ nl.

Definition textFooter (stats : Stats) (totalBytes : Z) : string :=
  nl ++ nl ++ "=== SUMMARY ===" ++ nl
  ++ "Files processed: " ++ itoa (FilesProcessed stats) ++ nl
  ++ "Directories scanned: " ++ itoa (Directories stats) ++ nl
  ++ "Total input size: " ++ formatBytes (TotalBytes stats) ++ nl
  ++ "Output size: " ++ formatBytes totalBytes ++ nl
  ++ "Processing time: " ++ fmtSeconds2 (Duration stats) ++ " seconds" ++ nl.

(** [n, _ := bufWriter.WriteString(x); totalBytes += int64(n)] *)
Definition writeString (x : string) (st : Written) : Written :=
  (add64 (fst st) (len x), snd st ++ x).

Fixpoint writeTextSections (fileInfos : list FileInfo) (st : Written) : Written :=
  match fileInfos with
  | [] => st
  | info :: rest => writeTextSections rest (writeString (textSection info) st)
  end.

Definition writeTextOutput (fileInfos : list FileInfo) (stats : Stats) : Written :=
  let st := writeString (textHeader stats) (0, "") in
  let st := writeTextSections fileInfos st in
  writeString (textFooter stats (fst st)) st.

Definition mdHeader (stats : Stats) : string :=
  "# Pecel Output" ++ nl ++ nl
  ++ "**Generated**: " ++ nowLocal ++ "  " ++ nl
  ++ "**Files**: " ++ itoa (FilesProcessed stats)
  ++ " | **Directories**: " ++ itoa (Directories stats)
  ++ " | **Total Size**: " ++ formatBytes (TotalBytes stats) ++ "  " ++ nl ++ nl.

Definition mdSection (i : Z) (info : FileInfo) : string :=
  "## File " ++ itoa (i + 1) ++ ": `" ++ RelativePath info ++ "`" ++ nl ++ nl
  ++ "**Size**: " ++ formatBytes (Size info) ++ "  " ++ nl
  ++ "**Modified**: " ++ Modified info ++ "  " ++ nl ++ nl
  ++ "### Content" ++ nl ++ "```" ++ nl
  ++ Content info ++ nl ++ "```" ++ nl ++ nl
  ++ "---" ++ nl ++ nl.

Definition mdFooter (stats : Stats) : string :=
  "## Summary" ++ nl ++ nl
  ++ "- **Files processed**: " ++ itoa (FilesProcessed stats) ++ nl
  ++ "- **Directories scanned**: " ++ itoa (Directories stats) ++ nl
  ++ "- **Total input size**: " ++ formatBytes (TotalBytes stats) ++ nl
  ++ "- **Processing time**: " ++ fmtSeconds2 (Duration stats) ++ " seconds" ++ nl.

Fixpoint writeMdSections (i : Z) (fileInfos : list FileInfo) (st : Written) : Written :=
  match fileInfos with
  | [] => st
  | info :: rest => writeMdSections (i + 1) rest (writeString (mdSection i info) st)
  end.

Definition writeMarkdownOutput (fileInfos : list FileInfo) (stats : Stats) : Written :=
  let st := writeString (mdHeader stats) (0, "") in
  let st := writeMdSections 0 fileInfos st in
  writeString (mdFooter stats) st.

End Serialise.

(** ** UTF-8 as package [unicode/utf8] decodes and encodes it *)

Definition RuneError : Z := 65533.

Definition inRange (lo hi b : Z) : bool := (lo <=? b) && (b <=? hi).

(** The table [first] with [acceptRanges]: for a lead byte, the length
    of its sequence and the range accepted for the second byte. *)
Definition leadInfo (s0 : Z) : option (nat * Z * Z) :=
  if inRange 194 223 s0 then Some (2%nat, 128, 191)
  else if s0 =? 224 then Some (3%nat, 160, 191)
  else if inRange 225 236 s0 then Some (3%nat, 128, 191)
  else if s0 =? 237 then Some (3%nat, 128, 159)
  else if inRange 238 239 s0 then Some (3%nat, 128, 191)
  else if s0 =? 240 then Some (4%nat, 144, 191)
  else if inRange 241 243 s0 then Some (4%nat, 128, 191)
  else if s0 =? 244 then Some (4%nat, 128, 143)
  else None.

Definition isCont (b : Z) : bool := inRange 128 191 b.

(** [utf8.DecodeRuneInString]: the rune and its width in bytes. *)
Definition DecodeRuneInString (s : string) : Z * nat :=
  match s with
  | EmptyString => (RuneError, 0%nat)
  | String c0 r0 =>
      let s0 := byte_of c0 in
      if s0 <? 128 then (s0, 1%nat)
      else
        match leadInfo s0 with
        | None => (RuneError, 1%nat)
        | Some (sz, lo, hi) =>
            if (String.length s <? sz)%nat then (RuneError, 1%nat)
            else
              match r0 with
              | EmptyString => (RuneError, 1%nat)
              | String c1 r1 =>
                  let s1 := byte_of c1 in
                  if negb (inRange lo hi s1) then (RuneError, 1%nat)
                  else if (sz <=? 2)%nat then
                    (Z.lor (Z.shiftl (Z.land s0 31) 6) (Z.land s1 63), 2%nat)
                  else
                    match r1 with
                    | EmptyString => (RuneError, 1%nat)
                    | String c2 r2 =>
                        let s2 := byte_of c2 in
                        if negb (isCont s2) then (RuneError, 1%nat)
                        else if (sz <=? 3)%nat then
                          (Z.lor (Z.lor (Z.shiftl (Z.land s0 15) 12)
                                        (Z.shiftl (Z.land s1 63) 6))
                                 (Z.land s2 63), 3%nat)
                        else
                          match r2 with
                          | EmptyString => (RuneError, 1%nat)
                          | String c3 _ =>
                              let s3 := byte_of c3 in
                              if negb (isCont s3) then (RuneError, 1%nat)
                              else
                                (Z.lor (Z.lor (Z.lor
                                   (Z.shiftl (Z.land s0 7) 18)
                                   (Z.shiftl (Z.land s1 63) 12))
                                   (Z.shiftl (Z.land s2 63) 6))
                                   (Z.land s3 63), 4%nat)
                          end
                    end
              end
        end
  end.

Definition byteChar (b : Z) : ascii := ascii_of_N (Z.to_N (b mod 256)).

Definition bytesOf (l : list Z) : string := of_chars (map byteChar l).

(** [utf8.EncodeRune] (as [utf8.AppendRune]) *)
Definition EncodeRune (r : Z) : string :=
  if (0 <=? r) && (r <=? 127) then bytesOf [r]
  else if (0 <=? r) && (r <=? 2047) then
    bytesOf [Z.lor 192 (Z.shiftr r 6); Z.lor 128 (Z.land r 63)]
  else
    let r := if (r <? 0) || (1114111 <? r) || inRange 55296 57343 r
             then RuneError else r in
    if r <=? 65535 then
      bytesOf [Z.lor 224 (Z.shiftr r 12);
               Z.lor 128 (Z.land (Z.shiftr r 6) 63);
               Z.lor 128 (Z.land r 63)]
    else
      bytesOf [Z.lor 240 (Z.shiftr r 18);
               Z.lor 128 (Z.land (Z.shiftr r 12) 63);
               Z.lor 128 (Z.land (Z.shiftr r 6) 63);
               Z.lor 128 (Z.land r 63)].

Fixpoint dropBytes (n : nat) (s : string) : string :=
  match n, s with
  | O, _ => s
  | S k, String _ r => dropBytes k r
  | S _, EmptyString => EmptyString
  end.

Fixpoint takeBytes (n : nat) (s : string) : string :=
  match n, s with
  | O, _ => EmptyString
  | S k, String c r => String c (takeBytes k r)
  | S _, EmptyString => EmptyString
  end.

(** The first two bytes of a well-formed sequence of three and of four
    bytes (Table 3-7 of the Unicode standard). *)
Definition lead3 (b0 b1 : Z) : Prop :=
  b0 = 224 /\ 160 <= b1 <= 191
  \/ (225 <= b0 <= 236 \/ 238 <= b0 <= 239) /\ 128 <= b1 <= 191
  \/ b0 = 237 /\ 128 <= b1 <= 159.

Definition lead4 (b0 b1 : Z) : Prop :=
  b0 = 240 /\ 144 <= b1 <= 191
  \/ 241 <= b0 <= 243 /\ 128 <= b1 <= 191
  \/ b0 = 244 /\ 128 <= b1 <= 143.

(** Well-formed UTF-8 byte sequences, by the same table. *)
Inductive ValidUTF8 : string -> Prop :=
| VNil : ValidUTF8 ""
| VAscii c s :
    byte_of c < 128 -> ValidUTF8 s -> ValidUTF8 (String c s)
| VTwo c0 c1 s :
    194 <= byte_of c0 <= 223 -> 128 <= byte_of c1 <= 191 ->
    ValidUTF8 s -> ValidUTF8 (String c0 (String c1 s))
| VThree c0 c1 c2 s :
    lead3 (byte_of c0) (byte_of c1) -> 128 <= byte_of c2 <= 191 ->
    ValidUTF8 s -> ValidUTF8 (String c0 (String c1 (String c2 s)))
| VFour c0 c1 c2 c3 s :
    lead4 (byte_of c0) (byte_of c1) ->
    128 <= byte_of c2 <= 191 -> 128 <= byte_of c3 <= 191 ->
    ValidUTF8 s ->
    ValidUTF8 (String c0 (String c1 (String c2 (String c3 s)))).

(** ** JSON as package [encoding/json] writes it *)

Definition hexDigit (n : Z) : string :=
  match String.get (Z.to_nat n) "0123456789abcdef" with
  | Some c => String c ""
  | None => ""
  end.

(** [htmlSafeSet]: the ASCII bytes written as they are. *)
Definition htmlSafe (b : Z) : bool :=
  (32 <=? b) && (b <? 128)
  && negb ((b =? 34) || (b =? 92) || (b =? 60) || (b =? 62) || (b =? 38)).

Definition backslash : string := String "092"%char "".
Definition quote : string := String "034"%char "".

(** The escape of an ASCII byte outside [htmlSafeSet]. *)
Definition escapeByte (b : Z) : string :=
  if (b =? 92) || (b =? 34) then backslash ++ bytesOf [b]
  else if b =? 8 then backslash ++ "b"
  else if b =? 12 then backslash ++ "f"
  else if b =? 10 then backslash ++ "n"
  else if b =? 13 then backslash ++ "r"
  else if b =? 9 then backslash ++ "t"
  else backslash ++ "u00" ++ hexDigit (Z.shiftr b 4) ++ hexDigit (Z.land b 15).

(** The loop of [appendString] over [src[i:]]; every round consumes at
    least one byte, [fuel] is the number of bytes left.  The short
    escapes of backspace and form feed are those of Go 1.22; older
    releases write [\u0008] and [\u000c], which read back the same. *)
Fixpoint appendStringLoop (fuel : nat) (src : string) : string :=
  match fuel with
  | O => ""
  | S fuel' =>
      match src with
      | EmptyString => ""
      | String c rest =>
          let b := byte_of c in
          if b <? 128 then
            (if htmlSafe b then String c "" else escapeByte b)
            ++ appendStringLoop fuel' rest
          else
            let '(r, size) := DecodeRuneInString (takeBytes 4 src) in
            if (r =? RuneError) && (size =? 1)%nat then
              backslash ++ "ufffd" ++ appendStringLoop fuel' rest
            else if (r =? 8232) || (r =? 8233) then
              backslash ++ "u202" ++ hexDigit (Z.land r 15)
              ++ appendStringLoop fuel' (dropBytes size src)
            else
              takeBytes size src ++ appendStringLoop fuel' (dropBytes size src)
      end
  end.

(** [appendString] with [escapeHTML] set, the default of both
    [json.Marshal] and [json.Encoder]. *)
Definition appendString (src : string) : string :=
  quote ++ appendStringLoop (String.length src) src ++ quote.

(** A JSON value; a number keeps the text it is printed with. *)
Inductive JSON :=
| JNull
| JBool (b : bool)
| JNum (lit : string)
| JStr (s : string)
| JArr (items : list JSON)
| JObj (fields : list (string * JSON)).

(** The compact form of [json.Marshal]. *)
Fixpoint compact (v : JSON) : string :=
  match v with
  | JNull => "null"
  | JBool b => if b then "true" else "false"
  | JNum lit => lit
  | JStr s => appendString s
  | JArr items =>
      "[" ++ (fix go (l : list JSON) (first : bool) : string :=
                match l with
                | [] => ""
                | x :: r => (if first then "" else ",") ++ compact x ++ go r false
                end) items true ++ "]"
  | JObj fields =>
      "{" ++ (fix go (l : list (string * JSON)) (first : bool) : string :=
                match l with
                | [] => ""
                | (k, x) :: r =>
                    (if first then "" else ",")
                    ++ appendString k ++ ":" ++ compact x ++ go r false
                end) fields true ++ "}"
  end.

(** A new line and the indentation of [SetIndent("", "  ")]. *)
Definition newline (depth : nat) : string := nl ++ Repeat "  " depth.

(** The form [json.Indent] gives the compact form. *)
Fixpoint indented (depth : nat) (v : JSON) : string :=
  match v with
  | JNull => "null"
  | JBool b => if b then "true" else "false"
  | JNum lit => lit
  | JStr s => appendString s
  | JArr [] => "[]"
  | JArr items =>
      "[" ++ (fix go (l : list JSON) (first : bool) : string :=
                match l with
                | [] => ""
                | x :: r =>
                    (if first then "" else ",") ++ newline (S depth)
                    ++ indented (S depth) x ++ go r false
                end) items true ++ newline depth ++ "]"
  | JObj [] => "{}"
  | JObj fields =>
      "{" ++ (fix go (l : list (string * JSON)) (first : bool) : string :=
                match l with
                | [] => ""
                | (k, x) :: r =>
                    (if first then "" else ",") ++ newline (S depth)
                    ++ appendString k ++ ": " ++ indented (S depth) x
                    ++ go r false
                end) fields true ++ newline depth ++ "}"
  end.

(** ** JSON as package [encoding/json] reads it *)

Definition isSpace (c : ascii) : bool :=
  let b := byte_of c in (b =? 32) || (b =? 9) || (b =? 10) || (b =? 13).

Fixpoint skipSpace (s : string) : string :=
  match s with
  | EmptyString => EmptyString
  | String c r => if isSpace c then skipSpace r else s
  end.

Definition hexVal (c : ascii) : option Z :=
  let b := byte_of c in
  if inRange 48 57 b then Some (b - 48)
  else if inRange 97 102 b then Some (b - 87)
  else if inRange 65 70 b then Some (b - 55)
  else None.

(** [getu4] on the four digits after the two bytes of the escape. *)
Definition hex4 (s : string) : option (Z * string) :=
  match s with
  | String a (String b (String c (String d r))) =>
      match hexVal a, hexVal b, hexVal c, hexVal d with
      | Some x3, Some x2, Some x1, Some x0 =>
          Some (x3 * 4096 + x2 * 256 + x1 * 16 + x0, r)
      | _, _, _, _ => None
      end
  | _ => None
  end.

Definition getu4 (s : string) : option (Z * string) :=
  match s with
  | String a (String b r) =>
      if (byte_of a =? 92) && (byte_of b =? 117) then hex4 r else None
  | _ => None
  end.

Definition IsSurrogate (r : Z) : bool := (55296 <=? r) && (r <? 57344).

(** [utf16.DecodeRune] *)
Definition utf16DecodeRune (r1 r2 : Z) : Z :=
  if (55296 <=? r1) && (r1 <? 56320) && (56320 <=? r2) && (r2 <? 57344)
  then Z.lor (Z.shiftl (r1 - 55296) 10) (r2 - 56320) + 65536
  else RuneError.

Definition consTo (c : ascii) (x : option (string * string))
    : option (string * string) :=
  match x with
  | Some (t, rest) => Some (String c t, rest)
  | None => None
  end.

Definition appTo (p : string) (x : option (string * string))
    : option (string * string) :=
  match x with
  | Some (t, rest) => Some (p ++ t, rest)
  | None => None
  end.

(** The bytes of a string literal from behind its opening quote: the
    decoded string and the input behind the closing quote.  A quote ends
    the literal, a control byte is an error, an escape is decoded, and a
    byte sequence that is no UTF-8 becomes U+FFFD.  Every round consumes
    at least one byte. *)
Fixpoint unquoteLoop (fuel : nat) (s : string) : option (string * string) :=
  match fuel with
  | O => None
  | S fuel' =>
      match s with
      | EmptyString => None
      | String c r =>
          let b := byte_of c in
          if b =? 34 then Some ("", r)
          else if b =? 92 then
            match r with
            | EmptyString => None
            | String e r' =>
                let x := byte_of e in
                if (x =? 34) || (x =? 92) || (x =? 47)
                then consTo e (unquoteLoop fuel' r')
                else if x =? 98 then consTo (byteChar 8) (unquoteLoop fuel' r')
                else if x =? 102 then consTo (byteChar 12) (unquoteLoop fuel' r')
                else if x =? 110 then consTo (byteChar 10) (unquoteLoop fuel' r')
                else if x =? 114 then consTo (byteChar 13) (unquoteLoop fuel' r')
                else if x =? 116 then consTo (byteChar 9) (unquoteLoop fuel' r')
                else if x =? 117 then
                  match hex4 r' with
                  | None => None
                  | Some (rr, r2) =>
                      if IsSurrogate rr then
                        match getu4 r2 with
                        | Some (rr1, r3) =>
                            if utf16DecodeRune rr rr1 =? RuneError
                            then appTo (EncodeRune RuneError) (unquoteLoop fuel' r2)
                            else appTo (EncodeRune (utf16DecodeRune rr rr1))
                                       (unquoteLoop fuel' r3)
                        | None =>
                            appTo (EncodeRune RuneError) (unquoteLoop fuel' r2)
                        end
                      else appTo (EncodeRune rr) (unquoteLoop fuel' r2)
                  end
                else None
            end
          else if b <? 32 then None
          else if b <? 128 then consTo c (unquoteLoop fuel' r)
          else
            let '(rr, size) := DecodeRuneInString (takeBytes 4 s) in
            appTo (EncodeRune rr) (unquoteLoop fuel' (dropBytes size s))
      end
  end.

Definition unquote (s : string) : option (string * string) :=
  unquoteLoop (S (String.length s)) s.

Definition isNumberChar (c : ascii) : bool :=
  let b := byte_of c in
  inRange 48 57 b || (b =? 45) || (b =? 43) || (b =? 46) || (b =? 101) || (b =? 69).

(** The longest prefix of number bytes, and the rest. *)
Fixpoint spanNumber (s : string) : string * string :=
  match s with
  | EmptyString => ("", "")
  | String c r =>
      if isNumberChar c then
        let '(n, rest) := spanNumber r in (String c n, rest)
      else ("", s)
  end.

(** The input behind a prefix, if it starts with that prefix. *)
Fixpoint stripPrefix (p s : string) : option string :=
  match p with
  | EmptyString => Some s
  | String a p' =>
      match s with
      | String b s' => if Ascii.eqb a b then stripPrefix p' s' else None
      | EmptyString => None
      end
  end.

(** A value, the items of an array behind its bracket, the fields of an
    object behind its brace; [fuel] bounds the nesting and the number of
    items. *)
Fixpoint parseValue (fuel : nat) (s : string) : option (JSON * string) :=
  match fuel with
  | O => None
  | S fuel' =>
      match skipSpace s with
      | EmptyString => None
      | String c r =>
          let b := byte_of c in
          if b =? 34 then
            match unquote r with
            | Some (t, rest) => Some (JStr t, rest)
            | None => None
            end
          else if b =? 91 then
            match skipSpace r with
            | String c' r' =>
                if byte_of c' =? 93 then Some (JArr [], r')
                else
                  match parseItems fuel' r with
                  | Some (items, rest) => Some (JArr items, rest)
                  | None => None
                  end
            | EmptyString => None
            end
          else if b =? 123 then
            match skipSpace r with
            | String c' r' =>
                if byte_of c' =? 125 then Some (JObj [], r')
                else
                  match parseFields fuel' r with
                  | Some (fields, rest) => Some (JObj fields, rest)
                  | None => None
                  end
            | EmptyString => None
            end
          else if isNumberChar c then
            let '(n, rest) := spanNumber (String c r) in Some (JNum n, rest)
          else
            match stripPrefix "null" (String c r) with
            | Some rest => Some (JNull, rest)
            | None =>
                match stripPrefix "true" (String c r) with
                | Some rest => Some (JBool true, rest)
                | None =>
                    match stripPrefix "false" (String c r) with
                    | Some rest => Some (JBool false, rest)
                    | None => None
                    end
                end
            end
      end
  end
with parseItems (fuel : nat) (s : string) : option (list JSON * string) :=
  match fuel with
  | O => None
  | S fuel' =>
      match parseValue fuel' s with
      | None => None
      | Some (x, rest) =>
          match skipSpace rest with
          | String c r =>
              if byte_of c =? 93 then Some ([x], r)
              else if byte_of c =? 44 then
                match parseItems fuel' r with
                | Some (items, rest') => Some (x :: items, rest')
                | None => None
                end
              else None
          | EmptyString => None
          end
      end
  end
with parseFields (fuel : nat) (s : string)
    : option (list (string * JSON) * string) :=
  match fuel with
  | O => None
  | S fuel' =>
      match skipSpace s with
      | String q r0 =>
          if byte_of q =? 34 then
            match unquote r0 with
            | None => None
            | Some (k, r1) =>
                match skipSpace r1 with
                | String colon r2 =>
                    if byte_of colon =? 58 then
                      match parseValue fuel' r2 with
                      | None => None
                      | Some (x, rest) =>
                          match skipSpace rest with
                          | String c r =>
                              if byte_of c =? 125 then Some ([(k, x)], r)
                              else if byte_of c =? 44 then
                                match parseFields fuel' r with
                                | Some (fields, rest') =>
                                    Some ((k, x) :: fields, rest')
                                | None => None
                                end
                              else None
                          | EmptyString => None
                          end
                      end
                    else None
                | EmptyString => None
                end
            end
          else None
      | EmptyString => None
      end
  end.

(** A whole document: one value, then only white space. *)
Definition parseJSON (s : string) : option JSON :=
  match parseValue (S (String.length s)) s with
  | Some (v, rest) =>
      match skipSpace rest with
      | EmptyString => Some v
      | _ => None
      end
  | None => None
  end.

(** The value of a key of an object; of two equal keys the later one
    counts. *)
Fixpoint lookupField (k : string) (fields : list (string * JSON)) : option JSON :=
  match fields with
  | [] => None
  | (k', v) :: rest =>
      match lookupField k rest with
      | Some v' => Some v'
      | None => if String.eqb k k' then Some v else None
      end
  end.

(** A string field of a record: absent or [null] leaves it empty. *)
Definition stringField (k : string) (fields : list (string * JSON)) : option string :=
  match lookupField k fields with
  | None | Some JNull => Some ""
  | Some (JStr s) => Some s
  | Some _ => None
  end.

Definition intField (k : string) (fields : list (string * JSON)) : option Z :=
  match lookupField k fields with
  | None | Some JNull => Some 0
  | Some (JNum lit) => option_map Z.of_int (NilEmpty.int_of_string lit)
  | Some _ => None
  end.

(** Reading one element of ["files"] back into a [FileInfo]. *)
Definition unmarshalFileInfo (v : JSON) : option FileInfo :=
  match v with
  | JObj fields =>
      match stringField "path" fields, intField "size" fields,
            stringField "modified" fields, stringField "content" fields,
            stringField "relative_path" fields with
      | Some p, Some n, Some m, Some c, Some r =>
          Some {| Path := p; Size := n; Modified := m; Content := c;
                  RelativePath := r |}
      | _, _, _, _, _ => None
      end
  | _ => None
  end.

Fixpoint unmarshalAll (items : list JSON) : option (list FileInfo) :=
  match items with
  | [] => Some []
  | v :: rest =>
      match unmarshalFileInfo v, unmarshalAll rest with
      | Some info, Some infos => Some (info :: infos)
      | _, _ => None
      end
  end.

(** Reading the records of a document of [writeJSONOutput] back. *)
Definition readRecords (document : string) : option (list FileInfo) :=
  match parseJSON document with
  | Some (JObj fields) =>
      match lookupField "files" fields with
      | None | Some JNull => Some []
      | Some (JArr items) => unmarshalAll items
      | Some _ => None
      end
  | _ => None
  end.

Definition version : string := "0.1.0".

Section Structured.

Context {O : OutLib}.

(** [json.Marshal] of a [FileInfo]: the fields in the order of the
    struct, [content] left out when empty. *)
Definition marshalFileInfo (info : FileInfo) : JSON :=
  JObj ([("path", JStr (Path info));
         ("size", JNum (itoa (Size info)));
         ("modified", JStr (Modified info))]
        ++ (if String.eqb (Content info) "" then []
            else [("content", JStr (Content info))])
        ++ [("relative_path", JStr (RelativePath info))])%list.

(** A nil slice is [null]; the slices of the program are nil when empty. *)
Definition marshalFiles (fileInfos : list FileInfo) : JSON :=
  match fileInfos with
  | [] => JNull
  | _ => JArr (map marshalFileInfo fileInfos)
  end.

(** The map [output] of [writeJSONOutput]; a map is written with its
    keys sorted. *)
Definition jsonOutput (fileInfos : list FileInfo) (stats : Stats) : JSON :=
  JObj [("files", marshalFiles fileInfos);
        ("metadata",
         JObj [("directories", JNum (itoa (Directories stats)));
               ("duration_secs", JNum (jsonSeconds (Duration stats)));
               ("files_count", JNum (itoa (FilesProcessed stats)));
               ("generated", JStr nowRFC3339);
               ("total_size", JNum (itoa (TotalBytes stats)));
               ("version", JStr version)])].

(** [Encoder.Encode] writes the indented form and a new line; the size
    returned is the length of the compact form. *)
Definition writeJSONOutput (fileInfos : list FileInfo) (stats : Stats) : Written :=
  let output := jsonOutput fileInfos stats in
  (len (compact output), indented 0 output ++ nl).

Definition writeXMLOutput (fileInfos : list FileInfo) (stats : Stats) : Written :=
  let data := xmlMarshalIndent nowRFC3339 stats fileInfos in
  (add64 (len data) (len xmlHeader), xmlHeader ++ data).

(** [writeOutput]: [None] when [os.Create] fails, else the size reported
    and the bytes of the file at [outputPath].  The file keeps the name
    [outputPath]: the suffix [.gz] is added to the local variable only. *)
Definition writeOutput (canCreate : string -> bool)
    (fileInfos : list FileInfo) (outputPath format : string)
    (compress : bool) (stats : Stats) : option (Z * string) :=
  if negb (canCreate outputPath) then None
  else
    let fmt := strings_ToLower format in
    let out :=
      if String.eqb fmt "json" then writeJSONOutput fileInfos stats
      else if String.eqb fmt "xml" then writeXMLOutput fileInfos stats
      else if String.eqb fmt "markdown" || String.eqb fmt "md"
      then writeMarkdownOutput fileInfos stats
      else writeTextOutput fileInfos stats in
    Some (fst out, if compress then gzip (snd out) else snd out).

End Structured.

(** ** [main], from the validation of the resolved configuration on *)

(** The flag values [main] reads again after the configuration is
    resolved. *)
Record Flags := {
  flagExclude : string;
  flagInclude : string;
  flagFormat : string;
  flagCompress : bool;
  flagParallel : Z;
  flagQuiet : bool;
  flagVerbose : bool;
  flagDryRun : bool
}.

Inductive Fatal :=
| BadInputDir | BadOutputPath | BadExtensions
| BadExcludePattern | BadIncludePattern | WalkFailed | WriteFailed.

(** What a run does to the world, in order. *)
Inductive Effect :=
| EvWalk (root : string)
| EvIngest (path : string)
| EvCreate (path : string) (bytes : string).

Record Outcome := {
  exitCode : Z;
  fatal : option Fatal;
  effects : list Effect;
  records : list FileInfo;
  finalStats : Stats
}.

Definition abort (f : Fatal) (done : list Effect) (st : Stats) : Outcome :=
  {| exitCode := 1; fatal := Some f; effects := done; records := [];
     finalStats := st |}.

(** [strings.Split(s, ",")] *)
Fixpoint splitComma (s : string) (cur : string) : list string :=
  match s with
  | EmptyString => [cur]
  | String c r =>
      if Ascii.eqb c ","%char then cur :: splitComma r ""
      else splitComma r (cur ++ String c "")
  end.

(** [strings.Join(l, ",")] *)
Fixpoint joinComma (l : list string) : string :=
  match l with
  | [] => ""
  | [x] => x
  | x :: r => x ++ "," ++ joinComma r
  end.

Section Main.

Context {L : PathLib} {O : OutLib}.
Variable w : World.

Definition validateDirectory (dirPath : string) : bool :=
  match os_Stat w dirPath with
  | None => false
  | Some info => IsDir info
  end.

Definition validateFilePath (filePath : string) : bool :=
  match os_Stat w (Dir filePath) with
  | None => false
  | Some info => IsDir info
  end.

Definition validateExtensions (extStr : string) : bool :=
  if String.eqb extStr "" then true
  else
    forallb (fun ext =>
               let ext := TrimSpace ext in
               HasPrefix ext "." || String.eqb ext "*")
            (splitComma extStr "").

(** The checks before the walk; the patterns compiled are those of the
    flags. *)
Definition preflight (config : Config) (flags : Flags)
    : Fatal + (option Regexp * option Regexp) :=
  if negb (validateDirectory (InputDir config)) then inl BadInputDir
  else if negb (validateFilePath (OutputFile config)) then inl BadOutputPath
  else if negb (validateExtensions (joinComma (Extensions config)))
  then inl BadExtensions
  else
    match (if String.eqb (flagExclude flags) "" then Some None
           else option_map Some (Compile (flagExclude flags))) with
    | None => inl BadExcludePattern
    | Some excludeRegex =>
        match (if String.eqb (flagInclude flags) "" then Some None
               else option_map Some (Compile (flagInclude flags))) with
        | None => inl BadIncludePattern
        | Some includeRegex => inr (excludeRegex, includeRegex)
        end
    end.

(** The ingestion [main] chooses. *)
Definition ingest (config : Config) (flags : Flags) (filePaths : list string)
    (stats : Stats) (out : list FileInfo * Stats) : Prop :=
  if 1 <? flagParallel flags then
    processFilesParallel w filePaths (InputDir config) (flagParallel flags)
                         (flagVerbose flags) (flagQuiet flags) stats out
  else
    out = processFilesSequential w filePaths (InputDir config)
                                 (flagVerbose flags) (flagQuiet flags) stats.

Definition setDuration (st : Stats) (d : Z) : Stats :=
  {| FilesProcessed := FilesProcessed st; Directories := Directories st;
     TotalBytes := TotalBytes st; Duration := d; OutputSize := OutputSize st |}.

Definition setOutputSize (st : Stats) (n : Z) : Stats :=
  {| FilesProcessed := FilesProcessed st; Directories := Directories st;
     TotalBytes := TotalBytes st; Duration := Duration st; OutputSize := n |}.

(** From the end of ingestion to the exit; [elapsed] is what the clock
    gives for [time.Since(startTime)]. *)
Definition finish (config : Config) (flags : Flags) (elapsed : Z)
    (filePaths : list string) (fileInfos : list FileInfo) (stats : Stats)
    : Outcome :=
  let stats := setDuration stats elapsed in
  let done := (EvWalk (InputDir config) :: map EvIngest filePaths)%list in
  if flagDryRun flags then
    {| exitCode := 0; fatal := None; effects := done;
       records := fileInfos; finalStats := stats |}
  else
    match writeOutput (os_Create w) fileInfos (OutputFile config)
                      (flagFormat flags) (flagCompress flags) stats with
    | None => abort WriteFailed done stats
    | Some (outputSize, bytes) =>
        {| exitCode := 0; fatal := None;
           effects := (done ++ [EvCreate (OutputFile config) bytes])%list;
           records := fileInfos;
           finalStats := setOutputSize stats outputSize |}
    end.

(** A run of [main] on a resolved configuration ends in [o]. *)
Definition mainRun (config : Config) (flags : Flags) (elapsed : Z)
    (o : Outcome) : Prop :=
  match preflight config flags with
  | inl f => o = abort f [] zeroStats
  | inr (excludeRegex, includeRegex) =>
      match discover config excludeRegex includeRegex
                     (os_Tree w (InputDir config)) zeroStats with
      | ((stats, filePaths), WNil) =>
          exists fileInfos stats',
            ingest config flags filePaths stats (fileInfos, stats') /\
            o = finish config flags elapsed filePaths fileInfos stats'
      | ((stats, _), _) => o = abort WalkFailed [EvWalk (InputDir config)] stats
      end
  end.

End Main.

(** ** The library as the examples use it

    Patterns without operators (they match as substrings; an opening
    parenthesis alone does not compile), paths below a root written with
    single slashes, ASCII text. *)

Fixpoint containsAt (p s : string) (fuel : nat) : bool :=
  match fuel with
  | O => String.prefix p s
  | S k =>
      String.prefix p s
      || match s with
         | EmptyString => false
         | String _ r => containsAt p r k
         end
  end.

Definition literalMatch (p s : string) : bool := containsAt p s (String.length s).

Definition relBelow (base path : string) : option string :=
  if String.prefix (base ++ "/") path
  then Some (dropBytes (S (String.length base)) path)
  else None.

(** The directory part: up to the last slash, ["."] when there is none. *)
Fixpoint dirScan (rev_bytes : list ascii) : list ascii :=
  match rev_bytes with
  | [] => []
  | c :: r => if Ascii.eqb c slash then r else dirScan r
  end.

Definition dirOf (path : string) : string :=
  match dirScan (rev (chars path)) with
  | [] => "."
  | l => of_chars (rev l)
  end.

Definition isAsciiSpace (c : ascii) : bool :=
  let b := byte_of c in (b =? 32) || inRange 9 13 b.

Fixpoint trimLeft (s : string) : string :=
  match s with
  | EmptyString => EmptyString
  | String c r => if isAsciiSpace c then trimLeft r else s
  end.

Definition trimAscii (s : string) : string :=
  of_chars (rev (chars (trimLeft (of_chars (rev (chars (trimLeft s))))))).

Definition examplePaths : PathLib := {|
  Regexp := string;
  Compile := fun p => if String.eqb p "(" then None else Some p;
  MatchString := literalMatch;
  Rel := relBelow;
  Join := fun dir name => dir ++ "/" ++ name;
  Dir := dirOf;
  TrimSpace := trimAscii;
  equalFoldUnicode := fun _ _ => false
|}.

(** A stand-in for gzip that frames its input, a fixed clock, and
    durations printed as zero. *)
Definition exampleOut : OutLib := {|
  gzip := fun s => "GZ" ++ s;
  nowLocal := "2024-01-01 00:00:00";
  nowRFC3339 := "2024-01-01T00:00:00Z";
  fmtSeconds2 := fun _ => "0.00";
  jsonSeconds := fun _ => "0";
  xmlMarshalIndent := fun _ _ _ => "";
  xmlHeader := "";
  strings_ToLower := ToLower
|}.

(** ** The walk as the specification words it

    [filesFound] lists the files below an entry that pass the filter, in
    the order of the walk, with no descent into a hidden directory when
    [ExcludeHidden] is set; [dirsSeen] counts the directories the walk
    reads, the hidden ones included. *)

Section Discovery.

Context {L : PathLib}.

Definition pruned (config : Config) (name : string) : bool :=
  ExcludeHidden config && isHidden name.

Fixpoint filesFound (config : Config)
    (excludeRegex includeRegex : option Regexp) (path : string) (e : Entry)
    {struct e} : list string :=
  match e with
  | EFile name size mtime =>
      if shouldProcessFile path (fileOsInfo name size mtime) config
                           excludeRegex includeRegex
      then [path] else []
  | EDir name (Some entries) =>
      if pruned config name then []
      else
        (fix below (l : list Entry) : list string :=
           match l with
           | [] => []
           | c :: rest =>
               (filesFound config excludeRegex includeRegex
                           (Join path (entryName c)) c ++ below rest)%list
           end) entries
  | EDir _ None => []
  | EErr _ => []
  end.

Fixpoint dirsSeen (config : Config) (e : Entry) {struct e} : Z :=
  match e with
  | EDir name (Some entries) =>
      if pruned config name then 1
      else
        1 + (fix below (l : list Entry) : Z :=
               match l with
               | [] => 0
               | c :: rest => dirsSeen config c + below rest
               end) entries
  | _ => 0
  end.

(** What [walk] returns with the callback of [main]: [SkipDir] on a
    pruned directory that could be read, [nil] otherwise. *)
Definition walkVerdict (config : Config) (e : Entry) : WalkErr :=
  match e with
  | EDir name (Some _) => if pruned config name then WSkipDir else WNil
  | _ => WNil
  end.

End Discovery.

Definition addDirectories (st : Stats) (n : Z) : Stats :=
  {| FilesProcessed := FilesProcessed st;
     Directories := wrap64 (Directories st + n);
     TotalBytes := TotalBytes st;
     Duration := Duration st;
     OutputSize := OutputSize st |}.

(** ** An example tree: [a.go], [.hidden/b.go] and [c.txt] of 50 bytes
    each, below [proj] *)

Definition fifty : string := Repeat "0123456789" 5.

Definition exampleTree : Entry :=
  EDir "proj"
    (Some [EDir ".hidden" (Some [EFile "b.go" 50 "2024-01-01 00:00:00"]);
           EFile "a.go" 50 "2024-01-01 00:00:00";
           EFile "c.txt" 50 "2024-01-01 00:00:00"]).

Definition exampleWorld : World :=
  {| os_Stat := fun p =>
       if String.eqb p "proj" || String.eqb p "out" || String.eqb p "proj/.hidden"
       then Some (dirOsInfo p)
       else if String.eqb p "proj/a.go" || String.eqb p "proj/c.txt"
               || String.eqb p "proj/.hidden/b.go"
       then Some (fileOsInfo p 50 "2024-01-01 00:00:00")
       else None;
     os_ReadFile := fun p =>
       if String.eqb p "proj/a.go" || String.eqb p "proj/c.txt"
          || String.eqb p "proj/.hidden/b.go"
       then Some fifty else None;
     os_Tree := fun p => if String.eqb p "proj" then exampleTree else EErr p;
     os_Create := fun p => String.eqb p "out/combined.txt" |}.

Definition goOnly : Config :=
  {| InputDir := "proj"; OutputFile := "out/combined.txt";
     Extensions := [".go"]; ExcludeHidden := true;
     MaxFileSize := 0; MinFileSize := 0;
     ExcludePattern := ""; IncludePattern := "";
     OutputFormat := "text"; Compress := false; Parallel := 1;
     Quiet := true; Verbose := false; DryRun := false |}.

Definition plainFlags : Flags :=
  {| flagExclude := ""; flagInclude := ""; flagFormat := "text";
     flagCompress := false; flagParallel := 1; flagQuiet := true;
     flagVerbose := false; flagDryRun := false |}.

(** ** Bookkeeping for the runs of [processFilesParallel] *)

(** The statistics after the records of a list are counted in turn. *)
Fixpoint countAll (infos : list FileInfo) (stats : Stats) : Stats :=
  match infos with
  | [] => stats
  | info :: rest => countAll rest (countFile info stats)
  end.

(** [n] files of [b] bytes in all counted at once. *)
Definition bump (st : Stats) (n b : Z) : Stats :=
  {| FilesProcessed := wrap64 (FilesProcessed st + n);
     Directories := Directories st;
     TotalBytes := wrap64 (TotalBytes st + b);
     Duration := Duration st;
     OutputSize := OutputSize st |}.

(** The paths the workers hold. *)
Fixpoint held (ws : list Worker) : list string :=
  match ws with
  | [] => []
  | Holding p :: r => p :: held r
  | _ :: r => held r
  end.

(** The workers still in their loop. *)
Fixpoint active (ws : list Worker) : nat :=
  match ws with
  | [] => O
  | Exited :: r => active r
  | _ :: r => S (active r)
  end.

(** The paths a state has yet to turn into a record or an error. *)
Definition pending (s : ParState) : list string :=
  (held (workers s) ++ fileChan s ++ toSend s)%list.

(** A bound on the steps a state can still take. *)
Definition stepsLeft (s : ParState) : nat :=
  (3 * List.length (toSend s) + 2 * List.length (fileChan s)
   + List.length (held (workers s))
   + (if fileClosed s then 0 else 1) + active (workers s))%nat.

Definition allExited (ws : list Worker) : bool :=
  forallb (fun x => match x with Exited => true | _ => false end) ws.

Section ParallelInvariant.

Context {L : PathLib}.
Variable w : World.

(** What holds of every state a run of [processFilesParallel] reaches:
    the records of the paths are those already sent as results and those
    of the paths still pending; no channel holds more than its capacity;
    a worker has left only after the channel was closed and drained. *)
Definition ParInv (paths : list string) (baseDir : string) (nworkers : Z)
    (s : ParState) : Prop :=
  Permutation (ingested w paths baseDir)
              (resultChan s ++ ingested w (pending s) baseDir)
  /\ (List.length (toSend s) + List.length (fileChan s)
      + List.length (held (workers s))
      + List.length (resultChan s) + List.length (errorChan s)
      = List.length paths)%nat
  /\ (In Exited (workers s) -> fileChan s = [] /\ fileClosed s = true)
  /\ (fileClosed s = true -> toSend s = [])
  /\ List.length (workers s) = Z.to_nat nworkers.

End ParallelInvariant.

Definition parDoneb (s : ParState) : bool :=
  match toSend s with [] => true | _ => false end
  && fileClosed s && allExited (workers s).

(** The size [writeOutput] returns: 0 with the error of [os.Create]. *)
Definition reportedSize {O : OutLib} (canCreate : string -> bool)
    (fileInfos : list FileInfo) (outputPath format : string)
    (compress : bool) (stats : Stats) : Z :=
  match writeOutput canCreate fileInfos outputPath format compress stats with
  | Some (n, _) => n
  | None => 0
  end.

(** The bytes [writeOutput] leaves in the file. *)
Definition fileBytes {O : OutLib} (canCreate : string -> bool)
    (fileInfos : list FileInfo) (outputPath format : string)
    (compress : bool) (stats : Stats) : string :=
  match writeOutput canCreate fileInfos outputPath format compress stats with
  | Some (_, bytes) => bytes
  | None => ""
  end.

(** The serialiser [writeOutput] chooses for a format. *)
Definition chosenWriter {O : OutLib} (format : string)
    (fileInfos : list FileInfo) (stats : Stats) : Written :=
  let fmt := strings_ToLower format in
  if String.eqb fmt "json" then writeJSONOutput fileInfos stats
  else if String.eqb fmt "xml" then writeXMLOutput fileInfos stats
  else if String.eqb fmt "markdown" || String.eqb fmt "md"
  then writeMarkdownOutput fileInfos stats
  else writeTextOutput fileInfos stats.

(** An example world whose input directory [empty] has no entries. *)
Definition emptyDirWorld : World :=
  {| os_Stat := fun p =>
       if String.eqb p "empty" || String.eqb p "out"
       then Some (dirOsInfo p) else None;
     os_ReadFile := fun _ => None;
     os_Tree := fun p =>
       if String.eqb p "empty" then EDir "empty" (Some []) else EErr p;
     os_Create := fun p => String.eqb p "out/combined.txt" |}.

Definition emptyDirConfig : Config :=
  {| InputDir := "empty"; OutputFile := "out/combined.txt";
     Extensions := []; ExcludeHidden := true;
     MaxFileSize := 0; MinFileSize := 0;
     ExcludePattern := ""; IncludePattern := "";
     OutputFormat := "text"; Compress := false; Parallel := 1;
     Quiet := true; Verbose := false; DryRun := false |}.

Definition noInputConfig : Config :=
  {| InputDir := "nowhere"; OutputFile := "out/combined.txt";
     Extensions := []; ExcludeHidden := true;
     MaxFileSize := 0; MinFileSize := 0;
     ExcludePattern := ""; IncludePattern := "";
     OutputFormat := "text"; Compress := false; Parallel := 1;
     Quiet := true; Verbose := false; DryRun := false |}.

(** ** The strings a JSON document keeps

    [encoding/json] writes a string as valid UTF-8: a byte that starts
    no well-formed sequence is replaced by U+FFFD.  [coerceLoop] is that
    replacement on the bytes themselves. *)
Fixpoint coerceLoop (fuel : nat) (src : string) : string :=
  match fuel with
  | O => ""
  | S fuel' =>
      match src with
      | EmptyString => ""
      | String c rest =>
          if byte_of c <? 128 then String c (coerceLoop fuel' rest)
          else
            let '(r, size) := DecodeRuneInString (takeBytes 4 src) in
            if (r =? RuneError) && (size =? 1)%nat then
              EncodeRune RuneError ++ coerceLoop fuel' rest
            else takeBytes size src ++ coerceLoop fuel' (dropBytes size src)
      end
  end.

Definition toValidUTF8 (s : string) : string := coerceLoop (String.length s) s.

Definition coerceInfo (info : FileInfo) : FileInfo :=
  {| Path := toValidUTF8 (Path info);
     Size := Size info;
     Modified := toValidUTF8 (Modified info);
     Content := toValidUTF8 (Content info);
     RelativePath := toValidUTF8 (RelativePath info) |}.

(** The value the reader gets for a value written. *)
Fixpoint coerceJSON (v : JSON) : JSON :=
  match v with
  | JStr s => JStr (toValidUTF8 s)
  | JArr items => JArr (map coerceJSON items)
  | JObj fields =>
      JObj ((fix go (l : list (string * JSON)) : list (string * JSON) :=
               match l with
               | [] => []
               | (k, x) :: r => (toValidUTF8 k, coerceJSON x) :: go r
               end) fields)
  | _ => v
  end.

(** A number as the reader takes it: bytes of a number, at least one. *)
Definition numberLit (lit : string) : Prop :=
  lit <> "" /\ Forall (fun c => isNumberChar c = true) (chars lit).

(** Values whose numbers are written as numbers. *)
Inductive WfJSON : JSON -> Prop :=
| WfNull : WfJSON JNull
| WfBool b : WfJSON (JBool b)
| WfNum lit : numberLit lit -> WfJSON (JNum lit)
| WfStr s : WfJSON (JStr s)
| WfArr items : Forall WfJSON items -> WfJSON (JArr items)
| WfObj fields : Forall (fun kv => WfJSON (snd kv)) fields -> WfJSON (JObj fields).

(** What may follow a value in a document: nothing, or a byte that
    cannot continue a number. *)
Definition endsNumber (rest : string) : Prop :=
  match rest with
  | EmptyString => True
  | String c _ => isNumberChar c = false
  end.

(** The fuel the reader needs for a value. *)
Fixpoint need (v : JSON) : nat :=
  match v with
  | JArr items =>
      S ((fix go (l : list JSON) : nat :=
            match l with
            | [] => O
            | x :: r => S (need x + go r)
            end) items)
  | JObj fields =>
      S ((fix go (l : list (string * JSON)) : nat :=
            match l with
            | [] => O
            | (_, x) :: r => S (need x + go r)
            end) fields)
  | _ => 1%nat
  end.

(** The items of an array and the fields of an object as [indented]
    writes them, and as the reader gets them. *)
Fixpoint indentedItems (depth : nat) (l : list JSON) (first : bool) : string :=
  match l with
  | [] => ""
  | x :: r =>
      (if first then "" else ",") ++ newline (S depth)
      ++ indented (S depth) x ++ indentedItems depth r false
  end.

Fixpoint indentedFields (depth : nat) (l : list (string * JSON)) (first : bool)
    : string :=
  match l with
  | [] => ""
  | (k, x) :: r =>
      (if first then "" else ",") ++ newline (S depth)
      ++ appendString k ++ ": " ++ indented (S depth) x
      ++ indentedFields depth r false
  end.

Fixpoint coerceFields (l : list (string * JSON)) : list (string * JSON) :=
  match l with
  | [] => []
  | (k, x) :: r => (toValidUTF8 k, coerceJSON x) :: coerceFields r
  end.

Fixpoint needItems (l : list JSON) : nat :=
  match l with
  | [] => O
  | x :: r => S (need x + needItems r)
  end.

Fixpoint needFields (l : list (string * JSON)) : nat :=
  match l with
  | [] => O
  | (_, x) :: r => S (need x + needFields r)
  end.

(** A record whose content is the single byte 255, which is no UTF-8. *)
Definition latin1Record : FileInfo :=
  {| Path := "proj/a.txt"; Size := 1; Modified := "2024-01-01 00:00:00";
     Content := String (ascii_of_nat 255) ""; RelativePath := "a.txt" |}.

(** The size a streaming serialiser has counted is the length of what
    it has written, in 64 bits. *)
Definition counted (st : Written) : Prop := fst st = wrap64 (len (snd st)).

(** The default input directory: [os.Lstat(".")] names it ["."]. *)
Definition dotConfig : Config :=
  {| InputDir := "."; OutputFile := "out/combined.txt";
     Extensions := [".go"]; ExcludeHidden := true;
     MaxFileSize := 0; MinFileSize := 0;
     ExcludePattern := ""; IncludePattern := "";
     OutputFormat := "text"; Compress := false; Parallel := 1;
     Quiet := true; Verbose := false; DryRun := false |}.

Definition hiddenDir : Entry :=
  EDir ".hidden" (Some [EFile "b.go" 50 "2024-01-01 00:00:00"]).

(** Flags whose exclude pattern does not compile. *)
Definition badPatternFlags : Flags :=
  {| flagExclude := "("; flagInclude := ""; flagFormat := "text";
     flagCompress := false; flagParallel := 1; flagQuiet := true;
     flagVerbose := false; flagDryRun := false |}.

(** The example configuration and tree below any input directory. *)
Definition goOnlyAt (root : string) : Config :=
  {| InputDir := root; OutputFile := "out/combined.txt";
     Extensions := [".go"]; ExcludeHidden := true;
     MaxFileSize := 0; MinFileSize := 0;
     ExcludePattern := ""; IncludePattern := "";
     OutputFormat := "text"; Compress := false; Parallel := 1;
     Quiet := true; Verbose := false; DryRun := false |}.

Definition exampleTreeNamed (rootName : string) : Entry :=
  EDir rootName
    (Some [hiddenDir;
           EFile "a.go" 50 "2024-01-01 00:00:00";
           EFile "c.txt" 50 "2024-01-01 00:00:00"]).

(** ** Allowed extensions that can match no file *)

(** An entry of [config.Extensions] whose first byte is an ASCII byte
    other than the dot. *)
Definition noLeadingDot (allowedExt : string) : bool :=
  match allowedExt with
  | EmptyString => false
  | String c _ => (byte_of c <? 128) && negb (byte_of c =? 46)
  end.

(** ** The layout of the streamed formats *)

(** The sections of a list of records, one after the other; the
    Markdown sections are numbered from [i + 1]. *)
Fixpoint textSections (fileInfos : list FileInfo) : string :=
  match fileInfos with
  | [] => ""
  | info :: rest => textSection info ++ textSections rest
  end.

Fixpoint mdSections (i : Z) (fileInfos : list FileInfo) : string :=
  match fileInfos with
  | [] => ""
  | info :: rest => mdSection i info ++ mdSections (i + 1) rest
  end.

(** The items of an array and the fields of an object as [compact]
    writes them. *)
Fixpoint compactItems (l : list JSON) (first : bool) : string :=
  match l with
  | [] => ""
  | x :: r => (if first then "" else ",") ++ compact x ++ compactItems r false
  end.

Fixpoint compactFields (l : list (string * JSON)) (first : bool) : string :=
  match l with
  | [] => ""
  | (k, x) :: r =>
      (if first then "" else ",")
      ++ appendString k ++ ":" ++ compact x ++ compactFields r false
  end.

(** The strings of a record are valid UTF-8. *)
Definition validRecord (info : FileInfo) : Prop :=
  ValidUTF8 (Path info) /\ ValidUTF8 (Modified info)
  /\ ValidUTF8 (Content info) /\ ValidUTF8 (RelativePath info).

(** An entry of [config.Extensions] as [validateExtensions] checks it. *)
Definition extensionOk {L : PathLib} (ext : string) : bool :=
  HasPrefix (TrimSpace ext) "." || String.eqb (TrimSpace ext) "*".

Definition noComma (s : string) : bool :=
  forallb (fun c => negb (Ascii.eqb c ","%char)) (chars s).

(** ** The files a walk can reach

    The files below an entry with their paths and what [Lstat] gives for
    them, in the order of the walk, those below a pruned directory or a
    directory that cannot be read left out. *)
Fixpoint reachable {L : PathLib} (config : Config) (path : string) (e : Entry)
    {struct e} : list (string * OsFileInfo) :=
  match e with
  | EFile name size mtime => [(path, fileOsInfo name size mtime)]
  | EDir name (Some entries) =>
      if pruned config name then []
      else
        (fix below (l : list Entry) : list (string * OsFileInfo) :=
           match l with
           | [] => []
           | c :: rest =>
               (reachable config (Join path (entryName c)) c ++ below rest)%list
           end) entries
  | EDir _ None => []
  | EErr _ => []
  end.

(** ** A run of [main] in two halves

    [candidates] is [filePaths] after the walk of a run and [walked] the
    statistics at that point. *)
Definition candidates {L : PathLib} (w : World) (config : Config)
    (excludeRegex includeRegex : option Regexp) : list string :=
  filesFound config excludeRegex includeRegex (InputDir config)
             (os_Tree w (InputDir config)).

Definition walked (w : World) (config : Config) : Stats :=
  addDirectories zeroStats (dirsSeen config (os_Tree w (InputDir config))).

(** The sum of the sizes of a list of records. *)
Definition sizeSum (infos : list FileInfo) : Z :=
  fold_right (fun i acc => Size i + acc) 0 infos.

Definition dryRunFlags : Flags :=
  {| flagExclude := ""; flagInclude := ""; flagFormat := "text";
     flagCompress := false; flagParallel := 1; flagQuiet := true;
     flagVerbose := false; flagDryRun := true |}.

(** The example world with an output file that cannot be created. *)
Definition readOnlyWorld : World :=
  {| os_Stat := os_Stat exampleWorld;
     os_ReadFile := os_ReadFile exampleWorld;
     os_Tree := os_Tree exampleWorld;
     os_Create := fun _ => false |}.

(** A world whose input directory is the current directory: [os.Lstat]
    names it ["."]. *)
Definition dotWorld : World :=
  {| os_Stat := fun p =>
       if String.eqb p "." || String.eqb p "out" then Some (dirOsInfo p)
       else if String.eqb p "./a.go"
       then Some (fileOsInfo "a.go" 50 "2024-01-01 00:00:00")
       else None;
     os_ReadFile := fun p => if String.eqb p "./a.go" then Some fifty else None;
     os_Tree := fun p =>
       if String.eqb p "."
       then EDir "." (Some [EFile "a.go" 50 "2024-01-01 00:00:00"])
       else EErr p;
     os_Create := fun p => String.eqb p "out/combined.txt" |}.

(** ** Examples for the runs *)

(** The outcome of a run that passed the checks and ingests
    sequentially. *)
Definition sequentialOutcome {L : PathLib} {O : OutLib} (w : World)
    (config : Config) (flags : Flags) (elapsed : Z)
    (excludeRegex includeRegex : option Regexp) : Outcome :=
  let filePaths := candidates w config excludeRegex includeRegex in
  let out := processFilesSequential w filePaths (InputDir config)
               (flagVerbose flags) (flagQuiet flags) (walked w config) in
  finish w config flags elapsed filePaths (fst out) (snd out).

(** A maximum size below the minimum size. *)
Definition crossedBounds : Config :=
  {| InputDir := "proj"; OutputFile := "out/combined.txt";
     Extensions := []; ExcludeHidden := true;
     MaxFileSize := 10; MinFileSize := 20;
     ExcludePattern := ""; IncludePattern := "";
     OutputFormat := "text"; Compress := false; Parallel := 1;
     Quiet := true; Verbose := false; DryRun := false |}.

(** The star as the only extension. *)
Definition starOnly : Config :=
  {| InputDir := "proj"; OutputFile := "out/combined.txt";
     Extensions := ["*"]; ExcludeHidden := true;
     MaxFileSize := 0; MinFileSize := 0;
     ExcludePattern := ""; IncludePattern := "";
     OutputFormat := "text"; Compress := false; Parallel := 1;
     Quiet := true; Verbose := false; DryRun := false |}.

(** ** [main], from the parsed flags to the resolved configuration *)

(** The values of the flags after [flag.Parse]; [argRest] holds the
    eight that [main] reads again later, and [excludeHiddenSet] is what
    [isFlagSet("exclude-hidden")] returns. *)
Record CommandLine := {
  argInput : string;
  argInputShort : string;
  argOutput : string;
  argOutputShort : string;
  argExt : string;
  argExcludeHidden : bool;
  argExcludeShort : bool;
  argMaxSize : Z;
  argMinSize : Z;
  argRest : Flags;
  excludeHiddenSet : bool
}.

(** The defaults the flags are declared with. *)
Definition defaultFlags : Flags :=
  {| flagExclude := ""; flagInclude := ""; flagFormat := "text";
     flagCompress := false; flagParallel := 1; flagQuiet := false;
     flagVerbose := false; flagDryRun := false |}.

Definition defaultCommandLine : CommandLine :=
  {| argInput := "."; argInputShort := "";
     argOutput := "combined.txt"; argOutputShort := "";
     argExt := "";
     argExcludeHidden := true; argExcludeShort := true;
     argMaxSize := 0; argMinSize := 0;
     argRest := defaultFlags;
     excludeHiddenSet := false |}.

(** "Handle short flag overrides" *)
Definition shortOverrides (a : CommandLine) : CommandLine :=
  {| argInput :=
       if negb (String.eqb (argInputShort a) "") then argInputShort a
       else argInput a;
     argInputShort := argInputShort a;
     argOutput :=
       if negb (String.eqb (argOutputShort a) "") then argOutputShort a
       else argOutput a;
     argOutputShort := argOutputShort a;
     argExt := argExt a;
     argExcludeHidden :=
       if negb (argExcludeShort a) then false else argExcludeHidden a;
     argExcludeShort := argExcludeShort a;
     argMaxSize := argMaxSize a;
     argMinSize := argMinSize a;
     argRest := argRest a;
     excludeHiddenSet := excludeHiddenSet a |}.

(** The configuration [main] validates: [loaded] is what [loadConfig]
    returned when [-config] names a file, and [a] the flags after the
    short overrides. *)
Definition resolveConfig (loaded : option Config) (a : CommandLine) : Config :=
  match loaded with
  | Some cfg =>
      {| InputDir :=
           if negb (String.eqb (argInput a) ".") then argInput a
           else InputDir cfg;
         OutputFile :=
           if negb (String.eqb (argOutput a) "combined.txt") then argOutput a
           else OutputFile cfg;
         Extensions :=
           if negb (String.eqb (argExt a) "") then splitComma (argExt a) ""
           else Extensions cfg;
         ExcludeHidden :=
           if excludeHiddenSet a then argExcludeHidden a
           else ExcludeHidden cfg;
         MaxFileSize := MaxFileSize cfg;
         MinFileSize := MinFileSize cfg;
         ExcludePattern :=
           if negb (String.eqb (flagExclude (argRest a)) "")
           then flagExclude (argRest a) else ExcludePattern cfg;
         IncludePattern :=
           if negb (String.eqb (flagInclude (argRest a)) "")
           then flagInclude (argRest a) else IncludePattern cfg;
         OutputFormat :=
           if negb (String.eqb (flagFormat (argRest a)) "text")
           then flagFormat (argRest a) else OutputFormat cfg;
         Compress :=
           if flagCompress (argRest a) then flagCompress (argRest a)
           else Compress cfg;
         Parallel :=
           if negb (flagParallel (argRest a) =? 1) then flagParallel (argRest a)
           else Parallel cfg;
         Quiet :=
           if flagQuiet (argRest a) then flagQuiet (argRest a) else Quiet cfg;
         Verbose :=
           if flagVerbose (argRest a) then flagVerbose (argRest a)
           else Verbose cfg;
         DryRun :=
           if flagDryRun (argRest a) then flagDryRun (argRest a)
           else DryRun cfg |}
  | None =>
      {| InputDir := argInput a;
         OutputFile := argOutput a;
         Extensions :=
           if negb (String.eqb (argExt a) "") then splitComma (argExt a) ""
           else [];
         ExcludeHidden := argExcludeHidden a;
         MaxFileSize := argMaxSize a;
         MinFileSize := argMinSize a;
         ExcludePattern := flagExclude (argRest a);
         IncludePattern := flagInclude (argRest a);
         OutputFormat := flagFormat (argRest a);
         Compress := flagCompress (argRest a);
         Parallel := flagParallel (argRest a);
         Quiet := flagQuiet (argRest a);
         Verbose := flagVerbose (argRest a);
         DryRun := flagDryRun (argRest a) |}
  end.

(** A run of [main] from the parsed flags, outside the interactive mode
    and with a configuration file, if any, that could be loaded. *)
Definition commandRun {L : PathLib} {O : OutLib} (w : World)
    (loaded : option Config) (a : CommandLine) (elapsed : Z) (o : Outcome)
    : Prop :=
  let a := shortOverrides a in
  mainRun w (resolveConfig loaded a) (argRest a) elapsed o.

(** A configuration file that sets everything other than the defaults
    of the flags. *)
Definition fileConfig : Config :=
  {| InputDir := "proj"; OutputFile := "out/combined.txt";
     Extensions := [".go"]; ExcludeHidden := false;
     MaxFileSize := 100; MinFileSize := 10;
     ExcludePattern := "vendor"; IncludePattern := "src";
     OutputFormat := "json"; Compress := true; Parallel := 4;
     Quiet := true; Verbose := true; DryRun := true |}.

(** The same file with the eight settings a run takes from the flags
    set differently. *)
Definition fileConfigOtherwise : Config :=
  {| InputDir := "proj"; OutputFile := "out/combined.txt";
     Extensions := [".go"]; ExcludeHidden := false;
     MaxFileSize := 100; MinFileSize := 10;
     ExcludePattern := "("; IncludePattern := "";
     OutputFormat := "xml"; Compress := false; Parallel := 1;
     Quiet := false; Verbose := false; DryRun := false |}.

(** [pecel -config f -eh=false -max-size 5 -min-size 1] *)
Definition sizeFlagsLine : CommandLine :=
  {| argInput := "."; argInputShort := "";
     argOutput := "combined.txt"; argOutputShort := "";
     argExt := "";
     argExcludeHidden := true; argExcludeShort := false;
     argMaxSize := 5; argMinSize := 1;
     argRest := defaultFlags;
     excludeHiddenSet := false |}.

(** ** The prompts of the interactive mode

    A prompt prints its question and reads a line; the model takes the
    line, as [ReadString] returned it, as an argument. *)

(** The value of a string of decimal digits, read after [acc]. *)
Fixpoint digitsValue (s : string) (acc : Z) : option Z :=
  match s with
  | EmptyString => Some acc
  | String c r =>
      let b := byte_of c in
      if inRange 48 57 b then digitsValue r (acc * 10 + (b - 48)) else None
  end.

(** [strconv.Atoi]: an optional sign and at least one digit, within the
    range of [int]; [None] is its error. *)
Definition Atoi (s : string) : option Z :=
  let signed :=
    match s with
    | String c _ => (byte_of c =? 43) || (byte_of c =? 45)
    | EmptyString => false
    end in
  let neg :=
    match s with
    | String c _ => byte_of c =? 45
    | EmptyString => false
    end in
  let body := if signed then dropBytes 1 s else s in
  if String.eqb body "" then None
  else
    match digitsValue body 0 with
    | None => None
    | Some v =>
        let n := if neg then - v else v in
        if (- 2 ^ 63 <=? n) && (n <? 2 ^ 63) then Some n else None
    end.

Section Prompts.

Context {L : PathLib}.

(** The loop of [promptUserWithValidation] over the lines it reads in
    turn: the value returned and the lines left, or [None] while every
    line so far was rejected. *)
Fixpoint promptUserWithValidation (lines : list string) (defaultValue : string)
    (validator : option (string -> bool)) : option (string * list string) :=
  match lines with
  | [] => None
  | line :: rest =>
      let input := TrimSpace line in
      let input := if String.eqb input "" then defaultValue else input in
      match validator with
      | Some valid =>
          if negb (valid input)
          then promptUserWithValidation rest defaultValue validator
          else Some (input, rest)
      | None => Some (input, rest)
      end
  end.

Definition promptUser (lines : list string) (defaultValue : string)
    : option (string * list string) :=
  promptUserWithValidation lines defaultValue None.

(** The value a line gives before validation. *)
Definition answer (line defaultValue : string) : string :=
  if String.eqb (TrimSpace line) "" then defaultValue else TrimSpace line.

(** [promptSelect] on the line read; [None] is the panic of an index
    out of range. *)
Definition promptSelect (line : string) (options : list string)
    (defaultValue : string) : option string :=
  let input := TrimSpace line in
  if String.eqb input "" then Some defaultValue
  else
    let byName :=
      match find (fun option => EqualFold option input) options with
      | Some option => Some option
      | None => Some defaultValue
      end in
    match Atoi input with
    | Some num =>
        if (1 <=? num) && (num <=? Z.of_nat (List.length options))
        then nth_error options (Z.to_nat (num - 1))
        else byName
    | None => byName
    end.

End Prompts.

(** The formats the interactive mode offers. *)
Definition formats : list string := ["text"; "json"; "xml"; "markdown"].

(** ** Counting the steps of [processFilesParallel] *)

(** A run of a given number of steps. *)
Inductive parStepsN {L : PathLib} (w : World) (baseDir : string) (cap : nat)
    : nat -> ParState -> ParState -> Prop :=
| ParZero s : parStepsN w baseDir cap O s s
| ParSucc n s1 s2 s3 :
    parStepsN w baseDir cap n s1 s2 -> parStep w baseDir cap s2 s3 ->
    parStepsN w baseDir cap (S n) s1 s3.

(** The paths of a list whose ingestion fails, in the order of the
    list. *)
Definition failed {L : PathLib} (w : World) (baseDir : string)
    (paths : list string) : list string :=
  filter (fun p => negb (ingestOk w baseDir p)) paths.

(** ** The artifact of a run without records

    Header and footer only: for the streamed formats the header followed
    by the footer, for JSON the document whose ["files"] is [null], for
    XML the document of an empty record list. *)
Definition emptyDocument {O : OutLib} (stats : Stats) : JSON :=
  JObj [("files", JNull);
        ("metadata",
         JObj [("directories", JNum (itoa (Directories stats)));
               ("duration_secs", JNum (jsonSeconds (Duration stats)));
               ("files_count", JNum (itoa (FilesProcessed stats)));
               ("generated", JStr nowRFC3339);
               ("total_size", JNum (itoa (TotalBytes stats)));
               ("version", JStr version)])].

Definition emptyArtifact {O : OutLib} (format : string) (stats : Stats)
    : string :=
  let fmt := strings_ToLower format in
  if String.eqb fmt "json" then indented 0 (emptyDocument stats) ++ nl
  else if String.eqb fmt "xml"
  then xmlHeader ++ xmlMarshalIndent nowRFC3339 stats []
  else if String.eqb fmt "markdown" || String.eqb fmt "md"
  then mdHeader stats ++ mdFooter stats
  else textHeader stats ++ textFooter stats (wrap64 (len (textHeader stats))).

Definition emptyArtifactSize {O : OutLib} (format : string) (stats : Stats)
    : Z :=
  let fmt := strings_ToLower format in
  if String.eqb fmt "json" then len (compact (emptyDocument stats))
  else wrap64 (len (emptyArtifact format stats)).

(** The empty string as the only extension. *)
Definition emptyEntryOnly : Config :=
  {| InputDir := "proj"; OutputFile := "out/combined.txt";
     Extensions := [""]; ExcludeHidden := true;
     MaxFileSize := 0; MinFileSize := 0;
     ExcludePattern := ""; IncludePattern := "";
     OutputFormat := "text"; Compress := false; Parallel := 1;
     Quiet := true; Verbose := false; DryRun := false |}.

(** ** A tree without the entries that cannot be accessed *)

(** An entry whose [Lstat] fails, or a directory that cannot be read. *)
Definition inaccessible (e : Entry) : bool :=
  match e with
  | EErr _ => true
  | EDir _ None => true
  | _ => false
  end.

(** The tree with such entries taken out of every directory listing, at
    every depth. *)
Fixpoint accessible (e : Entry) : Entry :=
  match e with
  | EDir name (Some entries) =>
      EDir name
        (Some ((fix below (l : list Entry) : list Entry :=
                  match l with
                  | [] => []
                  | c :: rest =>
                      if inaccessible c then below rest
                      else accessible c :: below rest
                  end) entries))
  | _ => e
  end.

(** * Properties *)

(** ** Bytes *)

Lemma byte_of_range (c : ascii) : 0 <= byte_of c < 256.
Proof.
  unfold byte_of. pose proof (N_ascii_bounded c). lia.
Qed.

Lemma byte_of_inj (a b : ascii) : byte_of a = byte_of b -> a = b.
Proof.
  unfold byte_of. intros H.
  rewrite <- (ascii_N_embedding a), <- (ascii_N_embedding b).
  f_equal. lia.
Qed.

Lemma byte_of_ascii_of (z : Z) :
  0 <= z < 256 -> byte_of (ascii_of_N (Z.to_N z)) = z.
Proof.
  intros H. unfold byte_of. rewrite N_ascii_embedding; lia.
Qed.

Lemma lor_below_128 (a b : Z) :
  0 <= a -> 0 <= b -> (Z.lor a b < 128 <-> a < 128 /\ b < 128).
Proof.
  intros Ha Hb.
  assert (Hl : 0 <= Z.lor a b) by (apply Z.lor_nonneg; auto).
  assert (bound : forall x, 0 <= x -> (x < 128 <-> x = 0 \/ Z.log2 x < 7)).
  { intros x Hx. destruct (Z.eq_dec x 0) as [->|Hn]; [simpl; lia|].
    pose proof (Z.log2_lt_pow2 x 7 ltac:(lia)) as E.
    change (2 ^ 7) with 128 in E. lia. }
  rewrite (bound _ Hl), (bound _ Ha), (bound _ Hb).
  rewrite Z.log2_lor by assumption.
  rewrite Z.lor_eq_0_iff.
  assert (Z.log2 a = 0 \/ 0 < Z.log2 a) by (pose proof (Z.log2_nonneg a); lia).
  assert (Z.log2 b = 0 \/ 0 < Z.log2 b) by (pose proof (Z.log2_nonneg b); lia).
  destruct (Z.eq_dec a 0) as [->|]; destruct (Z.eq_dec b 0) as [->|];
    simpl Z.log2; lia.
Qed.

Lemma ascii_eqb_byte (a b : ascii) :
  Ascii.eqb a b = (byte_of a =? byte_of b).
Proof.
  destruct (Ascii.eqb_spec a b) as [->|N].
  - symmetry. apply Z.eqb_refl.
  - symmetry. apply Z.eqb_neq. intros E. apply N. now apply byte_of_inj.
Qed.

Lemma to_lower_byte (c : ascii) :
  byte_of (to_lower c) =
  if (65 <=? byte_of c) && (byte_of c <=? 90) then byte_of c + 32 else byte_of c.
Proof.
  unfold to_lower, is_upper.
  destruct ((65 <=? byte_of c) && (byte_of c <=? 90)) eqn:E; [|reflexivity].
  apply byte_of_ascii_of. lia.
Qed.

Section FilterFacts.

Context {L : PathLib}.

Lemma extFound_existsb (ext : string) (allowed : list string) :
  extFound ext allowed = existsb (EqualFold ext) allowed.
Proof.
  induction allowed as [|a r IH]; simpl; [reflexivity|].
  rewrite IH. now destruct (EqualFold ext a).
Qed.

(** On ASCII strings [EqualFold] is equality of the lower-cased strings. *)
Lemma EqualFold_ascii (s t : string) :
  is_ascii_string s -> is_ascii_string t ->
  EqualFold s t = String.eqb (ToLower s) (ToLower t).
Proof.
  revert t. induction s as [|sr s IH]; intros [|tr t] Hs Ht; try reflexivity.
  inversion Hs as [|? ? Hsr Hs']; inversion Ht as [|? ? Htr Ht']; subst.
  cbn [EqualFold ToLower String.eqb].
  pose proof (byte_of_range sr) as Rs. pose proof (byte_of_range tr) as Rt.
  assert (Hlor : Z.lor (byte_of sr) (byte_of tr) < 128)
    by (apply lor_below_128; lia).
  replace (128 <=? Z.lor (byte_of sr) (byte_of tr)) with false
    by (symmetry; apply Z.leb_gt; exact Hlor).
  rewrite ascii_eqb_byte, !to_lower_byte, (IH t Hs' Ht').
  destruct (byte_of tr =? byte_of sr) eqn:E1.
  - apply Z.eqb_eq in E1. rewrite E1, Z.eqb_refl. reflexivity.
  - apply Z.eqb_neq in E1.
    cbv zeta.
    destruct ((65 <=? byte_of sr) && (byte_of sr <=? 90)) eqn:Us;
    destruct ((65 <=? byte_of tr) && (byte_of tr <=? 90)) eqn:Ut;
    destruct ((65 <=? Z.min (byte_of sr) (byte_of tr))
              && (Z.min (byte_of sr) (byte_of tr) <=? 90)
              && (Z.max (byte_of sr) (byte_of tr)
                  =? Z.min (byte_of sr) (byte_of tr) + 32)) eqn:C;
    match goal with
    | |- ?x = (if ?a =? ?b then _ else _) =>
        destruct (a =? b) eqn:E2
    end; try reflexivity; exfalso; lia.
Qed.

End FilterFacts.

(** ** The accept predicate *)

Section FilterClaims.

Context {L : PathLib}.

Lemma firstFailure_first path info config excludeRegex includeRegex r :
  firstFailure path info config excludeRegex includeRegex = Some r ->
  rule_rejects path info config excludeRegex includeRegex r = true
  /\ forall r', (ruleIndex r' < ruleIndex r)%nat ->
       rule_rejects path info config excludeRegex includeRegex r' = false.
Proof.
  unfold firstFailure, rule_order. cbn [find].
  repeat match goal with
  | |- context [if rule_rejects ?p ?i ?c ?e ?n ?x then _ else _] =>
      destruct (rule_rejects p i c e n x) eqn:?
  end; intros E; inversion E; subst; (split; [assumption|]);
  intros [] Hlt; cbn [ruleIndex] in Hlt; try lia; assumption.
Qed.

Lemma firstFailure_none path info config excludeRegex includeRegex :
  firstFailure path info config excludeRegex includeRegex = None ->
  forall r, rule_rejects path info config excludeRegex includeRegex r = false.
Proof.
  unfold firstFailure, rule_order. cbn [find].
  repeat match goal with
  | |- context [if rule_rejects ?p ?i ?c ?e ?n ?x then _ else _] =>
      destruct (rule_rejects p i c e n x) eqn:?
  end; intros E; try discriminate; intros []; assumption.
Qed.

Lemma shouldProcessFile_firstFailure path info config excludeRegex includeRegex :
  shouldProcessFile path info config excludeRegex includeRegex
  = match firstFailure path info config excludeRegex includeRegex with
    | None => true
    | Some _ => false
    end.
Proof.
  unfold shouldProcessFile, firstFailure, rule_order. cbn [find rule_rejects].
  rewrite extFound_existsb.
  destruct (ExcludeHidden config && isHidden (Name info)); [reflexivity|].
  destruct ((0 <? MaxFileSize config) && (MaxFileSize config <? FSize info));
    [reflexivity|].
  destruct ((0 <? MinFileSize config) && (FSize info <? MinFileSize config));
    [reflexivity|].
  destruct (Extensions config) as [|e es] eqn:Ex.
  - cbn [List.length Nat.eqb negb andb].
    destruct excludeRegex as [re|]; [destruct (MatchString re _)|];
      try reflexivity;
      (destruct includeRegex as [ri|]; [destruct (MatchString ri _)|]);
      reflexivity.
  - cbn [List.length Nat.eqb negb andb].
    destruct (negb (existsb (EqualFold (Ext path)) (e :: es))); [reflexivity|].
    destruct excludeRegex as [re|]; [destruct (MatchString re _)|];
      try reflexivity;
      (destruct includeRegex as [ri|]; [destruct (MatchString ri _)|]);
      reflexivity.
Qed.

(** C2: [shouldProcessFile] rejects exactly when one of the six rules
    rejects, the rules standing in the order hidden, maximal size,
    minimal size, extension, exclude pattern, include pattern, and the
    verdict being that of the first rule that rejects.  A leaf name that
    starts with a dot, or with a tilde and is longer than one byte, is
    rejected under [ExcludeHidden]; a size above a positive [MaxFileSize]
    or below a positive [MinFileSize] is rejected; the minimal-size rule
    lets a file of zero bytes pass when [MinFileSize] is 0 and rejects it
    when it is 1; extensions are compared without regard to the case of
    ASCII letters. *)
Theorem shouldProcessFile_rules path info config excludeRegex includeRegex :
  shouldProcessFile path info config excludeRegex includeRegex
  = match firstFailure path info config excludeRegex includeRegex with
    | None => true
    | Some _ => false
    end
  /\ (forall r,
        firstFailure path info config excludeRegex includeRegex = Some r ->
        rule_rejects path info config excludeRegex includeRegex r = true
        /\ forall r', (ruleIndex r' < ruleIndex r)%nat ->
             rule_rejects path info config excludeRegex includeRegex r' = false)
  /\ (firstFailure path info config excludeRegex includeRegex = None ->
      forall r, rule_rejects path info config excludeRegex includeRegex r = false)
  /\ (ExcludeHidden config = true ->
      HasPrefix (Name info) "." = true
      \/ (HasPrefix (Name info) "~" = true /\ 1 < len (Name info)) ->
      shouldProcessFile path info config excludeRegex includeRegex = false)
  /\ (0 < MaxFileSize config -> MaxFileSize config < FSize info ->
      shouldProcessFile path info config excludeRegex includeRegex = false)
  /\ (0 < MinFileSize config -> FSize info < MinFileSize config ->
      shouldProcessFile path info config excludeRegex includeRegex = false)
  /\ (FSize info = 0 -> MinFileSize config = 0 ->
      rule_rejects path info config excludeRegex includeRegex RMinSize = false)
  /\ (FSize info = 0 -> MinFileSize config = 1 ->
      shouldProcessFile path info config excludeRegex includeRegex = false)
  /\ (forall allowedExt,
        is_ascii_string (Ext path) -> is_ascii_string allowedExt ->
        EqualFold (Ext path) allowedExt
        = String.eqb (ToLower (Ext path)) (ToLower allowedExt)).
Proof.
  assert (rejected : forall r,
    rule_rejects path info config excludeRegex includeRegex r = true ->
    shouldProcessFile path info config excludeRegex includeRegex = false).
  { intros r Hr. rewrite shouldProcessFile_firstFailure.
    destruct (firstFailure path info config excludeRegex includeRegex) eqn:F;
      [reflexivity|].
    rewrite (firstFailure_none _ _ _ _ _ F r) in Hr. discriminate. }
  split; [apply shouldProcessFile_firstFailure|].
  split; [intros r; apply firstFailure_first|].
  split; [apply firstFailure_none|].
  split.
  { intros Hh Hn. apply (rejected RHidden). cbn [rule_rejects].
    rewrite Hh. unfold isHidden. cbn [andb].
    destruct Hn as [-> | [-> Hlen]]; [reflexivity|].
    apply Z.ltb_lt in Hlen. rewrite Hlen. apply orb_true_r. }
  split.
  { intros H0 H1. apply (rejected RMaxSize). cbn [rule_rejects].
    apply andb_true_intro; split; apply Z.ltb_lt; assumption. }
  split.
  { intros H0 H1. apply (rejected RMinSize). cbn [rule_rejects].
    apply andb_true_intro; split; apply Z.ltb_lt; assumption. }
  split.
  { intros Hs Hm. cbn [rule_rejects]. rewrite Hm. reflexivity. }
  split.
  { intros Hs Hm. apply (rejected RMinSize). cbn [rule_rejects].
    rewrite Hs, Hm. reflexivity. }
  intros allowedExt. apply EqualFold_ascii.
Qed.

End FilterClaims.

(** A zero-byte file [proj/EMPTY.GO] under the configuration [goOnly]:
    accepted, its extension matching [.go] whatever the case. *)
Lemma shouldProcessFile_rules_witness :
  shouldProcessFile (L := examplePaths) "proj/EMPTY.GO"
                    (fileOsInfo "EMPTY.GO" 0 "") goOnly None None = true
  /\ EqualFold (L := examplePaths) (Ext "proj/EMPTY.GO") ".go" = true.
Proof.
  pose proof (shouldProcessFile_rules (L := examplePaths) "proj/EMPTY.GO"
                (fileOsInfo "EMPTY.GO" 0 "") goOnly None None)
    as (Hdec & _ & _ & _ & _ & _ & _ & _ & Hfold).
  split.
  - rewrite Hdec. reflexivity.
  - rewrite Hfold.
    + reflexivity.
    + repeat constructor.
    + repeat constructor.
Defined.

(** ** The walk *)

Lemma wrap64_id (z : Z) : int64_range z -> wrap64 z = z.
Proof.
  unfold int64_range, wrap64. intros H.
  rewrite Z.mod_small; lia.
Qed.

Lemma wrap64_range (z : Z) : int64_range (wrap64 z).
Proof.
  unfold int64_range, wrap64.
  pose proof (Z.mod_pos_bound (z + 2 ^ 63) (2 ^ 64) ltac:(lia)). lia.
Qed.

Lemma wrap64_add_l (a b : Z) : wrap64 (wrap64 a + b) = wrap64 (a + b).
Proof.
  unfold wrap64.
  replace ((a + 2 ^ 63) mod 2 ^ 64 - 2 ^ 63 + b + 2 ^ 63)
    with ((a + 2 ^ 63) mod 2 ^ 64 + b) by lia.
  rewrite Zplus_mod_idemp_l. f_equal. f_equal. lia.
Qed.

Lemma addDirectories_inc (st : Stats) (n : Z) :
  incDirectories (addDirectories st n) = addDirectories st (n + 1).
Proof.
  unfold incDirectories, addDirectories, add64. cbn.
  rewrite wrap64_add_l. do 2 f_equal. lia.
Qed.

Lemma addDirectories_add (st : Stats) (n m : Z) :
  addDirectories (addDirectories st n) m = addDirectories st (n + m).
Proof.
  unfold addDirectories. cbn.
  rewrite wrap64_add_l. do 2 f_equal. lia.
Qed.

Lemma addDirectories_0 (st : Stats) :
  int64_range (Directories st) -> addDirectories st 0 = st.
Proof.
  intros H. unfold addDirectories. rewrite Z.add_0_r, wrap64_id by assumption.
  now destruct st.
Qed.

(** Induction on entries that reaches the entries of a directory. *)
Lemma Entry_nested_ind (P : Entry -> Prop) :
  (forall name size mtime, P (EFile name size mtime)) ->
  (forall name, P (EDir name None)) ->
  (forall name entries, Forall P entries -> P (EDir name (Some entries))) ->
  (forall name, P (EErr name)) ->
  forall e, P e.
Proof.
  intros HF HN HD HE.
  fix IH 1. intros [name size mtime | name [entries|] | name].
  - apply HF.
  - apply HD. induction entries as [|c rest IHl]; constructor.
    + apply IH.
    + apply IHl.
  - apply HN.
  - apply HE.
Qed.

Section WalkFacts.

Context {L : PathLib}.

(** A callback that does not return [nil] on a directory ends the walk
    of that directory there: [walk] returns what the callback returned
    and calls it on nothing below. *)
Lemma walk_no_descent {S : Type} (fn : WalkFunc S) path name entries (s : S) :
  snd (fn path (Some (dirOsInfo name))
          (match entries with None => true | Some _ => false end) s) <> WNil ->
  walk fn path (EDir name entries) s
  = fn path (Some (dirOsInfo name))
       (match entries with None => true | Some _ => false end) s.
Proof.
  intros H. cbn [walk].
  destruct (fn path (Some (dirOsInfo name))
               (match entries with None => true | Some _ => false end) s)
    as [s1 err1] eqn:E.
  cbn [snd] in H.
  destruct entries; [|reflexivity].
  destruct err1; [congruence| | |]; reflexivity.
Qed.

Variable config : Config.
Variables excludeRegex includeRegex : option Regexp.

Let fn := walkCallback config excludeRegex includeRegex.

Lemma walk_callback (e : Entry) :
  forall path stats paths,
    int64_range (Directories stats) ->
    walk fn path e (stats, paths)
    = ((addDirectories stats (dirsSeen config e),
        (paths ++ filesFound config excludeRegex includeRegex path e)%list),
       walkVerdict config e).
Proof.
  induction e as [name size mtime | name | name entries IH | name]
    using Entry_nested_ind; intros path stats paths Hr.
  - cbn [walk dirsSeen filesFound walkVerdict].
    unfold fn, walkCallback. cbn [fileOsInfo IsDir fst snd].
    rewrite addDirectories_0 by assumption.
    change {| Name := name; FSize := size; ModTime := mtime; IsDir := false |}
      with (fileOsInfo name size mtime).
    destruct (shouldProcessFile path (fileOsInfo name size mtime) config
                excludeRegex includeRegex); cbn [negb].
    + reflexivity.
    + now rewrite app_nil_r.
  - cbn [walk dirsSeen filesFound walkVerdict].
    unfold fn, walkCallback.
    rewrite addDirectories_0 by assumption. now rewrite app_nil_r.
  - cbn [walk dirsSeen filesFound walkVerdict].
    unfold fn at 1. unfold walkCallback at 1.
    cbn [dirOsInfo IsDir Name fst snd]. fold (pruned config name).
    assert (Hinc : incDirectories stats = addDirectories stats 1)
      by reflexivity.
    destruct (pruned config name) eqn:Hp.
    + cbn [isNil]. rewrite Hinc. now rewrite app_nil_r.
    + cbn [isNil]. rewrite Hinc.
      assert (Hr1 : int64_range (Directories (addDirectories stats 1)))
        by apply wrap64_range.
      rewrite <- (addDirectories_add stats 1).
      generalize dependent (addDirectories stats 1). intros st1 _ Hr1.
      revert paths st1 Hr1.
      induction IH as [|c rest Hc _ IHrest]; intros paths st1 Hr1.
      * rewrite addDirectories_0 by assumption. now rewrite app_nil_r.
      * assert (Hstep :
          walk fn (Join path (entryName c)) c (st1, paths)
          = ((addDirectories st1 (dirsSeen config c),
              (paths ++ filesFound config excludeRegex includeRegex
                           (Join path (entryName c)) c)%list),
             walkVerdict config c)) by (apply Hc; assumption).
        destruct c as [cn cs cm | cn ce | cn].
        -- rewrite Hstep. cbn [walkVerdict isNil negb andb].
           rewrite IHrest by apply wrap64_range.
           rewrite addDirectories_add, <- app_assoc. reflexivity.
        -- rewrite Hstep.
           assert (Hv : negb (isNil (walkVerdict config (EDir cn ce)))
                        && (negb (entryIsDir (EDir cn ce))
                            || negb (isSkipDir (walkVerdict config (EDir cn ce))))
                        = false).
           { cbn [walkVerdict entryIsDir negb orb].
             destruct ce; [destruct (pruned config cn)|]; reflexivity. }
           rewrite Hv.
           rewrite IHrest by apply wrap64_range.
           rewrite addDirectories_add, <- app_assoc. reflexivity.
        -- cbn [walk] in Hstep. rewrite Hstep.
           cbn [walkVerdict isNil negb andb].
           rewrite IHrest by apply wrap64_range.
           rewrite addDirectories_add, <- app_assoc. reflexivity.
  - cbn [walk dirsSeen filesFound walkVerdict].
    unfold fn, walkCallback.
    rewrite addDirectories_0 by assumption. now rewrite app_nil_r.
Qed.

Lemma discover_found (root : Entry) :
  discover config excludeRegex includeRegex root zeroStats
  = ((addDirectories zeroStats (dirsSeen config root),
      filesFound config excludeRegex includeRegex (InputDir config) root),
     WNil).
Proof.
  unfold discover, Walk. fold fn.
  rewrite walk_callback by (unfold int64_range; cbn; lia).
  cbn [app].
  destruct root as [? ? ? | name [entries|] | ?]; cbn [walkVerdict];
    try reflexivity.
  destruct (pruned config name); reflexivity.
Qed.

Lemma walk_pruned path name entries st :
  pruned config name = true ->
  walk fn path (EDir name entries) st
  = fn path (Some (dirOsInfo name))
       (match entries with None => true | Some _ => false end) st
  /\ snd (fst (walk fn path (EDir name entries) st)) = snd st
  /\ filesFound config excludeRegex includeRegex path (EDir name entries) = [].
Proof.
  intros Hp.
  assert (Hfn : fn path (Some (dirOsInfo name))
                   (match entries with None => true | Some _ => false end) st
                = match entries with
                  | None => (st, WNil)
                  | Some _ => ((incDirectories (fst st), snd st), WSkipDir)
                  end).
  { unfold fn, walkCallback. destruct entries; [|reflexivity].
    cbn [dirOsInfo IsDir Name]. fold (pruned config name). now rewrite Hp. }
  assert (Hw : walk fn path (EDir name entries) st
               = fn path (Some (dirOsInfo name))
                    (match entries with None => true | Some _ => false end) st).
  { destruct entries as [l|].
    - apply walk_no_descent. rewrite Hfn. discriminate.
    - cbn [walk]. now destruct (fn path (Some (dirOsInfo name)) true st). }
  split; [exact Hw|]. split.
  - rewrite Hw, Hfn. now destruct entries.
  - cbn [filesFound]. destruct entries; [now rewrite Hp | reflexivity].
Qed.

End WalkFacts.

Lemma chars_app (a b : string) : chars (a ++ b) = (chars a ++ chars b)%list.
Proof. induction a as [|c a IH]; cbn; [reflexivity | now rewrite IH]. Qed.

Lemma Ext_below (root : string) :
  Ext (root ++ "/a.go") = ".go" /\ Ext (root ++ "/c.txt") = ".txt".
Proof.
  unfold Ext. rewrite !chars_app, !rev_app_distr. split; reflexivity.
Qed.

(** The candidates of the example tree below a root that is not hidden. *)
Lemma example_candidates (root rootName : string) :
  isHidden rootName = false ->
  filesFound (L := examplePaths) (goOnlyAt root) None None root
             (exampleTreeNamed rootName)
  = [root ++ "/a.go"].
Proof.
  intros Hroot. destruct (Ext_below root) as [Ea Ec].
  unfold exampleTreeNamed, hiddenDir. cbn [filesFound].
  unfold pruned at 1. cbn [goOnlyAt ExcludeHidden andb]. rewrite Hroot.
  cbn [entryName examplePaths Join filesFound].
  unfold pruned. cbn [goOnlyAt ExcludeHidden andb].
  change (isHidden ".hidden") with true. cbv iota.
  unfold shouldProcessFile.
  cbn [goOnlyAt ExcludeHidden MaxFileSize MinFileSize Extensions InputDir
       fileOsInfo Name FSize andb].
  change (isHidden "a.go") with false. change (isHidden "c.txt") with false.
  change ("/" ++ "a.go") with "/a.go". change ("/" ++ "c.txt") with "/c.txt".
  rewrite Ea, Ec. reflexivity.
Qed.

(** C6: with [ExcludeHidden] set, the walk of a directory whose leaf
    name is hidden is the one call of the callback on that directory: the
    callback is called on nothing below it, the list of candidate paths
    is left as it was, and no file below it is among the files found.
    The candidates are the files that pass the filter outside pruned
    directories; for [a.go], [.hidden/b.go] and [c.txt] below a root
    whose own name is not hidden, with the extension [.go], the only
    candidate, and the only record ingested, is [a.go]. *)
Theorem hidden_directory_pruned :
  (forall (L : PathLib) config excludeRegex includeRegex path name entries st,
     ExcludeHidden config = true -> isHidden name = true ->
     walk (walkCallback config excludeRegex includeRegex) path
          (EDir name entries) st
     = walkCallback config excludeRegex includeRegex path
         (Some (dirOsInfo name))
         (match entries with None => true | Some _ => false end) st
     /\ snd (fst (walk (walkCallback config excludeRegex includeRegex) path
                       (EDir name entries) st)) = snd st
     /\ filesFound config excludeRegex includeRegex path (EDir name entries)
        = [])
  /\ (forall (L : PathLib) config excludeRegex includeRegex root,
        snd (fst (discover config excludeRegex includeRegex root zeroStats))
        = filesFound config excludeRegex includeRegex (InputDir config) root)
  /\ (forall root rootName,
        isHidden rootName = false ->
        snd (fst (discover (L := examplePaths) (goOnlyAt root) None None
                           (exampleTreeNamed rootName) zeroStats))
        = [root ++ "/a.go"])
  /\ map RelativePath
         (fst (processFilesSequential (L := examplePaths) exampleWorld
                 ["proj/a.go"] "proj" false true zeroStats)) = ["a.go"].
Proof.
  split; [|split; [|split]].
  - intros L config excludeRegex includeRegex path name entries st Hh Hn.
    apply walk_pruned. unfold pruned. now rewrite Hh, Hn.
  - intros. now rewrite discover_found.
  - intros root rootName Hroot. rewrite discover_found. cbn [fst snd].
    now apply example_candidates.
  - reflexivity.
Qed.

(** C10: with [ExcludeHidden] set, the walk of a hidden directory that
    could be read adds one to [Directories] and returns [SkipDir], its
    entries contributing nothing; over a whole walk [Directories] is the
    number of directories read, the pruned ones included. *)
Theorem hidden_directory_counted :
  (forall (L : PathLib) config excludeRegex includeRegex path name entries
          stats paths,
     ExcludeHidden config = true -> isHidden name = true ->
     walk (walkCallback config excludeRegex includeRegex) path
          (EDir name (Some entries)) (stats, paths)
     = ((incDirectories stats, paths), WSkipDir)
     /\ Directories (incDirectories stats) = add64 (Directories stats) 1
     /\ dirsSeen config (EDir name (Some entries)) = 1)
  /\ (forall (L : PathLib) config excludeRegex includeRegex root,
        Directories
          (fst (fst (discover config excludeRegex includeRegex root zeroStats)))
        = wrap64 (dirsSeen config root))
  /\ Directories
       (fst (fst (discover (L := examplePaths) goOnly None None exampleTree
                           zeroStats))) = 2.
Proof.
  split; [|split].
  - intros L config excludeRegex includeRegex path name entries stats paths
           Hh Hn.
    assert (Hp : pruned config name = true)
      by (unfold pruned; now rewrite Hh, Hn).
    destruct (walk_pruned config excludeRegex includeRegex path name
                (Some entries) (stats, paths) Hp) as (Hw & _ & _).
    split; [|split].
    + rewrite Hw. unfold walkCallback.
      cbn [dirOsInfo IsDir Name fst snd]. fold (pruned config name).
      now rewrite Hp.
    + reflexivity.
    + cbn [dirsSeen]. now rewrite Hp.
  - intros. rewrite discover_found. reflexivity.
  - reflexivity.
Qed.

(** ** Ingestion *)

Section IngestFacts.

Context {L : PathLib}.
Variable w : World.

Lemma sequentialLoop_ingested paths baseDir :
  forall fileInfos stats,
    sequentialLoop w paths baseDir fileInfos stats
    = ((fileInfos ++ ingested w paths baseDir)%list,
       countAll (ingested w paths baseDir) stats).
Proof.
  induction paths as [|p rest IH]; intros fileInfos stats; cbn.
  - now rewrite app_nil_r.
  - destruct (processSingleFile w p baseDir) as [info [e|]].
    + apply IH.
    + rewrite IH, <- app_assoc. reflexivity.
Qed.

Lemma collectResults_countAll results :
  forall fileInfos stats,
    collectResults results fileInfos stats
    = ((fileInfos ++ results)%list, countAll results stats).
Proof.
  induction results as [|info rest IH]; intros fileInfos stats; cbn.
  - now rewrite app_nil_r.
  - rewrite IH, <- app_assoc. reflexivity.
Qed.

Lemma ingested_app l1 l2 baseDir :
  ingested w (l1 ++ l2) baseDir
  = (ingested w l1 baseDir ++ ingested w l2 baseDir)%list.
Proof.
  induction l1 as [|p r IH]; cbn; [reflexivity|].
  destruct (processSingleFile w p baseDir) as [info [e|]]; cbn; now rewrite IH.
Qed.

Lemma ingested_Permutation l1 l2 baseDir :
  Permutation l1 l2 ->
  Permutation (ingested w l1 baseDir) (ingested w l2 baseDir).
Proof.
  induction 1 as [| x l l' _ IH | x y l | l l' l'' _ IH1 _ IH2]; cbn.
  - constructor.
  - destruct (processSingleFile w x baseDir) as [info [e|]]; auto.
  - destruct (processSingleFile w x baseDir) as [ix [ex|]];
    destruct (processSingleFile w y baseDir) as [iy [ey|]];
    try apply Permutation_refl. apply perm_swap.
  - eapply Permutation_trans; eassumption.
Qed.

Lemma processSingleFile_Path p baseDir :
  Path (fst (processSingleFile w p baseDir)) = p.
Proof.
  unfold processSingleFile.
  destruct (os_Stat w p); [destruct (os_ReadFile w p)|]; reflexivity.
Qed.

Lemma ingested_paths paths baseDir :
  map Path (ingested w paths baseDir) = filter (ingestOk w baseDir) paths.
Proof.
  induction paths as [|p rest IH]; cbn; [reflexivity|].
  unfold ingestOk at 1.
  pose proof (processSingleFile_Path p baseDir) as HP.
  destruct (processSingleFile w p baseDir) as [info [e|]]; cbn in *.
  - exact IH.
  - now rewrite HP, IH.
Qed.

Lemma countAll_bump infos :
  forall st n b,
    countAll infos (bump st n b)
    = bump st (n + Z.of_nat (List.length infos))
           (b + fold_right (fun i acc => Size i + acc) 0 infos).
Proof.
  induction infos as [|i r IH]; intros st n b; cbn [countAll].
  - cbn [List.length fold_right Z.of_nat]. now rewrite !Z.add_0_r.
  - assert (E : countFile i (bump st n b) = bump st (n + 1) (b + Size i)).
    { unfold countFile, bump, add64.
      cbn [FilesProcessed TotalBytes Directories Duration OutputSize].
      rewrite !wrap64_add_l. f_equal; f_equal; lia. }
    rewrite E, IH. cbn [List.length fold_right].
    f_equal; lia.
Qed.

Lemma countAll_Permutation l1 l2 st :
  Permutation l1 l2 -> countAll l1 st = countAll l2 st.
Proof.
  intros HP.
  assert (Hsum : fold_right (fun i acc => Size i + acc) 0 l1
                 = fold_right (fun i acc => Size i + acc) 0 l2).
  { induction HP; cbn [fold_right]; lia. }
  pose proof (Permutation_length HP) as Hlen.
  destruct l1 as [|a r1], l2 as [|b r2]; try discriminate; [reflexivity|].
  cbn [countAll].
  assert (E : forall i, countFile i st = bump st 1 (Size i)) by reflexivity.
  rewrite !E, !countAll_bump. cbn in Hsum, Hlen.
  f_equal; lia.
Qed.

End IngestFacts.

(** ** The workers *)

Lemma setWorker_length ws i x :
  List.length (setWorker ws i x) = List.length ws.
Proof.
  revert i. induction ws as [|y r IH]; intros [|j]; cbn; auto.
Qed.

Lemma held_set_holding ws i p :
  nth_error ws i = Some Idle ->
  Permutation (held (setWorker ws i (Holding p))) (p :: held ws).
Proof.
  revert i. induction ws as [|y r IH]; intros [|j] H; cbn in *; try discriminate.
  - inversion H; subst. apply Permutation_refl.
  - destruct y; cbn; auto.
    eapply Permutation_trans; [apply perm_skip, IH, H | apply perm_swap].
Qed.

Lemma held_set_idle ws i p :
  nth_error ws i = Some (Holding p) ->
  Permutation (held ws) (p :: held (setWorker ws i Idle)).
Proof.
  revert i. induction ws as [|y r IH]; intros [|j] H; cbn in *; try discriminate.
  - inversion H; subst. apply Permutation_refl.
  - destruct y; cbn; auto.
    eapply Permutation_trans; [apply perm_skip, IH, H | apply perm_swap].
Qed.

Lemma held_set_exited ws i :
  nth_error ws i = Some Idle -> held (setWorker ws i Exited) = held ws.
Proof.
  revert i. induction ws as [|y r IH]; intros [|j] H; cbn in *; try discriminate.
  - inversion H; subst. reflexivity.
  - destruct y; cbn; now rewrite (IH j H).
Qed.

Lemma active_set_holding ws i p :
  nth_error ws i = Some Idle ->
  active (setWorker ws i (Holding p)) = active ws.
Proof.
  revert i. induction ws as [|y r IH]; intros [|j] H; cbn in *; try discriminate.
  - inversion H; subst. reflexivity.
  - destruct y; cbn; now rewrite (IH j H).
Qed.

Lemma active_set_idle ws i p :
  nth_error ws i = Some (Holding p) ->
  active (setWorker ws i Idle) = active ws.
Proof.
  revert i. induction ws as [|y r IH]; intros [|j] H; cbn in *; try discriminate.
  - inversion H; subst. reflexivity.
  - destruct y; cbn; now rewrite (IH j H).
Qed.

Lemma active_set_exited ws i :
  nth_error ws i = Some Idle ->
  S (active (setWorker ws i Exited)) = active ws.
Proof.
  revert i. induction ws as [|y r IH]; intros [|j] H; cbn in *; try discriminate.
  - inversion H; subst. reflexivity.
  - destruct y; cbn; now rewrite <- (IH j H).
Qed.

Lemma in_exited_set ws i x :
  In Exited (setWorker ws i x) -> x = Exited \/ In Exited ws.
Proof.
  revert i. induction ws as [|y r IH]; intros [|j] H; cbn in *; auto.
  - destruct H as [H|H]; auto.
  - destruct H as [H|H]; auto. destruct (IH j H); auto.
Qed.

Lemma held_nth ws i p :
  nth_error ws i = Some (Holding p) -> (0 < List.length (held ws))%nat.
Proof.
  intros H. pose proof (Permutation_length (held_set_idle ws i p H)) as E.
  cbn in E. lia.
Qed.

Lemma held_repeat_idle n : held (repeat Idle n) = [].
Proof. induction n; cbn; auto. Qed.

Lemma allExited_held ws : allExited ws = true -> held ws = [].
Proof.
  induction ws as [|y r IH]; cbn; [reflexivity|].
  destruct y; cbn; try discriminate. exact IH.
Qed.

Lemma allExited_Forall ws :
  allExited ws = true <-> Forall (fun x => x = Exited) ws.
Proof.
  induction ws as [|y r IH]; cbn.
  - split; auto.
  - split.
    + destruct y; cbn; try discriminate. intros H. constructor; [reflexivity|].
      now apply IH.
    + intros H. inversion H; subst. cbn. now apply IH.
Qed.

Lemma not_allExited ws :
  allExited ws = false ->
  exists i, nth_error ws i = Some Idle
            \/ exists p, nth_error ws i = Some (Holding p).
Proof.
  induction ws as [|y r IH]; cbn; [discriminate|].
  destruct y; cbn.
  - intros _. exists O. now left.
  - intros _. exists O. right. now exists path.
  - intros H. destruct (IH H) as [i Hi]. now exists (S i).
Qed.

Lemma parDoneb_spec s : parDoneb s = true <-> parDone s.
Proof.
  unfold parDoneb, parDone. rewrite !andb_true_iff, allExited_Forall.
  destruct (toSend s); intuition discriminate.
Qed.

Section ParallelFacts.

Context {L : PathLib}.
Variable w : World.
Variable paths : list string.
Variable baseDir : string.
Variable nworkers : Z.

Let cap := List.length paths.
Let Inv := ParInv w paths baseDir nworkers.

Lemma ParInv_init : Inv (parInit paths nworkers).
Proof.
  unfold Inv, ParInv, parInit, pending. cbn.
  rewrite held_repeat_idle, repeat_length. cbn.
  split; [|split; [|split; [|split]]].
  - apply Permutation_refl.
  - lia.
  - intros H. apply repeat_spec in H. discriminate.
  - discriminate.
  - reflexivity.
Qed.

Lemma ParInv_step s s' : Inv s -> parStep w baseDir cap s s' -> Inv s'.
Proof.
  unfold Inv, ParInv, pending.
  intros (HP & Hcount & Hex & Hcl & Hlen) Hstep.
  destruct Hstep as [p ps s Hs Hcap | s Hs Hc | i p q s Hi Hq | i s Hi Hq Hc
                    | i p info s Hi Hf Hcap | i p info e s Hi Hf Hcap];
    cbn [toSend fileChan fileClosed workers resultChan errorChan] in *.
  - rewrite Hs in *. split; [|split; [|split; [|split]]].
    + now rewrite <- !app_assoc.
    + rewrite length_app. cbn in *. lia.
    + intros H. destruct (Hex H) as [_ Hc]. specialize (Hcl Hc). discriminate.
    + intros H. specialize (Hcl H). discriminate.
    + exact Hlen.
  - rewrite Hs in *. split; [|split; [|split; [|split]]]; auto.
    intros H. now destruct (Hex H).
  - rewrite Hq in *.
    assert (Hnot : ~ In Exited (setWorker (workers s) i (Holding p))).
    { intros H. apply in_exited_set in H. destruct H as [H|H]; [discriminate|].
      destruct (Hex H) as [E _]. discriminate. }
    split; [|split; [|split; [|split]]].
    + eapply Permutation_trans; [exact HP|].
      apply Permutation_app_head, ingested_Permutation.
      eapply Permutation_trans;
        [| apply Permutation_app_tail, Permutation_sym, held_set_holding, Hi].
      cbn. apply Permutation_sym, Permutation_middle.
    + pose proof (Permutation_length (held_set_holding _ _ p Hi)) as El.
      cbn in *. lia.
    + intros H. now destruct (Hnot H).
    + exact Hcl.
    + now rewrite setWorker_length.
  - rewrite Hq in *. rewrite held_set_exited by assumption.
    split; [|split; [|split; [|split]]]; auto.
    now rewrite setWorker_length.
  - assert (Hpend : Permutation
              (ingested w (held (workers s) ++ fileChan s ++ toSend s) baseDir)
              (info :: ingested w (held (setWorker (workers s) i Idle)
                                   ++ fileChan s ++ toSend s) baseDir)).
    { eapply Permutation_trans.
      - apply ingested_Permutation, Permutation_app_tail, (held_set_idle _ _ _ Hi).
      - cbn. rewrite Hf. apply Permutation_refl. }
    split; [|split; [|split; [|split]]].
    + eapply Permutation_trans; [exact HP|].
      rewrite <- app_assoc. cbn. now apply Permutation_app_head.
    + pose proof (Permutation_length (held_set_idle _ _ _ Hi)) as El.
      rewrite length_app. cbn in *. lia.
    + intros H. apply in_exited_set in H.
      destruct H as [H|H]; [discriminate|]. exact (Hex H).
    + exact Hcl.
    + now rewrite setWorker_length.
  - assert (Hpend : Permutation
              (ingested w (held (workers s) ++ fileChan s ++ toSend s) baseDir)
              (ingested w (held (setWorker (workers s) i Idle)
                           ++ fileChan s ++ toSend s) baseDir)).
    { eapply Permutation_trans.
      - apply ingested_Permutation, Permutation_app_tail, (held_set_idle _ _ _ Hi).
      - cbn. rewrite Hf. apply Permutation_refl. }
    split; [|split; [|split; [|split]]].
    + eapply Permutation_trans; [exact HP|]. now apply Permutation_app_head.
    + pose proof (Permutation_length (held_set_idle _ _ _ Hi)) as El.
      rewrite length_app. cbn in *. lia.
    + intros H. apply in_exited_set in H.
      destruct H as [H|H]; [discriminate|]. exact (Hex H).
    + exact Hcl.
    + now rewrite setWorker_length.
Qed.

Lemma ParInv_steps s s' : Inv s -> parSteps w baseDir cap s s' -> Inv s'.
Proof.
  intros Hs Hr. induction Hr as [|s1 s2 s3 _ IH Hstep]; [assumption|].
  eapply ParInv_step; [apply IH, Hs | exact Hstep].
Qed.

(** With a worker, a state in which [wg.Wait] returns has nothing
    pending: the results are the records of the paths, in some order. *)
Lemma parDone_results s :
  1 <= nworkers -> Inv s -> parDone s ->
  Permutation (ingested w paths baseDir) (resultChan s).
Proof.
  intros HW (HP & _ & Hex & _ & Hlen) (Hsend & _ & Hall).
  assert (Hin : In Exited (workers s)).
  { destruct (workers s) as [|x r]; [cbn in Hlen; lia|].
    inversion Hall; subst. now left. }
  destruct (Hex Hin) as [Hq _].
  unfold pending in HP.
  rewrite Hsend, Hq, (allExited_held (workers s)) in HP
    by (now apply allExited_Forall).
  cbn in HP. now rewrite app_nil_r in HP.
Qed.

(** No deadlock: a reachable state in which [wg.Wait] has not returned
    can take a step. *)
Lemma par_progress s :
  Inv s -> parDoneb s = false -> exists s', parStep w baseDir cap s s'.
Proof.
  intros (HP & Hcount & Hex & Hcl & Hlen) Hnd.
  destruct (toSend s) as [|p ps] eqn:Hs.
  - destruct (fileClosed s) eqn:Hc.
    + unfold parDoneb in Hnd. rewrite Hs, Hc in Hnd. cbn in Hnd.
      destruct (not_allExited _ Hnd) as [i [Hi | [p Hi]]].
      * destruct (fileChan s) as [|p q] eqn:Hq.
        -- eexists. eapply StepExit; eassumption.
        -- eexists. eapply StepRecv; eassumption.
      * pose proof (held_nth _ _ _ Hi) as Hh.
        destruct (processSingleFile w p baseDir) as [info [e|]] eqn:Hf.
        -- eexists. eapply StepError; [eassumption..|]. fold cap in Hcount.
           unfold cap. lia.
        -- eexists. eapply StepResult; [eassumption..|]. unfold cap. lia.
    + eexists. eapply StepClose; eassumption.
  - eexists. eapply StepSend; [eassumption|]. unfold cap. cbn in Hcount. lia.
Qed.

(** Every step uses up one of the steps left. *)
Lemma par_measure s s' :
  parStep w baseDir cap s s' -> (stepsLeft s' < stepsLeft s)%nat.
Proof.
  intros Hstep. unfold stepsLeft.
  destruct Hstep as [p ps s Hs Hcap | s Hs Hc | i p q s Hi Hq | i s Hi Hq Hc
                    | i p info s Hi Hf Hcap | i p info e s Hi Hf Hcap];
    cbn [toSend fileChan fileClosed workers resultChan errorChan].
  - rewrite Hs, length_app. cbn. lia.
  - rewrite Hs, Hc. cbn. lia.
  - rewrite Hq, (active_set_holding _ _ p Hi).
    pose proof (Permutation_length (held_set_holding _ _ p Hi)) as El.
    cbn in *. lia.
  - rewrite Hq, Hc, held_set_exited by assumption.
    pose proof (active_set_exited _ _ Hi). cbn. lia.
  - rewrite (active_set_idle _ _ _ Hi).
    pose proof (Permutation_length (held_set_idle _ _ _ Hi)) as El.
    cbn in *. lia.
  - rewrite (active_set_idle _ _ _ Hi).
    pose proof (Permutation_length (held_set_idle _ _ _ Hi)) as El.
    cbn in *. lia.
Qed.

Lemma parSteps_front s1 s2 s3 :
  parStep w baseDir cap s1 s2 -> parSteps w baseDir cap s2 s3 ->
  parSteps w baseDir cap s1 s3.
Proof.
  intros H12 H23. induction H23 as [|s2 s3 s4 _ IH Hstep].
  - eapply ParNext; [apply ParRefl | exact H12].
  - eapply ParNext; [apply IH, H12 | exact Hstep].
Qed.

(** Every reachable state runs on to one in which [wg.Wait] returns. *)
Lemma par_terminates s :
  Inv s -> exists s', parSteps w baseDir cap s s' /\ parDone s'.
Proof.
  remember (stepsLeft s) as n eqn:Hn. revert s Hn.
  induction n as [n IH] using lt_wf_ind. intros s Hn HI.
  destruct (parDoneb s) eqn:Hd.
  - exists s. split; [apply ParRefl | now apply parDoneb_spec].
  - destruct (par_progress s HI Hd) as [s1 Hstep].
    pose proof (par_measure _ _ Hstep) as Hlt.
    destruct (IH (stepsLeft s1) ltac:(lia) s1 eq_refl
                 (ParInv_step _ _ HI Hstep)) as (s' & Hrun & Hdone).
    exists s'. split; [|exact Hdone].
    eapply parSteps_front; eassumption.
Qed.

End ParallelFacts.

(** C4: [processFilesSequential] returns the records of the paths that
    ingest without error, in the order of the paths: the paths of its
    records are the input list filtered by success, a failure is skipped
    and the rest is processed, a list split in two gives the records of
    the first part followed by those of the second, and the records do
    not depend on the flags or on the statistics the run starts from. *)
Theorem sequential_in_order (L : PathLib) (w : World)
    (paths : list string) (baseDir : string) (verbose quiet : bool)
    (stats : Stats) :
  fst (processFilesSequential w paths baseDir verbose quiet stats)
  = ingested w paths baseDir
  /\ map Path (fst (processFilesSequential w paths baseDir verbose quiet stats))
     = filter (ingestOk w baseDir) paths
  /\ snd (processFilesSequential w paths baseDir verbose quiet stats)
     = countAll (ingested w paths baseDir) stats
  /\ (forall pre post,
        fst (processFilesSequential w (pre ++ post) baseDir verbose quiet stats)
        = (fst (processFilesSequential w pre baseDir verbose quiet stats)
           ++ fst (processFilesSequential w post baseDir verbose quiet stats))%list)
  /\ (forall verbose' quiet' stats',
        fst (processFilesSequential w paths baseDir verbose' quiet' stats')
        = fst (processFilesSequential w paths baseDir verbose quiet stats)).
Proof.
  unfold processFilesSequential.
  repeat split; intros; rewrite ?sequentialLoop_ingested; cbn [fst snd app];
    auto using ingested_paths, ingested_app.
Qed.

(** C5: [processSingleFile] returns an error when [os.Stat] or
    [os.ReadFile] fails, and only then.  A path whose ingestion fails is
    left out: the sequential run over a list with that path returns what
    it returns over the list without it, records and statistics, so no
    record carries that path, [FilesProcessed] and [TotalBytes] do not
    move for it, and the paths behind it are still processed; a parallel
    run returns the same records in some order and the same statistics. *)
Theorem failed_file_excluded (L : PathLib) (w : World)
    (path baseDir : string) :
  (os_Stat w path = None ->
   snd (processSingleFile w path baseDir) = Some StatFailed)
  /\ (forall fileInfo, os_Stat w path = Some fileInfo ->
        os_ReadFile w path = None ->
        snd (processSingleFile w path baseDir) = Some ReadFailed)
  /\ (forall e, snd (processSingleFile w path baseDir) = Some e ->
        (os_Stat w path = None \/ os_ReadFile w path = None)
        /\ (forall pre post verbose quiet stats,
              processFilesSequential w (pre ++ path :: post) baseDir
                                     verbose quiet stats
              = processFilesSequential w (pre ++ post) baseDir
                                       verbose quiet stats)
        /\ (forall paths verbose quiet stats,
              ~ In path (map Path (fst (processFilesSequential
                                          w paths baseDir verbose quiet stats))))
        /\ (forall pre post nworkers verbose quiet stats out,
              1 <= nworkers ->
              processFilesParallel w (pre ++ path :: post) baseDir nworkers
                                   verbose quiet stats out ->
              Permutation (fst out) (ingested w (pre ++ post) baseDir)
              /\ snd out = countAll (ingested w (pre ++ post) baseDir) stats)).
Proof.
  split; [|split].
  - intros H. unfold processSingleFile. now rewrite H.
  - intros fileInfo H1 H2. unfold processSingleFile. now rewrite H1, H2.
  - intros e He.
    assert (Hskip : forall pre post,
              ingested w (pre ++ path :: post) baseDir
              = ingested w (pre ++ post) baseDir).
    { intros pre post. rewrite !ingested_app. cbn [ingested].
      destruct (processSingleFile w path baseDir) as [info [e'|]];
        [reflexivity | discriminate]. }
    split; [|split; [|split]].
    + unfold processSingleFile in He.
      destruct (os_Stat w path); [|now left].
      destruct (os_ReadFile w path); [discriminate | now right].
    + intros. unfold processFilesSequential.
      now rewrite !sequentialLoop_ingested, Hskip.
    + intros paths verbose quiet stats Hin.
      unfold processFilesSequential in Hin.
      rewrite sequentialLoop_ingested in Hin. cbn [fst app] in Hin.
      rewrite ingested_paths in Hin. apply filter_In in Hin.
      destruct Hin as [_ Hok]. unfold ingestOk in Hok. now rewrite He in Hok.
    + intros pre post nworkers verbose quiet stats out HW (s & Hrun & Hdone & ->).
      pose proof (ParInv_steps w _ baseDir nworkers _ _
                    (ParInv_init w _ baseDir nworkers) Hrun) as HI.
      pose proof (parDone_results w _ baseDir nworkers s HW HI Hdone) as HP.
      rewrite Hskip in HP.
      rewrite collectResults_countAll. cbn [fst snd app]. split.
      * now apply Permutation_sym.
      * apply countAll_Permutation. now apply Permutation_sym.
Qed.

(** [proj/missing] is not in the example world: its ingestion fails at
    [os.Stat] and the run over three paths returns the records of the
    other two. *)
Lemma failed_file_excluded_witness :
  snd (processSingleFile (L := examplePaths) exampleWorld "proj/missing" "proj")
  = Some StatFailed
  /\ processFilesSequential (L := examplePaths) exampleWorld
       (["proj/a.go"] ++ "proj/missing" :: ["proj/c.txt"]) "proj"
       false true zeroStats
     = processFilesSequential (L := examplePaths) exampleWorld
         (["proj/a.go"] ++ ["proj/c.txt"]) "proj" false true zeroStats.
Proof.
  pose proof (failed_file_excluded examplePaths exampleWorld
                "proj/missing" "proj") as (Hstat & _ & Hfail).
  split.
  - apply Hstat. reflexivity.
  - destruct (Hfail StatFailed (Hstat eq_refl)) as (_ & Hseq & _).
    apply Hseq.
Defined.

(** C3: with at least one worker, [processFilesParallel] has a run that
    ends, and every run that ends returns the records of
    [processFilesSequential] in some order: the same set of paths, the
    same records, the same statistics. *)
Theorem parallel_same_membership (L : PathLib) (w : World)
    (paths : list string) (baseDir : string) (nworkers : Z)
    (verbose quiet : bool) (stats : Stats) :
  1 <= nworkers ->
  (exists out,
     processFilesParallel w paths baseDir nworkers verbose quiet stats out)
  /\ (forall out,
        processFilesParallel w paths baseDir nworkers verbose quiet stats out ->
        Permutation
          (fst out)
          (fst (processFilesSequential w paths baseDir verbose quiet stats))
        /\ (forall p,
              In p (map Path (fst out))
              <-> In p (map Path (fst (processFilesSequential
                                         w paths baseDir verbose quiet stats))))
        /\ snd out
           = snd (processFilesSequential w paths baseDir verbose quiet stats)).
Proof.
  intros HW. split.
  - destruct (par_terminates w paths baseDir nworkers _
                (ParInv_init w paths baseDir nworkers)) as (s & Hrun & Hdone).
    exists (collectResults (resultChan s) [] stats). exists s. auto.
  - intros out (s & Hrun & Hdone & ->).
    pose proof (ParInv_steps w _ baseDir nworkers _ _
                  (ParInv_init w _ baseDir nworkers) Hrun) as HI.
    pose proof (parDone_results w _ baseDir nworkers s HW HI Hdone) as HP.
    unfold processFilesSequential.
    rewrite collectResults_countAll, sequentialLoop_ingested.
    cbn [fst snd app].
    assert (HP' : Permutation (resultChan s) (ingested w paths baseDir))
      by now apply Permutation_sym.
    split; [exact HP'|]. split.
    + intros p. split; apply Permutation_in, Permutation_map;
        [exact HP' | exact HP].
    + now apply countAll_Permutation.
Qed.

(** Two workers over three paths of the example world, one of them
    missing. *)
Lemma parallel_same_membership_witness :
  (exists out,
     processFilesParallel (L := examplePaths) exampleWorld
       ["proj/a.go"; "proj/missing"; "proj/c.txt"] "proj" 2 false true
       zeroStats out)
  /\ (forall out,
        processFilesParallel (L := examplePaths) exampleWorld
          ["proj/a.go"; "proj/missing"; "proj/c.txt"] "proj" 2 false true
          zeroStats out ->
        forall p, In p (map Path (fst out))
                  <-> In p ["proj/a.go"; "proj/c.txt"]).
Proof.
  destruct (parallel_same_membership examplePaths exampleWorld
              ["proj/a.go"; "proj/missing"; "proj/c.txt"] "proj" 2 false true
              zeroStats) as [Hex Hall].
  - lia.
  - split; [exact Hex|]. intros out Hout p.
    destruct (Hall out Hout) as (_ & Hin & _). exact (Hin p).
Defined.

(** ** Serialisation *)

Lemma length_append_Z (a b : string) : len (a ++ b) = len a + len b.
Proof.
  unfold len. induction a as [|c a IH]; cbn [String.append String.length].
  - lia.
  - rewrite !Nat2Z.inj_succ. lia.
Qed.

Section SerialiseFacts.

Context {O : OutLib}.

Lemma counted_start : counted (0, "").
Proof. reflexivity. Qed.

Lemma counted_writeString x st : counted st -> counted (writeString x st).
Proof.
  unfold counted, writeString, add64. cbn [fst snd]. intros ->.
  now rewrite wrap64_add_l, length_append_Z.
Qed.

Lemma counted_text_sections fileInfos :
  forall st, counted st -> counted (writeTextSections fileInfos st).
Proof.
  induction fileInfos as [|i r IH]; intros st H; cbn; auto using counted_writeString.
Qed.

Lemma counted_md_sections fileInfos :
  forall i st, counted st -> counted (writeMdSections i fileInfos st).
Proof.
  induction fileInfos as [|x r IH]; intros i st H; cbn; auto using counted_writeString.
Qed.

Lemma writeTextOutput_counted fileInfos stats :
  counted (writeTextOutput fileInfos stats).
Proof.
  unfold writeTextOutput.
  auto using counted_writeString, counted_text_sections, counted_start.
Qed.

Lemma writeMarkdownOutput_counted fileInfos stats :
  counted (writeMarkdownOutput fileInfos stats).
Proof.
  unfold writeMarkdownOutput.
  auto using counted_writeString, counted_md_sections, counted_start.
Qed.

Lemma writeOutput_chosen canCreate fileInfos outputPath format compress stats :
  writeOutput canCreate fileInfos outputPath format compress stats
  = if canCreate outputPath
    then Some (fst (chosenWriter format fileInfos stats),
               if compress
               then gzip (snd (chosenWriter format fileInfos stats))
               else snd (chosenWriter format fileInfos stats))
    else None.
Proof.
  unfold writeOutput, chosenWriter. now destruct (canCreate outputPath).
Qed.

(** The size [writeOutput] returns does not depend on [compress]. *)
Lemma reportedSize_compress canCreate fileInfos outputPath format compress stats :
  reportedSize canCreate fileInfos outputPath format compress stats
  = reportedSize canCreate fileInfos outputPath format false stats.
Proof.
  unfold reportedSize. rewrite !writeOutput_chosen.
  now destruct (canCreate outputPath).
Qed.

End SerialiseFacts.

(** C1, as the code has it: the size [writeOutput] returns is the size
    its serialiser counted before any compression.  It is the same with
    and without [compress]; for the text and Markdown formats it is the
    length of the uncompressed rendering (in 64 bits), while the file
    holds the gzip of that rendering when [compress] is set. *)
Theorem reported_size_precompression (O : OutLib) (canCreate : string -> bool)
    (fileInfos : list FileInfo) (outputPath format : string) (stats : Stats) :
  (forall compress,
     reportedSize canCreate fileInfos outputPath format compress stats
     = reportedSize canCreate fileInfos outputPath format false stats)
  /\ (canCreate outputPath = true ->
      forall compress,
        reportedSize canCreate fileInfos outputPath format compress stats
        = fst (chosenWriter format fileInfos stats)
        /\ fileBytes canCreate fileInfos outputPath format compress stats
           = if compress then gzip (snd (chosenWriter format fileInfos stats))
             else snd (chosenWriter format fileInfos stats))
  /\ fst (writeTextOutput fileInfos stats)
     = wrap64 (len (snd (writeTextOutput fileInfos stats)))
  /\ fst (writeMarkdownOutput fileInfos stats)
     = wrap64 (len (snd (writeMarkdownOutput fileInfos stats))).
Proof.
  split; [|split; [|split]].
  - intros compress. apply reportedSize_compress.
  - intros Hc compress. unfold reportedSize, fileBytes.
    rewrite writeOutput_chosen, Hc. split; reflexivity.
  - apply writeTextOutput_counted.
  - apply writeMarkdownOutput_counted.
Qed.

(** A text rendering of no records, compressed and not. *)
Lemma reported_size_precompression_witness :
  reportedSize (O := exampleOut) (fun _ => true) [] "out.txt" "text" true
               zeroStats = 219
  /\ fileBytes (O := exampleOut) (fun _ => true) [] "out.txt" "text" true
               zeroStats
     = @gzip exampleOut (snd (writeTextOutput (O := exampleOut) [] zeroStats)).
Proof.
  destruct (reported_size_precompression exampleOut (fun _ => true) []
              "out.txt" "text" zeroStats) as (_ & H & _).
  destruct (H eq_refl true) as [H1 H2]. split.
  - rewrite H1. reflexivity.
  - rewrite H2. reflexivity.
Defined.

(** C1 as stated fails: whatever the library's gzip, clock and number
    formats are, the size reported for the text rendering of an empty
    record set with compression is not smaller than the size reported
    without. *)
Lemma compressed_size_not_smaller :
  ~ exists O : OutLib,
      reportedSize (O := O) (fun _ => true) [] "out.txt" "text" true zeroStats
      < reportedSize (O := O) (fun _ => true) [] "out.txt" "text" false
                     zeroStats.
Proof.
  intros [O H]. rewrite reportedSize_compress in H. lia.
Qed.

(** ** Runs of [main] *)

Section MainFacts.

Context {L : PathLib} {O : OutLib}.
Variable w : World.

Lemma mainRun_preflight_failed config flags elapsed f :
  preflight w config flags = inl f ->
  forall o, mainRun w config flags elapsed o <-> o = abort f [] zeroStats.
Proof.
  intros H o. unfold mainRun. now rewrite H.
Qed.

(** Ingestion has an outcome, and with no path its outcome is no record
    and the statistics as they were. *)
Lemma ingest_total config flags filePaths stats :
  exists out, ingest w config flags filePaths stats out.
Proof.
  unfold ingest. destruct (1 <? flagParallel flags) eqn:HP.
  - apply Z.ltb_lt in HP.
    destruct (par_terminates w filePaths (InputDir config) (flagParallel flags)
                _ (ParInv_init w filePaths (InputDir config)
                               (flagParallel flags))) as (s & Hrun & Hdone).
    exists (collectResults (resultChan s) [] stats). exists s. auto.
  - eexists. reflexivity.
Qed.

Lemma ingest_nothing config flags stats out :
  ingest w config flags [] stats out -> out = ([], stats).
Proof.
  unfold ingest. destruct (1 <? flagParallel flags) eqn:HP.
  - apply Z.ltb_lt in HP. intros (s & Hrun & Hdone & ->).
    pose proof (ParInv_steps w _ (InputDir config) (flagParallel flags) _ _
                  (ParInv_init w _ (InputDir config) (flagParallel flags))
                  Hrun) as HI.
    pose proof (parDone_results w _ (InputDir config) (flagParallel flags) s
                  ltac:(lia) HI Hdone) as HPm.
    cbn [ingested] in HPm. apply Permutation_nil in HPm. now rewrite HPm.
  - intros ->. reflexivity.
Qed.

Lemma mainRun_total config flags elapsed :
  exists o, mainRun w config flags elapsed o.
Proof.
  unfold mainRun.
  destruct (preflight w config flags) as [f | [excludeRegex includeRegex]].
  - eexists. reflexivity.
  - destruct (discover config excludeRegex includeRegex
                (os_Tree w (InputDir config)) zeroStats)
      as [[stats filePaths] err].
    destruct err; try (eexists; reflexivity).
    destruct (ingest_total config flags filePaths stats)
      as [[fileInfos stats'] Hi].
    eexists. exists fileInfos, stats'. split; [exact Hi | reflexivity].
Qed.

End MainFacts.

(** C7: when the input root is no directory ([os.Stat] fails or gives a
    non-directory), or the parent of the output file is none, or the
    exclude or include pattern given to the run does not compile, every
    run ends with exit code 1 before the walk: nothing is walked, nothing
    ingested, no output file created. *)
Theorem fatal_config_aborts (L : PathLib) (O : OutLib) (w : World)
    (config : Config) (flags : Flags) (elapsed : Z) :
  (forall info, os_Stat w (InputDir config) = Some info -> IsDir info = false)
  \/ (forall info, os_Stat w (Dir (OutputFile config)) = Some info ->
        IsDir info = false)
  \/ (flagExclude flags <> "" /\ Compile (flagExclude flags) = None)
  \/ (flagInclude flags <> "" /\ Compile (flagInclude flags) = None) ->
  (exists o, mainRun w config flags elapsed o)
  /\ (forall o, mainRun w config flags elapsed o ->
        exitCode o = 1 /\ effects o = [] /\ records o = []
        /\ exists f, fatal o = Some f /\ preflight w config flags = inl f).
Proof.
  intros H.
  assert (Hpre : exists f, preflight w config flags = inl f).
  { unfold preflight, validateDirectory, validateFilePath.
    destruct (os_Stat w (InputDir config)) as [i1|] eqn:S1;
      [destruct (IsDir i1) eqn:D1|]; cbn [negb]; try (eexists; reflexivity).
    destruct (os_Stat w (Dir (OutputFile config))) as [i2|] eqn:S2;
      [destruct (IsDir i2) eqn:D2|]; cbn [negb]; try (eexists; reflexivity).
    destruct (validateExtensions (joinComma (Extensions config)));
      cbn [negb]; try (eexists; reflexivity).
    destruct H as [H | [H | [[Hne Hc] | [Hne Hc]]]].
    - specialize (H _ eq_refl). congruence.
    - specialize (H _ eq_refl). congruence.
    - apply String.eqb_neq in Hne. rewrite Hne, Hc. cbn. eexists; reflexivity.
    - apply String.eqb_neq in Hne. rewrite Hne, Hc.
      destruct (if (flagExclude flags =? "")%string then Some None
                else option_map Some (Compile (flagExclude flags)));
        eexists; reflexivity. }
  destruct Hpre as [f Hf]. split.
  - apply mainRun_total.
  - intros o Ho. apply (mainRun_preflight_failed w config flags elapsed f Hf) in Ho.
    subst o. cbn. repeat split. now exists f.
Qed.

(** The input directory [nowhere] does not exist in the example world,
    and the pattern of an opening parenthesis does not compile. *)
Lemma fatal_config_aborts_witness :
  (forall o, mainRun (L := examplePaths) (O := exampleOut) exampleWorld
                     noInputConfig plainFlags 0 o ->
             exitCode o = 1 /\ effects o = [])
  /\ (forall o, mainRun (L := examplePaths) (O := exampleOut) exampleWorld
                        goOnly badPatternFlags 0 o ->
                exitCode o = 1 /\ effects o = []).
Proof.
  split; intros o Ho.
  - destruct (fatal_config_aborts examplePaths exampleOut exampleWorld
                noInputConfig plainFlags 0) as [_ H].
    + left. intros info Hi. discriminate Hi.
    + destruct (H o Ho) as (H1 & H2 & _). now split.
  - destruct (fatal_config_aborts examplePaths exampleOut exampleWorld
                goOnly badPatternFlags 0) as [_ H].
    + right. right. left. split; [discriminate | reflexivity].
    + destruct (H o Ho) as (H1 & H2 & _). now split.
Defined.

Section EmptyFacts.

Context {O : OutLib}.

(** What [writeOutput] chooses for no record. *)

Lemma chosenWriter_empty format stats :
  chosenWriter format [] stats
  = (emptyArtifactSize format stats, emptyArtifact format stats).
Proof.
  unfold chosenWriter, emptyArtifactSize, emptyArtifact.
  destruct (String.eqb (strings_ToLower format) "json"); [reflexivity|].
  destruct (String.eqb (strings_ToLower format) "xml").
  - unfold writeXMLOutput, add64. cbn [fst snd]. rewrite length_append_Z.
    f_equal. f_equal. lia.
  - destruct (String.eqb (strings_ToLower format) "markdown"
              || String.eqb (strings_ToLower format) "md").
    + pose proof (writeMarkdownOutput_counted [] stats) as Hc.
      unfold counted in Hc.
      rewrite (surjective_pairing (writeMarkdownOutput [] stats)), Hc.
      reflexivity.
    + pose proof (writeTextOutput_counted [] stats) as Hc.
      unfold counted in Hc.
      rewrite (surjective_pairing (writeTextOutput [] stats)), Hc.
      reflexivity.
Qed.

End EmptyFacts.

(** C8: over an input directory without entries, with a configuration
    that passes the checks and an output file that can be created (or a
    dry run), [main] has a run and every run exits with code 0, no
    record, [FilesProcessed] 0 and [Directories] 1.  The file the run
    creates holds the header and the footer and nothing between them
    (gzipped when compression is asked for): for the text format
    [textHeader] followed by [textFooter], for Markdown [mdHeader]
    followed by [mdFooter], for JSON the document whose ["files"] is
    [null]; the size reported is that of this artifact. *)
Theorem empty_directory_run (L : PathLib) (O : OutLib) (w : World)
    (config : Config) (flags : Flags) (elapsed : Z) (name : string)
    (excludeRegex includeRegex : option Regexp) :
  os_Tree w (InputDir config) = EDir name (Some []) ->
  preflight w config flags = inr (excludeRegex, includeRegex) ->
  flagDryRun flags = true \/ os_Create w (OutputFile config) = true ->
  (exists o, mainRun w config flags elapsed o)
  /\ (forall o, mainRun w config flags elapsed o ->
        exitCode o = 0 /\ fatal o = None /\ records o = []
        /\ FilesProcessed (finalStats o) = 0
        /\ Directories (finalStats o) = 1
        /\ effects o
           = EvWalk (InputDir config)
             :: (if flagDryRun flags then []
                 else [EvCreate (OutputFile config)
                         (fileBytes (os_Create w) [] (OutputFile config)
                            (flagFormat flags) (flagCompress flags)
                            (setDuration (addDirectories zeroStats 1) elapsed))])
        /\ effects o
           = EvWalk (InputDir config)
             :: (if flagDryRun flags then []
                 else [EvCreate (OutputFile config)
                         (if flagCompress flags
                          then gzip (emptyArtifact (flagFormat flags)
                                       (setDuration (addDirectories zeroStats 1)
                                                    elapsed))
                          else emptyArtifact (flagFormat flags)
                                 (setDuration (addDirectories zeroStats 1)
                                              elapsed))])
        /\ OutputSize (finalStats o)
           = (if flagDryRun flags then 0
              else emptyArtifactSize (flagFormat flags)
                     (setDuration (addDirectories zeroStats 1) elapsed)))
  /\ (forall stats,
        snd (writeTextOutput [] stats)
        = textHeader stats
          ++ textFooter stats (fst (writeString (textHeader stats) (0, "")))
        /\ snd (writeMarkdownOutput [] stats) = mdHeader stats ++ mdFooter stats
        /\ marshalFiles [] = JNull).
Proof.
  intros Htree Hpre Hout. split; [apply mainRun_total|]. split.
  - intros o Ho. unfold mainRun in Ho. rewrite Hpre, discover_found, Htree in Ho.
    cbn [dirsSeen filesFound] in Ho.
    assert (E : (if pruned config name then 1 else 1 + 0) = 1)
      by (destruct (pruned config name); reflexivity).
    assert (F : (if pruned config name then @nil string else []) = [])
      by (destruct (pruned config name); reflexivity).
    rewrite E, F in Ho.
    destruct Ho as (fileInfos & stats' & Hi & ->).
    apply ingest_nothing in Hi. inversion Hi; subst fileInfos stats'.
    unfold finish, fileBytes. cbn [map].
    destruct (flagDryRun flags) eqn:Hd.
    + cbn. repeat split.
    + destruct Hout as [Hout|Hout]; [discriminate|].
      rewrite writeOutput_chosen, Hout, chosenWriter_empty.
      cbn [fst snd]. cbn. repeat split.
  - intros stats. repeat split.
Qed.

(** The example world with the empty directory [empty]: the bytes of
    the file created. *)
Lemma empty_directory_run_witness :
  (exists o, mainRun (L := examplePaths) (O := exampleOut) emptyDirWorld
                     emptyDirConfig plainFlags 0 o)
  /\ (forall o, mainRun (L := examplePaths) (O := exampleOut) emptyDirWorld
                        emptyDirConfig plainFlags 0 o ->
                exitCode o = 0
                /\ FilesProcessed (finalStats o) = 0
                /\ Directories (finalStats o) = 1
                /\ effects o
                   = [EvWalk "empty";
                      EvCreate "out/combined.txt"
                        ("Pecel Output" ++ nl
                         ++ "Generated: 2024-01-01 00:00:00" ++ nl
                         ++ "Files: 0 | Directories: 1 | Total Size: 0 B"
                         ++ nl ++ nl
                         ++ nl ++ nl ++ "=== SUMMARY ===" ++ nl
                         ++ "Files processed: 0" ++ nl
                         ++ "Directories scanned: 1" ++ nl
                         ++ "Total input size: 0 B" ++ nl
                         ++ "Output size: 89 B" ++ nl
                         ++ "Processing time: 0.00 seconds" ++ nl)]).
Proof.
  destruct (empty_directory_run examplePaths exampleOut emptyDirWorld
              emptyDirConfig plainFlags 0 "empty" None None)
    as (Hex & Hall & _).
  - reflexivity.
  - reflexivity.
  - right. reflexivity.
  - split; [exact Hex|]. intros o Ho.
    destruct (Hall o Ho) as (H1 & _ & _ & H2 & H3 & _ & H4 & _).
    split; [exact H1|]. split; [exact H2|]. split; [exact H3|]. exact H4.
Defined.

(** ** The bytes of UTF-8 *)

Lemma lor_shifted (a b n : Z) :
  0 <= n -> 0 <= b < 2 ^ n -> Z.lor (a * 2 ^ n) b = a * 2 ^ n + b.
Proof.
  intros Hn Hb.
  assert (H0 : Z.land (a * 2 ^ n) b = 0).
  { apply Z.bits_inj'. intros i Hi. rewrite Z.land_spec, Z.bits_0.
    destruct (Z.lt_ge_cases i n) as [Hlt|Hge].
    - rewrite Z.mul_pow2_bits_low by lia. reflexivity.
    - rewrite <- (Z.mod_small b (2 ^ n)) by lia.
      rewrite Z.mod_pow2_bits_high by lia. apply andb_false_r. }
  rewrite <- Z.lxor_lor by exact H0. symmetry. now apply Z.add_nocarry_lxor.
Qed.

Lemma land_low (a n : Z) : 0 <= n -> Z.land a (2 ^ n - 1) = a mod 2 ^ n.
Proof.
  intros Hn. rewrite <- Z.land_ones by exact Hn. f_equal.
  rewrite Z.ones_equiv. lia.
Qed.

Lemma land63 a : Z.land a 63 = a mod 64.
Proof. exact (land_low a 6 ltac:(lia)). Qed.
Lemma land31 a : Z.land a 31 = a mod 32.
Proof. exact (land_low a 5 ltac:(lia)). Qed.
Lemma land15 a : Z.land a 15 = a mod 16.
Proof. exact (land_low a 4 ltac:(lia)). Qed.
Lemma land7 a : Z.land a 7 = a mod 8.
Proof. exact (land_low a 3 ltac:(lia)). Qed.

Lemma shiftl_mul a n : 0 <= n -> Z.shiftl a n = a * 2 ^ n.
Proof. apply Z.shiftl_mul_pow2. Qed.

Lemma rune2_value b0 b1 :
  192 <= b0 <= 223 -> 128 <= b1 <= 191 ->
  Z.lor (Z.shiftl (Z.land b0 31) 6) (Z.land b1 63) = (b0 - 192) * 64 + (b1 - 128).
Proof.
  intros H0 H1. rewrite land31, land63, shiftl_mul by lia.
  rewrite lor_shifted by (try lia; apply Z.mod_pos_bound; lia).
  change (2 ^ 6) with 64.
  replace (b0 mod 32) with (b0 - 192) by (apply (Z.mod_unique b0 32 6); lia).
  replace (b1 mod 64) with (b1 - 128) by (apply (Z.mod_unique b1 64 2); lia).
  reflexivity.
Qed.

(** A tactic for the arithmetic of bytes: masks, shifts and disjoint ors
    become remainders, products and sums. *)
Ltac bits_to_arith :=
  rewrite ?land63, ?land31, ?land15, ?land7;
  rewrite ?Z.shiftl_mul_pow2, ?Z.shiftr_div_pow2 by lia;
  change (2 ^ 6) with 64; change (2 ^ 12) with 4096; change (2 ^ 18) with 262144.

Lemma lor_add_64 a b : 0 <= b < 64 -> Z.lor (a * 64) b = a * 64 + b.
Proof. intros H. exact (lor_shifted a b 6 ltac:(lia) H). Qed.
Lemma lor_add_4096 a b : 0 <= b < 4096 -> Z.lor (a * 4096) b = a * 4096 + b.
Proof. intros H. exact (lor_shifted a b 12 ltac:(lia) H). Qed.
Lemma lor_add_262144 a b : 0 <= b < 262144 -> Z.lor (a * 262144) b = a * 262144 + b.
Proof. intros H. exact (lor_shifted a b 18 ltac:(lia) H). Qed.

Lemma lor_192 x : 0 <= x < 64 -> Z.lor 192 x = 192 + x.
Proof. intros H. exact (lor_add_64 3 x H). Qed.
Lemma lor_128 x : 0 <= x < 64 -> Z.lor 128 x = 128 + x.
Proof. intros H. exact (lor_add_64 2 x H). Qed.
Lemma lor_224 x : 0 <= x < 16 -> Z.lor 224 x = 224 + x.
Proof. intros H. exact (lor_shifted 14 x 4 ltac:(lia) ltac:(lia)). Qed.
Lemma lor_240 x : 0 <= x < 8 -> Z.lor 240 x = 240 + x.
Proof. intros H. exact (lor_shifted 30 x 3 ltac:(lia) ltac:(lia)). Qed.

Lemma rune3_value b0 b1 b2 :
  224 <= b0 <= 239 -> 128 <= b1 <= 191 -> 128 <= b2 <= 191 ->
  Z.lor (Z.lor (Z.shiftl (Z.land b0 15) 12) (Z.shiftl (Z.land b1 63) 6))
        (Z.land b2 63)
  = (b0 - 224) * 4096 + (b1 - 128) * 64 + (b2 - 128).
Proof.
  intros H0 H1 H2. bits_to_arith.
  replace (b0 mod 16) with (b0 - 224) by (apply (Z.mod_unique b0 16 14); lia).
  replace (b1 mod 64) with (b1 - 128) by (apply (Z.mod_unique b1 64 2); lia).
  replace (b2 mod 64) with (b2 - 128) by (apply (Z.mod_unique b2 64 2); lia).
  rewrite lor_add_4096 by lia.
  replace ((b0 - 224) * 4096 + (b1 - 128) * 64)
    with (((b0 - 224) * 64 + (b1 - 128)) * 64) by lia.
  rewrite lor_add_64 by lia. lia.
Qed.

Lemma rune4_value b0 b1 b2 b3 :
  240 <= b0 <= 247 -> 128 <= b1 <= 191 -> 128 <= b2 <= 191 -> 128 <= b3 <= 191 ->
  Z.lor (Z.lor (Z.lor (Z.shiftl (Z.land b0 7) 18) (Z.shiftl (Z.land b1 63) 12))
               (Z.shiftl (Z.land b2 63) 6))
        (Z.land b3 63)
  = (b0 - 240) * 262144 + (b1 - 128) * 4096 + (b2 - 128) * 64 + (b3 - 128).
Proof.
  intros H0 H1 H2 H3. bits_to_arith.
  replace (b0 mod 8) with (b0 - 240) by (apply (Z.mod_unique b0 8 30); lia).
  replace (b1 mod 64) with (b1 - 128) by (apply (Z.mod_unique b1 64 2); lia).
  replace (b2 mod 64) with (b2 - 128) by (apply (Z.mod_unique b2 64 2); lia).
  replace (b3 mod 64) with (b3 - 128) by (apply (Z.mod_unique b3 64 2); lia).
  replace ((b1 - 128) * 4096) with (((b1 - 128) * 64) * 64) by lia.
  replace ((b0 - 240) * 262144) with (((b0 - 240) * 4096) * 64) by lia.
  rewrite <- Z.mul_add_distr_r.
  replace ((b0 - 240) * 4096 * 64 + (b1 - 128) * 64 * 64)
    with (((b0 - 240) * 4096 + (b1 - 128) * 64) * 64) by lia.
  replace ((b0 - 240) * 4096 * 64) with ((b0 - 240) * 262144) by lia.
  rewrite lor_add_262144 by lia.
  replace ((b0 - 240) * 262144 + (b1 - 128) * 64 * 64)
    with (((b0 - 240) * 64 + (b1 - 128)) * 4096) by lia.
  rewrite lor_add_4096 by lia.
  replace (((b0 - 240) * 64 + (b1 - 128)) * 4096 + (b2 - 128) * 64)
    with ((((b0 - 240) * 64 + (b1 - 128)) * 64 + (b2 - 128)) * 64) by lia.
  rewrite lor_add_64 by lia. lia.
Qed.

Ltac zsimp :=
  repeat (match goal with
    | |- context [?a <=? ?b] =>
        first [ rewrite (proj2 (Z.leb_le a b)) by lia
              | rewrite (proj2 (Z.leb_gt a b)) by lia ]
    | |- context [?a <? ?b] =>
        first [ rewrite (proj2 (Z.ltb_lt a b)) by lia
              | rewrite (proj2 (Z.ltb_ge a b)) by lia ]
    | |- context [?a =? ?b] =>
        first [ rewrite (proj2 (Z.eqb_eq a b)) by lia
              | rewrite (proj2 (Z.eqb_neq a b)) by lia ]
    end; cbn [andb orb negb]).

Lemma byteChar_byte_of c : byteChar (byte_of c) = c.
Proof.
  unfold byteChar. pose proof (byte_of_range c).
  rewrite Z.mod_small by lia. unfold byte_of.
  rewrite N2Z.id. apply ascii_N_embedding.
Qed.

Lemma byte_of_byteChar b : 0 <= b < 256 -> byte_of (byteChar b) = b.
Proof.
  intros H. unfold byteChar. rewrite Z.mod_small by lia.
  now apply byte_of_ascii_of.
Qed.

Lemma EncodeRune_1 r : 0 <= r <= 127 -> EncodeRune r = bytesOf [r].
Proof. intros H. unfold EncodeRune. zsimp. reflexivity. Qed.

Lemma EncodeRune_2 r :
  128 <= r <= 2047 ->
  EncodeRune r = bytesOf [192 + r / 64; 128 + r mod 64].
Proof.
  intros H. unfold EncodeRune. zsimp. bits_to_arith.
  rewrite lor_192, lor_128; [reflexivity | |];
    [apply Z.mod_pos_bound; lia | split; [apply Z.div_pos; lia | apply Z.div_lt_upper_bound; lia]].
Qed.

Lemma EncodeRune_3 r :
  2048 <= r <= 65535 -> ~ (55296 <= r <= 57343) ->
  EncodeRune r
  = bytesOf [224 + r / 4096; 128 + (r / 64) mod 64; 128 + r mod 64].
Proof.
  intros H Hs. unfold EncodeRune, inRange. zsimp.
  assert (E : ((55296 <=? r) && (r <=? 57343)) = false).
  { destruct (Z.leb_spec 55296 r); destruct (Z.leb_spec r 57343);
      try reflexivity. lia. }
  rewrite E. zsimp. bits_to_arith.
  rewrite lor_224, !lor_128; [reflexivity | | |];
    try (apply Z.mod_pos_bound; lia).
  split; [apply Z.div_pos; lia | apply Z.div_lt_upper_bound; lia].
Qed.

Lemma EncodeRune_4 r :
  65536 <= r <= 1114111 ->
  EncodeRune r
  = bytesOf [240 + r / 262144; 128 + (r / 4096) mod 64;
             128 + (r / 64) mod 64; 128 + r mod 64].
Proof.
  intros H. unfold EncodeRune, inRange. zsimp. bits_to_arith.
  rewrite lor_240, !lor_128; [reflexivity | | | |];
    try (apply Z.mod_pos_bound; lia).
  split; [apply Z.div_pos; lia | apply Z.div_lt_upper_bound; lia].
Qed.

Lemma decode_2 c0 c1 t :
  194 <= byte_of c0 <= 223 -> 128 <= byte_of c1 <= 191 ->
  DecodeRuneInString (takeBytes 4 (String c0 (String c1 t)))
  = ((byte_of c0 - 192) * 64 + (byte_of c1 - 128), 2%nat).
Proof.
  intros H0 H1. cbn [takeBytes]. unfold DecodeRuneInString, leadInfo, inRange.
  zsimp. cbn [String.length Nat.ltb Nat.leb].
  rewrite rune2_value by lia. reflexivity.
Qed.

Lemma decode_3 c0 c1 c2 t :
  lead3 (byte_of c0) (byte_of c1) -> 128 <= byte_of c2 <= 191 ->
  DecodeRuneInString (takeBytes 4 (String c0 (String c1 (String c2 t))))
  = ((byte_of c0 - 224) * 4096 + (byte_of c1 - 128) * 64 + (byte_of c2 - 128),
     3%nat).
Proof.
  intros H0 H2. cbn [takeBytes].
  unfold DecodeRuneInString, leadInfo, inRange, isCont, inRange.
  destruct H0 as [[E H1] | [[[H0|H0] H1] | [E H1]]]; zsimp;
    cbn [String.length Nat.ltb Nat.leb negb]; zsimp;
    rewrite rune3_value by lia; reflexivity.
Qed.

Lemma decode_4 c0 c1 c2 c3 t :
  lead4 (byte_of c0) (byte_of c1) ->
  128 <= byte_of c2 <= 191 -> 128 <= byte_of c3 <= 191 ->
  DecodeRuneInString
    (takeBytes 4 (String c0 (String c1 (String c2 (String c3 t)))))
  = ((byte_of c0 - 240) * 262144 + (byte_of c1 - 128) * 4096
     + (byte_of c2 - 128) * 64 + (byte_of c3 - 128), 4%nat).
Proof.
  intros H0 H2 H3. cbn [takeBytes].
  unfold DecodeRuneInString, leadInfo, inRange, isCont, inRange.
  destruct H0 as [[E H1] | [[H0 H1] | [E H1]]]; zsimp;
    cbn [String.length Nat.ltb Nat.leb negb]; zsimp;
    rewrite rune4_value by lia; reflexivity.
Qed.

Lemma bytesOf_2 c0 c1 : bytesOf [byte_of c0; byte_of c1] = String c0 (String c1 "").
Proof. unfold bytesOf. cbn. now rewrite !byteChar_byte_of. Qed.

Lemma bytesOf_3 c0 c1 c2 :
  bytesOf [byte_of c0; byte_of c1; byte_of c2]
  = String c0 (String c1 (String c2 "")).
Proof. unfold bytesOf. cbn. now rewrite !byteChar_byte_of. Qed.

Lemma bytesOf_4 c0 c1 c2 c3 :
  bytesOf [byte_of c0; byte_of c1; byte_of c2; byte_of c3]
  = String c0 (String c1 (String c2 (String c3 ""))).
Proof. unfold bytesOf. cbn. now rewrite !byteChar_byte_of. Qed.

Lemma encode_decode_2 c0 c1 :
  194 <= byte_of c0 <= 223 -> 128 <= byte_of c1 <= 191 ->
  EncodeRune ((byte_of c0 - 192) * 64 + (byte_of c1 - 128))
  = String c0 (String c1 "").
Proof.
  intros H0 H1. rewrite EncodeRune_2 by lia.
  rewrite <- bytesOf_2. repeat f_equal; Z.div_mod_to_equations; lia.
Qed.

Lemma encode_decode_3 c0 c1 c2 :
  lead3 (byte_of c0) (byte_of c1) -> 128 <= byte_of c2 <= 191 ->
  EncodeRune ((byte_of c0 - 224) * 4096 + (byte_of c1 - 128) * 64
              + (byte_of c2 - 128))
  = String c0 (String c1 (String c2 "")).
Proof.
  intros H0 H2. unfold lead3 in H0.
  rewrite EncodeRune_3 by lia.
  rewrite <- bytesOf_3. repeat f_equal; Z.div_mod_to_equations; lia.
Qed.

Lemma encode_decode_4 c0 c1 c2 c3 :
  lead4 (byte_of c0) (byte_of c1) ->
  128 <= byte_of c2 <= 191 -> 128 <= byte_of c3 <= 191 ->
  EncodeRune ((byte_of c0 - 240) * 262144 + (byte_of c1 - 128) * 4096
              + (byte_of c2 - 128) * 64 + (byte_of c3 - 128))
  = String c0 (String c1 (String c2 (String c3 ""))).
Proof.
  intros H0 H2 H3. unfold lead4 in H0.
  rewrite EncodeRune_4 by lia.
  rewrite <- bytesOf_4. repeat f_equal; Z.div_mod_to_equations; lia.
Qed.

Ltac decode_fails :=
  cbn [takeBytes];
  unfold DecodeRuneInString, leadInfo, inRange, isCont, inRange;
  zsimp; cbn [String.length Nat.ltb Nat.leb negb]; zsimp; reflexivity.

Ltac decode_case :=
  first
    [ left; decode_fails
    | right; left; do 2 eexists; split; [reflexivity | lia]
    | right; right; left; do 3 eexists; split; [reflexivity | unfold lead3; lia]
    | right; right; right; do 4 eexists; split; [reflexivity | unfold lead4; lia] ].

Lemma decode_cases c0 r0 :
  128 <= byte_of c0 ->
  DecodeRuneInString (takeBytes 4 (String c0 r0)) = (RuneError, 1%nat)
  \/ (exists c1 t, r0 = String c1 t
        /\ 194 <= byte_of c0 <= 223 /\ 128 <= byte_of c1 <= 191)
  \/ (exists c1 c2 t, r0 = String c1 (String c2 t)
        /\ lead3 (byte_of c0) (byte_of c1) /\ 128 <= byte_of c2 <= 191)
  \/ (exists c1 c2 c3 t, r0 = String c1 (String c2 (String c3 t))
        /\ lead4 (byte_of c0) (byte_of c1)
        /\ 128 <= byte_of c2 <= 191 /\ 128 <= byte_of c3 <= 191).
Proof.
  intros H.
  assert (C0 : byte_of c0 <= 193 \/ 194 <= byte_of c0 <= 223
               \/ byte_of c0 = 224 \/ 225 <= byte_of c0 <= 236
               \/ byte_of c0 = 237 \/ 238 <= byte_of c0 <= 239
               \/ byte_of c0 = 240 \/ 241 <= byte_of c0 <= 243
               \/ byte_of c0 = 244 \/ 245 <= byte_of c0) by lia.
  assert (split1 : forall b, b < 128 \/ 128 <= b <= 143 \/ 144 <= b <= 159
                             \/ 160 <= b <= 191 \/ 192 <= b) by (intros; lia).
  assert (split2 : forall b, 128 <= b <= 191 \/ b < 128 \/ 192 <= b)
    by (intros; lia).
  destruct C0 as [C|[C|[C|[C|[C|[C|[C|[C|[C|C]]]]]]]]].
  1, 10: decode_case.
  - destruct r0 as [|c1 t]; [decode_case|].
    destruct (split1 (byte_of c1)) as [D|[D|[D|[D|D]]]]; decode_case.
  - destruct r0 as [|c1 [|c2 t]]; [decode_case | decode_case |].
    destruct (split1 (byte_of c1)) as [D|[D|[D|[D|D]]]];
    destruct (split2 (byte_of c2)) as [E|[E|E]]; decode_case.
  - destruct r0 as [|c1 [|c2 t]]; [decode_case | decode_case |].
    destruct (split1 (byte_of c1)) as [D|[D|[D|[D|D]]]];
    destruct (split2 (byte_of c2)) as [E|[E|E]]; decode_case.
  - destruct r0 as [|c1 [|c2 t]]; [decode_case | decode_case |].
    destruct (split1 (byte_of c1)) as [D|[D|[D|[D|D]]]];
    destruct (split2 (byte_of c2)) as [E|[E|E]]; decode_case.
  - destruct r0 as [|c1 [|c2 t]]; [decode_case | decode_case |].
    destruct (split1 (byte_of c1)) as [D|[D|[D|[D|D]]]];
    destruct (split2 (byte_of c2)) as [E|[E|E]]; decode_case.
  - destruct r0 as [|c1 [|c2 [|c3 t]]];
      [decode_case | decode_case | decode_case |].
    destruct (split1 (byte_of c1)) as [D|[D|[D|[D|D]]]];
    destruct (split2 (byte_of c2)) as [E|[E|E]];
    destruct (split2 (byte_of c3)) as [F|[F|F]]; decode_case.
  - destruct r0 as [|c1 [|c2 [|c3 t]]];
      [decode_case | decode_case | decode_case |].
    destruct (split1 (byte_of c1)) as [D|[D|[D|[D|D]]]];
    destruct (split2 (byte_of c2)) as [E|[E|E]];
    destruct (split2 (byte_of c3)) as [F|[F|F]]; decode_case.
  - destruct r0 as [|c1 [|c2 [|c3 t]]];
      [decode_case | decode_case | decode_case |].
    destruct (split1 (byte_of c1)) as [D|[D|[D|[D|D]]]];
    destruct (split2 (byte_of c2)) as [E|[E|E]];
    destruct (split2 (byte_of c3)) as [F|[F|F]]; decode_case.
Qed.

Lemma unquote_ascii c tail m :
  byte_of c < 128 ->
  unquoteLoop (S m)
    ((if htmlSafe (byte_of c) then String c "" else escapeByte (byte_of c))
     ++ tail)
  = consTo c (unquoteLoop m tail).
Proof.
  intros H.
  destruct c as [b0 b1 b2 b3 b4 b5 b6 b7].
  destruct b7; [destruct b0, b1, b2, b3, b4, b5, b6; vm_compute in H; discriminate H|].
  clear H.
  destruct b0, b1, b2, b3, b4, b5, b6; reflexivity.
Qed.

Lemma append_assoc_s (a b c : string) : (a ++ b) ++ c = a ++ (b ++ c).
Proof. induction a as [|x a IH]; cbn; [reflexivity | now rewrite IH]. Qed.

Lemma append_nil_r (a : string) : a ++ "" = a.
Proof. induction a as [|x a IH]; cbn; [reflexivity | now rewrite IH]. Qed.

Lemma length_append_s (a b : string) :
  String.length (a ++ b) = (String.length a + String.length b)%nat.
Proof. induction a as [|x a IH]; cbn; [reflexivity | now rewrite IH]. Qed.

Lemma ascii_unit_length b c :
  (1 <= String.length (if htmlSafe b then String c "" else escapeByte b))%nat.
Proof.
  destruct (htmlSafe b); [cbn; lia|]. unfold escapeByte.
  repeat match goal with
  | |- context [if ?x then _ else _] => destruct x
  end; cbn; lia.
Qed.

Lemma unquote_fffd m tail :
  unquoteLoop (S m) (backslash ++ "ufffd" ++ tail)
  = appTo (EncodeRune RuneError) (unquoteLoop m tail).
Proof. reflexivity. Qed.

Lemma unquote_2028 m tail :
  unquoteLoop (S m) (backslash ++ "u202" ++ hexDigit (Z.land 8232 15) ++ tail)
  = appTo (EncodeRune 8232) (unquoteLoop m tail).
Proof. reflexivity. Qed.

Lemma unquote_2029 m tail :
  unquoteLoop (S m) (backslash ++ "u202" ++ hexDigit (Z.land 8233 15) ++ tail)
  = appTo (EncodeRune 8233) (unquoteLoop m tail).
Proof. reflexivity. Qed.

Lemma unquote_multibyte c0 r0 m :
  128 <= byte_of c0 ->
  unquoteLoop (S m) (String c0 r0)
  = appTo (EncodeRune (fst (DecodeRuneInString (takeBytes 4 (String c0 r0)))))
          (unquoteLoop m
             (dropBytes (snd (DecodeRuneInString (takeBytes 4 (String c0 r0))))
                        (String c0 r0))).
Proof.
  intros H. cbn [unquoteLoop]. zsimp.
  now destruct (DecodeRuneInString (takeBytes 4 (String c0 r0))).
Qed.

Ltac len_solve :=
  cbn [String.length quote backslash] in *;
  repeat rewrite length_append_s in *;
  cbn [String.length quote backslash] in *; lia.

Lemma unquote_appendString :
  forall n s m rest,
    (String.length s <= n)%nat ->
    (String.length (appendStringLoop n s ++ quote ++ rest) < m)%nat ->
    unquoteLoop m (appendStringLoop n s ++ quote ++ rest)
    = Some (coerceLoop n s, rest).
Proof.
  assert (Hend : forall m rest, (0 < m)%nat ->
            unquoteLoop m (quote ++ rest) = Some ("", rest)).
  { intros [|m] rest Hm; [lia | reflexivity]. }
  induction n as [|n IH]; intros s m rest Hn Hm.
  - cbn [appendStringLoop coerceLoop]. apply Hend. lia.
  - destruct s as [|c r].
    + cbn [appendStringLoop coerceLoop]. apply Hend. lia.
    + cbn [String.length] in Hn. cbn [appendStringLoop coerceLoop] in *.
      destruct (byte_of c <? 128) eqn:Hb.
      * apply Z.ltb_lt in Hb.
        rewrite append_assoc_s in *.
        rewrite length_append_s in Hm.
        pose proof (ascii_unit_length (byte_of c) c).
        destruct m as [|m]; [lia|].
        rewrite unquote_ascii by assumption.
        rewrite IH by len_solve. reflexivity.
      * apply Z.ltb_ge in Hb.
        destruct (decode_cases c r ltac:(lia))
          as [E | [(c1 & t & -> & H0 & H1)
             | [(c1 & c2 & t & -> & H0 & H2)
               | (c1 & c2 & c3 & t & -> & H0 & H2 & H3)]]].
        -- rewrite E in *. cbn [Z.eqb RuneError Nat.eqb andb Pos.eqb] in *.
           rewrite !append_assoc_s in *.
           rewrite !length_append_s in Hm. cbn [String.length backslash] in Hm.
           destruct m as [|m]; [lia|].
           rewrite unquote_fffd. rewrite IH by len_solve. reflexivity.
        -- rewrite decode_2 in * by assumption.
           cbn [Nat.eqb] in *. rewrite andb_false_r in *.
           replace (((byte_of c - 192) * 64 + (byte_of c1 - 128) =? 8232)
                    || ((byte_of c - 192) * 64 + (byte_of c1 - 128) =? 8233))
             with false in * by (zsimp; reflexivity).
           cbn [takeBytes dropBytes String.append] in *.
           cbn [String.length] in Hm, Hn.
           destruct m as [|m]; [lia|].
           rewrite unquote_multibyte by lia.
           change (String c (String c1 (appendStringLoop n t ++ quote ++ rest)))
             with (String c (String c1 (appendStringLoop n t ++ quote ++ rest))).
           rewrite decode_2 by assumption. cbn [fst snd dropBytes].
           rewrite encode_decode_2 by assumption.
           rewrite IH by len_solve. reflexivity.
        -- pose proof (encode_decode_3 _ _ _ H0 H2) as Henc.
           rewrite decode_3 in * by assumption.
           set (rune := (byte_of c - 224) * 4096 + (byte_of c1 - 128) * 64
                        + (byte_of c2 - 128)) in *.
           cbn [Nat.eqb] in *. rewrite andb_false_r in *.
           cbn [takeBytes dropBytes] in *.
           cbn [String.length] in Hn.
           destruct (rune =? 8232) eqn:E1;
             [| destruct (rune =? 8233) eqn:E2]; cbn [orb] in *.
           ++ apply Z.eqb_eq in E1. rewrite E1 in *.
              rewrite !append_assoc_s in *.
              destruct m as [|m]; [len_solve|].
              rewrite unquote_2028, Henc.
              rewrite IH by len_solve. reflexivity.
           ++ apply Z.eqb_eq in E2. rewrite E2 in *.
              rewrite !append_assoc_s in *.
              destruct m as [|m]; [len_solve|].
              rewrite unquote_2029, Henc.
              rewrite IH by len_solve. reflexivity.
           ++ cbn [String.append] in *.
              destruct m as [|m]; [len_solve|].
              rewrite unquote_multibyte by lia.
              rewrite decode_3 by assumption. cbn [fst snd dropBytes].
              fold rune. rewrite Henc.
              rewrite IH by len_solve. reflexivity.
        -- pose proof (encode_decode_4 _ _ _ _ H0 H2 H3) as Henc.
           rewrite decode_4 in * by assumption.
           set (rune := (byte_of c - 240) * 262144 + (byte_of c1 - 128) * 4096
                        + (byte_of c2 - 128) * 64 + (byte_of c3 - 128)) in *.
           cbn [Nat.eqb] in *. rewrite andb_false_r in *.
           assert (Hr : 65536 <= rune) by (unfold rune, lead4 in *; lia).
           replace ((rune =? 8232) || (rune =? 8233)) with false in *
             by (zsimp; reflexivity).
           cbn [takeBytes dropBytes String.append] in *.
           cbn [String.length] in Hn.
           destruct m as [|m]; [len_solve|].
           rewrite unquote_multibyte by lia.
           rewrite decode_4 by assumption. cbn [fst snd dropBytes].
           fold rune. rewrite Henc.
           rewrite IH by len_solve. reflexivity.
Qed.

Lemma coerce_valid s :
  ValidUTF8 s -> forall n, (String.length s <= n)%nat -> coerceLoop n s = s.
Proof.
  induction 1 as [| c s Hc _ IH | c0 c1 s H0 H1 _ IH
                 | c0 c1 c2 s H0 H2 _ IH | c0 c1 c2 c3 s H0 H2 H3 _ IH];
    intros n Hn; cbn [String.length] in Hn.
  - now destruct n.
  - destruct n as [|n]; [lia|]. cbn [coerceLoop]. zsimp.
    now rewrite IH by lia.
  - destruct n as [|n]; [lia|]. cbn [coerceLoop]. zsimp.
    rewrite decode_2 by assumption. cbn [Nat.eqb]. rewrite andb_false_r.
    cbn [takeBytes dropBytes String.append]. now rewrite IH by lia.
  - destruct n as [|n]; [lia|]. cbn [coerceLoop].
    assert (128 <= byte_of c0) by (unfold lead3 in H0; lia). zsimp.
    rewrite decode_3 by assumption. cbn [Nat.eqb]. rewrite andb_false_r.
    cbn [takeBytes dropBytes String.append]. now rewrite IH by lia.
  - destruct n as [|n]; [lia|]. cbn [coerceLoop].
    assert (128 <= byte_of c0) by (unfold lead4 in H0; lia). zsimp.
    rewrite decode_4 by assumption. cbn [Nat.eqb]. rewrite andb_false_r.
    cbn [takeBytes dropBytes String.append]. now rewrite IH by lia.
Qed.

Lemma toValidUTF8_valid s : ValidUTF8 s -> toValidUTF8 s = s.
Proof. intros H. apply coerce_valid; [exact H | lia]. Qed.

Lemma unquote_appendString_full s rest :
  unquote (appendStringLoop (String.length s) s ++ quote ++ rest)
  = Some (toValidUTF8 s, rest).
Proof. unfold unquote. apply unquote_appendString; lia. Qed.

(** ** White space and numbers *)

Lemma skipSpace_idem s : skipSpace (skipSpace s) = skipSpace s.
Proof.
  induction s as [|c r IH]; cbn; [reflexivity|].
  destruct (isSpace c) eqn:E; [exact IH | cbn; now rewrite E].
Qed.

Lemma skipSpace_repeat d s : skipSpace (Repeat "  " d ++ s) = skipSpace s.
Proof. induction d as [|d IH]; cbn; [reflexivity | exact IH]. Qed.

Lemma skipSpace_newline d s : skipSpace (newline d ++ s) = skipSpace s.
Proof.
  unfold newline. rewrite append_assoc_s. cbn. apply skipSpace_repeat.
Qed.

Lemma parseValue_skip fuel s : parseValue fuel (skipSpace s) = parseValue fuel s.
Proof. destruct fuel; cbn; [reflexivity | now rewrite skipSpace_idem]. Qed.

Lemma parseFields_skip fuel s : parseFields fuel (skipSpace s) = parseFields fuel s.
Proof. destruct fuel; cbn; [reflexivity | now rewrite skipSpace_idem]. Qed.

Lemma parseItems_skip fuel s : parseItems fuel (skipSpace s) = parseItems fuel s.
Proof.
  destruct fuel; cbn [parseItems]; [reflexivity | now rewrite parseValue_skip].
Qed.

Lemma spanNumber_lit lit rest :
  Forall (fun c => isNumberChar c = true) (chars lit) -> endsNumber rest ->
  spanNumber (lit ++ rest) = (lit, rest).
Proof.
  induction lit as [|c l IH]; cbn [chars String.append]; intros HF HR.
  - destruct rest as [|c r]; [reflexivity|]. cbn in *. now rewrite HR.
  - inversion HF as [|? ? Hc HF']; subst. cbn [spanNumber].
    now rewrite Hc, IH.
Qed.

(** ** Values *)

Lemma JSON_nested_ind (P : JSON -> Prop) :
  P JNull -> (forall b, P (JBool b)) -> (forall lit, P (JNum lit)) ->
  (forall s, P (JStr s)) ->
  (forall items, Forall P items -> P (JArr items)) ->
  (forall fields, Forall (fun kv => P (snd kv)) fields -> P (JObj fields)) ->
  forall v, P v.
Proof.
  intros HN HB HL HS HA HO.
  fix IH 1. intros [| b | lit | s | items | fields].
  - apply HN.
  - apply HB.
  - apply HL.
  - apply HS.
  - apply HA. induction items as [|x r IHl]; constructor; [apply IH | apply IHl].
  - apply HO. induction fields as [|[k x] r IHl]; constructor;
      [apply IH | apply IHl].
Qed.

Lemma indented_arr d x r :
  indented d (JArr (x :: r))
  = "[" ++ indentedItems d (x :: r) true ++ newline d ++ "]".
Proof.
  cbn [indented indentedItems]. do 5 f_equal.
  match goal with
  | |- ?go r false = _ =>
      assert (E : forall l b, go l b = indentedItems d l b)
  end.
  { induction l as [|y l IH]; intros b; cbn [indentedItems];
      [reflexivity | rewrite <- IH; reflexivity]. }
  apply E.
Qed.

Lemma indented_obj d kx r :
  indented d (JObj (kx :: r))
  = "{" ++ indentedFields d (kx :: r) true ++ newline d ++ "}".
Proof.
  destruct kx as [k x]. cbn [indented indentedFields]. do 7 f_equal.
  match goal with
  | |- ?go r false = _ =>
      assert (E : forall l b, go l b = indentedFields d l b)
  end.
  { induction l as [|[k' y] l IH]; intros b; cbn [indentedFields];
      [reflexivity | rewrite <- IH; reflexivity]. }
  apply E.
Qed.

Lemma need_arr l : need (JArr l) = S (needItems l).
Proof. reflexivity. Qed.

Lemma need_obj l : need (JObj l) = S (needFields l).
Proof. reflexivity. Qed.

Lemma coerce_obj l : coerceJSON (JObj l) = JObj (coerceFields l).
Proof. reflexivity. Qed.

Lemma numberChar_props c :
  isNumberChar c = true ->
  isSpace c = false /\ (byte_of c =? 34) = false /\ (byte_of c =? 91) = false
  /\ (byte_of c =? 123) = false /\ (byte_of c =? 93) = false
  /\ (byte_of c =? 125) = false.
Proof.
  unfold isNumberChar, isSpace, inRange. intros H.
  repeat split;
    repeat match goal with
    | |- context [?a =? ?b] => destruct (Z.eqb_spec a b)
    | H : context [?a =? ?b] |- _ => destruct (Z.eqb_spec a b)
    | H : context [?a <=? ?b] |- _ => destruct (Z.leb_spec a b)
    end; cbn in *; try reflexivity; try discriminate; lia.
Qed.

Lemma first_char d v :
  WfJSON v ->
  exists c r, indented d v = String c r /\ isSpace c = false
              /\ (byte_of c =? 93) = false /\ (byte_of c =? 125) = false.
Proof.
  intros H. destruct H as [| b | lit [Hne HF] | s | items _ | fields _].
  - do 2 eexists. split; [reflexivity|]. repeat split.
  - destruct b; do 2 eexists; (split; [reflexivity|]); repeat split.
  - destruct lit as [|c l]; [congruence|]. inversion HF; subst.
    exists c, l. split; [reflexivity|].
    destruct (numberChar_props c) as (? & ? & ? & ? & ? & ?); auto.
  - do 2 eexists. split; [reflexivity|]. repeat split.
  - destruct items; do 2 eexists; (split; [reflexivity|]); repeat split.
  - destruct fields as [|[k x] r]; do 2 eexists; (split; [reflexivity|]);
      repeat split.
Qed.

Lemma skipSpace_value d v rest :
  WfJSON v -> skipSpace (indented d v ++ rest) = indented d v ++ rest.
Proof.
  intros H. destruct (first_char d v H) as (c & r & E & Hs & _).
  rewrite E. cbn. now rewrite Hs.
Qed.

Lemma comma_ends s : endsNumber ("," ++ s).
Proof. reflexivity. Qed.

Lemma newline_ends d s : endsNumber (newline d ++ s).
Proof. reflexivity. Qed.

Lemma parseValue_string fuel s rest :
  parseValue (S fuel) (appendString s ++ rest)
  = Some (JStr (toValidUTF8 s), rest).
Proof.
  unfold appendString. rewrite !append_assoc_s.
  change (parseValue (S fuel)
            (quote ++ appendStringLoop (String.length s) s ++ quote ++ rest))
    with (match unquote (appendStringLoop (String.length s) s ++ quote ++ rest)
          with
          | Some (t, rest0) => Some (JStr t, rest0)
          | None => None
          end).
  now rewrite unquote_appendString_full.
Qed.

Lemma parseValue_array fuel body c r :
  skipSpace body = String c r -> (byte_of c =? 93) = false ->
  parseValue (S fuel) ("[" ++ body)
  = match parseItems fuel body with
    | Some (items, rest) => Some (JArr items, rest)
    | None => None
    end.
Proof.
  intros Hs Hc.
  change (parseValue (S fuel) ("[" ++ body))
    with (match skipSpace body with
          | String c' r' =>
              if byte_of c' =? 93 then Some (JArr [], r')
              else match parseItems fuel body with
                   | Some (items, rest) => Some (JArr items, rest)
                   | None => None
                   end
          | EmptyString => None
          end).
  now rewrite Hs, Hc.
Qed.

Lemma parseValue_object fuel body c r :
  skipSpace body = String c r -> (byte_of c =? 125) = false ->
  parseValue (S fuel) ("{" ++ body)
  = match parseFields fuel body with
    | Some (fields, rest) => Some (JObj fields, rest)
    | None => None
    end.
Proof.
  intros Hs Hc.
  change (parseValue (S fuel) ("{" ++ body))
    with (match skipSpace body with
          | String c' r' =>
              if byte_of c' =? 125 then Some (JObj [], r')
              else match parseFields fuel body with
                   | Some (fields, rest) => Some (JObj fields, rest)
                   | None => None
                   end
          | EmptyString => None
          end).
  now rewrite Hs, Hc.
Qed.

(** The items of an array from behind the bracket or a comma. *)
Lemma parse_items d :
  forall items,
    Forall (fun v => WfJSON v ->
              forall depth fuel rest,
                (need v <= fuel)%nat -> endsNumber rest ->
                parseValue fuel (indented depth v ++ rest)
                = Some (coerceJSON v, rest)) items ->
    Forall WfJSON items ->
    forall x fuel rest,
      WfJSON x ->
      (forall depth fuel rest,
         (need x <= fuel)%nat -> endsNumber rest ->
         parseValue fuel (indented depth x ++ rest) = Some (coerceJSON x, rest)) ->
      (needItems (x :: items) <= fuel)%nat ->
      parseItems fuel
        (newline (S d) ++ indented (S d) x ++ indentedItems d items false
         ++ newline d ++ "]" ++ rest)
      = Some (map coerceJSON (x :: items), rest).
Proof.
  induction items as [|y r IHr]; intros HP HW x fuel rest Hx Px Hfuel;
    cbn [needItems] in Hfuel; (destruct fuel as [|fuel]; [lia|]);
    cbn [parseItems]; rewrite <- parseValue_skip, skipSpace_newline,
      skipSpace_value by assumption.
  - cbn [indentedItems String.append].
    rewrite Px by (try lia; apply newline_ends).
    rewrite skipSpace_newline. reflexivity.
  - cbn [indentedItems]. rewrite !append_assoc_s.
    rewrite Px by (try lia; apply comma_ends).
    inversion HP as [|? ? Py HP']; inversion HW as [|? ? Hy HW']; subst.
    cbn [String.append skipSpace isSpace].
    change (skipSpace ("," ++ ?z)) with ("," ++ z).
    cbn -[parseItems newline indented indentedItems].
    change (String "]"%char rest) with ("]" ++ rest).
    rewrite IHr; auto.
    cbn [needItems]. lia.
Qed.

Lemma parseFields_step fuel s r0 k r2 :
  skipSpace s = quote ++ r0 -> unquote r0 = Some (k, ":" ++ r2) ->
  parseFields (S fuel) s
  = match parseValue fuel r2 with
    | None => None
    | Some (x, rest) =>
        match skipSpace rest with
        | String c r =>
            if byte_of c =? 125 then Some ([(k, x)], r)
            else if byte_of c =? 44 then
              match parseFields fuel r with
              | Some (fields, rest') => Some ((k, x) :: fields, rest')
              | None => None
              end
            else None
        | EmptyString => None
        end
    end.
Proof.
  intros Hs Hu. cbn [parseFields]. rewrite Hs.
  cbn [quote String.append].
  change (byte_of "034" =? 34) with true. cbv iota. rewrite Hu.
  reflexivity.
Qed.

(** The fields of an object from behind the brace or a comma. *)
Lemma parse_fields d :
  forall fields,
    Forall (fun kv => WfJSON (snd kv) ->
              forall depth fuel rest,
                (need (snd kv) <= fuel)%nat -> endsNumber rest ->
                parseValue fuel (indented depth (snd kv) ++ rest)
                = Some (coerceJSON (snd kv), rest)) fields ->
    Forall (fun kv => WfJSON (snd kv)) fields ->
    forall k x fuel rest,
      WfJSON x ->
      (forall depth fuel rest,
         (need x <= fuel)%nat -> endsNumber rest ->
         parseValue fuel (indented depth x ++ rest) = Some (coerceJSON x, rest)) ->
      (needFields ((k, x) :: fields) <= fuel)%nat ->
      parseFields fuel
        (newline (S d) ++ appendString k ++ ": " ++ indented (S d) x
         ++ indentedFields d fields false ++ newline d ++ "}" ++ rest)
      = Some (coerceFields ((k, x) :: fields), rest).
Proof.
  induction fields as [|[k' y] r IHr]; intros HP HW k x fuel rest Hx Px Hfuel;
    cbn [needFields] in Hfuel; (destruct fuel as [|fuel]; [lia|]).
  - erewrite parseFields_step.
    2:{ rewrite skipSpace_newline. unfold appendString.
        rewrite !append_assoc_s. reflexivity. }
    2:{ rewrite unquote_appendString_full. reflexivity. }
    rewrite <- parseValue_skip.
    change (skipSpace (" " ++ ?z)) with (skipSpace z).
    cbn [String.append skipSpace].
    change (isSpace " ") with true. cbv iota.
    rewrite skipSpace_value by assumption.
    cbn [indentedFields String.append].
    rewrite Px by (try lia; apply newline_ends).
    rewrite skipSpace_newline. reflexivity.
  - erewrite parseFields_step.
    2:{ rewrite skipSpace_newline. unfold appendString.
        rewrite !append_assoc_s. reflexivity. }
    2:{ rewrite unquote_appendString_full. reflexivity. }
    rewrite <- parseValue_skip.
    cbn [String.append skipSpace].
    change (isSpace " ") with true. cbv iota.
    rewrite skipSpace_value by assumption.
    cbn [indentedFields]. rewrite !append_assoc_s.
    rewrite Px by (try lia; apply comma_ends).
    inversion HP as [|? ? Py HP']; inversion HW as [|? ? Hy HW']; subst.
    cbn [snd] in *.
    cbn -[parseFields newline indented indentedFields appendString].
    change (String "}"%char rest) with ("}" ++ rest).
    change (String ":"%char (String " "%char ?z)) with (": " ++ z).
    rewrite IHr; auto.
    cbn [needFields]. lia.
Qed.

Lemma parse_indented v :
  WfJSON v ->
  forall depth fuel rest,
    (need v <= fuel)%nat -> endsNumber rest ->
    parseValue fuel (indented depth v ++ rest) = Some (coerceJSON v, rest).
Proof.
  induction v as [| b | lit | s | items IH | fields IH] using JSON_nested_ind;
    intros Hwf depth fuel rest Hfuel Hrest.
  - destruct fuel as [|fuel]; [cbn in Hfuel; lia | reflexivity].
  - destruct fuel as [|fuel]; [cbn in Hfuel; lia |].
    destruct b; reflexivity.
  - destruct fuel as [|fuel]; [cbn in Hfuel; lia |].
    inversion Hwf as [| | ? [Hne HF] | | |]; subst.
    destruct lit as [|c l]; [congruence|].
    pose proof HF as HF0. inversion HF as [|? ? Hc HF']; subst.
    destruct (numberChar_props c Hc) as (Hs & H34 & H91 & H123 & _).
    cbn [indented parseValue String.append skipSpace].
    rewrite Hs, H34, H91, H123, Hc.
    change (String c (l ++ rest)) with (String c l ++ rest).
    now rewrite spanNumber_lit.
  - destruct fuel as [|fuel]; [cbn in Hfuel; lia |].
    cbn [indented coerceJSON]. apply parseValue_string.
  - inversion Hwf as [| | | | ? HW |]; subst.
    rewrite need_arr in Hfuel.
    destruct fuel as [|fuel]; [lia|].
    destruct items as [|x r]; [reflexivity|].
    inversion IH as [|? ? Px IH']; inversion HW as [|? ? Hx HW']; subst.
    rewrite indented_arr. rewrite !append_assoc_s.
    cbn [indentedItems]. rewrite !append_assoc_s.
    change ("" ++ ?z) with z.
    destruct (first_char (S depth) x Hx) as (c & t & E & Hs & H93 & _).
    erewrite parseValue_array;
      [| rewrite skipSpace_newline, skipSpace_value by assumption;
         rewrite E; reflexivity
       | exact H93].
    rewrite (parse_items depth r IH' HW' x fuel rest Hx (Px Hx)) by lia.
    reflexivity.
  - inversion Hwf as [| | | | | ? HW]; subst.
    rewrite need_obj in Hfuel. rewrite coerce_obj.
    destruct fuel as [|fuel]; [lia|].
    destruct fields as [|[k x] r]; [reflexivity|].
    inversion IH as [|? ? Px IH']; inversion HW as [|? ? Hx HW']; subst.
    cbn [snd] in *.
    rewrite indented_obj. rewrite !append_assoc_s.
    cbn [indentedFields]. rewrite !append_assoc_s.
    change ("" ++ ?z) with z.
    erewrite parseValue_object;
      [| rewrite skipSpace_newline; unfold appendString;
         rewrite !append_assoc_s; reflexivity
       | reflexivity].
    rewrite (parse_fields depth r IH' HW' k x fuel rest Hx (Px Hx)) by lia.
    reflexivity.
Qed.

Lemma numberLit_nonempty lit : numberLit lit -> (1 <= String.length lit)%nat.
Proof.
  intros [Hne _]. destruct lit; [congruence | cbn; lia].
Qed.

Lemma need_le_length v :
  WfJSON v -> forall d, (need v <= String.length (indented d v))%nat.
Proof.
  induction v as [| b | lit | s | items IH | fields IH] using JSON_nested_ind;
    intros Hwf d.
  - cbn. lia.
  - destruct b; cbn; lia.
  - inversion Hwf; subst. cbn [need indented].
    now apply numberLit_nonempty.
  - cbn [need indented]. unfold appendString.
    rewrite !length_append_s. cbn. lia.
  - inversion Hwf as [| | | | ? HW |]; subst. rewrite need_arr.
    destruct items as [|x r]; [cbn; lia|].
    rewrite indented_arr. rewrite !length_append_s.
    cbn [String.length].
    assert (H : forall l b, Forall (fun v => WfJSON v -> forall d,
                  (need v <= String.length (indented d v))%nat) l ->
                Forall WfJSON l ->
                (needItems l <= String.length (indentedItems d l b))%nat).
    { induction l as [|y l IHl]; intros b HP HF; [cbn; lia|].
      inversion HP; inversion HF; subst.
      cbn [needItems indentedItems]. rewrite !length_append_s.
      unfold newline at 1. rewrite length_append_s. cbn [nl String.length].
      specialize (IHl false ltac:(assumption) ltac:(assumption)).
      assert (need y <= String.length (indented (S d) y))%nat by auto.
      lia. }
    specialize (H (x :: r) true IH HW). lia.
  - inversion Hwf as [| | | | | ? HW]; subst. rewrite need_obj.
    destruct fields as [|kx r]; [cbn; lia|].
    rewrite indented_obj. rewrite !length_append_s.
    cbn [String.length].
    assert (H : forall l b, Forall (fun kv => WfJSON (snd kv) -> forall d,
                  (need (snd kv) <= String.length (indented d (snd kv)))%nat) l ->
                Forall (fun kv => WfJSON (snd kv)) l ->
                (needFields l <= String.length (indentedFields d l b))%nat).
    { induction l as [|[k y] l IHl]; intros b HP HF; [cbn; lia|].
      inversion HP; inversion HF; subst. cbn [snd] in *.
      cbn [needFields indentedFields]. rewrite !length_append_s.
      unfold newline at 1. rewrite length_append_s. cbn [nl String.length].
      specialize (IHl false ltac:(assumption) ltac:(assumption)).
      assert (need y <= String.length (indented (S d) y))%nat by auto.
      lia. }
    specialize (H (kx :: r) true IH HW). lia.
Qed.

(** A document written with [indented] and a final new line is read
    back as the value with its strings made valid UTF-8. *)
Lemma parseJSON_indented v :
  WfJSON v -> parseJSON (indented 0 v ++ nl) = Some (coerceJSON v).
Proof.
  intros Hwf. unfold parseJSON.
  rewrite parse_indented; [reflexivity | exact Hwf | | reflexivity].
  pose proof (need_le_length v Hwf 0). rewrite length_append_s. lia.
Qed.

(** ** Records *)

Lemma string_of_uint_number d :
  Forall (fun c => isNumberChar c = true) (chars (NilEmpty.string_of_uint d)).
Proof. induction d; cbn; constructor; auto. Qed.

Lemma itoa_number z : numberLit (itoa z).
Proof.
  unfold numberLit, itoa. split.
  - intros E. pose proof (DecimalZ.of_to z) as Hz.
    destruct (Z.to_int z) as [d|d] eqn:Hd; cbn in E; [|discriminate].
    destruct d; try discriminate. cbn in Hz. subst z. discriminate Hd.
  - destruct (Z.to_int z) as [d|d]; cbn.
    + apply string_of_uint_number.
    + constructor; [reflexivity | apply string_of_uint_number].
Qed.

Lemma itoa_read z :
  option_map Z.of_int (NilEmpty.int_of_string (itoa z)) = Some z.
Proof. unfold itoa. rewrite NilEmpty.isi. cbn. now rewrite DecimalZ.of_to. Qed.

Section RecordFacts.

Context {O : OutLib}.

Lemma marshalFileInfo_wf info : WfJSON (marshalFileInfo info).
Proof.
  unfold marshalFileInfo. apply WfObj.
  destruct (String.eqb (Content info) ""); cbn [app];
    repeat (constructor;
            [cbn [snd];
             first [apply WfStr | apply WfNum; apply itoa_number] |]);
    constructor.
Qed.

Lemma marshalFiles_wf fileInfos : WfJSON (marshalFiles fileInfos).
Proof.
  destruct fileInfos as [|i r]; [constructor|].
  unfold marshalFiles. constructor. apply Forall_map, Forall_forall.
  intros x _. apply marshalFileInfo_wf.
Qed.

Lemma jsonOutput_wf fileInfos stats :
  numberLit (jsonSeconds (Duration stats)) ->
  WfJSON (jsonOutput fileInfos stats).
Proof.
  intros H. unfold jsonOutput.
  apply WfObj. constructor; [cbn [snd]; apply marshalFiles_wf|].
  constructor; [cbn [snd] | constructor].
  apply WfObj.
  repeat (constructor;
          [cbn [snd];
           first [ apply WfStr
                 | apply WfNum; first [apply itoa_number | exact H] ] |]).
  constructor.
Qed.

Lemma unmarshal_marshal info :
  unmarshalFileInfo (coerceJSON (marshalFileInfo info)) = Some (coerceInfo info).
Proof.
  unfold marshalFileInfo, coerceInfo.
  destruct (String.eqb (Content info) "") eqn:E.
  - apply String.eqb_eq in E. rewrite E.
    cbn [coerceJSON app].
    change (toValidUTF8 "path") with "path".
    change (toValidUTF8 "size") with "size".
    change (toValidUTF8 "modified") with "modified".
    change (toValidUTF8 "relative_path") with "relative_path".
    unfold unmarshalFileInfo, intField, stringField.
    cbn -[toValidUTF8 itoa NilEmpty.int_of_string].
    rewrite itoa_read. reflexivity.
  - cbn [coerceJSON app].
    change (toValidUTF8 "path") with "path".
    change (toValidUTF8 "size") with "size".
    change (toValidUTF8 "modified") with "modified".
    change (toValidUTF8 "content") with "content".
    change (toValidUTF8 "relative_path") with "relative_path".
    unfold unmarshalFileInfo, intField, stringField.
    cbn -[toValidUTF8 itoa NilEmpty.int_of_string].
    rewrite itoa_read. reflexivity.
Qed.

Lemma unmarshalAll_marshal fileInfos :
  unmarshalAll (map coerceJSON (map marshalFileInfo fileInfos))
  = Some (map coerceInfo fileInfos).
Proof.
  induction fileInfos as [|i r IH]; [reflexivity|].
  cbn [map unmarshalAll]. now rewrite unmarshal_marshal, IH.
Qed.

Lemma readRecords_written fileInfos stats :
  numberLit (jsonSeconds (Duration stats)) ->
  readRecords (snd (writeJSONOutput fileInfos stats))
  = Some (map coerceInfo fileInfos).
Proof.
  intros H. unfold writeJSONOutput, readRecords. cbn [snd].
  rewrite parseJSON_indented by now apply jsonOutput_wf.
  unfold jsonOutput. cbn [coerceJSON].
  change (toValidUTF8 "files") with "files".
  change (toValidUTF8 "metadata") with "metadata".
  cbn [lookupField String.eqb Ascii.eqb Bool.eqb].
  unfold marshalFiles. destruct fileInfos as [|i r]; [reflexivity|].
  cbn [coerceJSON]. apply unmarshalAll_marshal.
Qed.

End RecordFacts.

(** C9, as the code has it: the document [writeJSONOutput] writes is
    read back as one record per record written, with the same size, and
    with every string in the form [encoding/json] gives it, each byte
    that is no UTF-8 replaced by U+FFFD; so a record whose relative path
    and content are valid UTF-8 comes back with the same relative path,
    size and content. *)
Theorem json_round_trip (O : OutLib) (fileInfos : list FileInfo)
    (stats : Stats) :
  numberLit (jsonSeconds (Duration stats)) ->
  readRecords (snd (writeJSONOutput fileInfos stats))
  = Some (map coerceInfo fileInfos)
  /\ Forall2 (fun info info' =>
                Size info' = Size info
                /\ (ValidUTF8 (RelativePath info) ->
                    RelativePath info' = RelativePath info)
                /\ (ValidUTF8 (Content info) -> Content info' = Content info))
             fileInfos (map coerceInfo fileInfos).
Proof.
  intros H. split; [now apply readRecords_written|].
  induction fileInfos as [|i r IH]; cbn [map]; constructor; [|exact IH].
  cbn [coerceInfo Size RelativePath Content].
  repeat split; apply toValidUTF8_valid.
Qed.

(** The record of [proj/a.go] in the example world. *)
Lemma json_round_trip_witness :
  readRecords
    (snd (writeJSONOutput (O := exampleOut)
            (fst (processFilesSequential (L := examplePaths) exampleWorld
                    ["proj/a.go"] "proj" false true zeroStats)) zeroStats))
  = Some (map coerceInfo
            (fst (processFilesSequential (L := examplePaths) exampleWorld
                    ["proj/a.go"] "proj" false true zeroStats))).
Proof.
  apply (json_round_trip exampleOut
           (fst (processFilesSequential (L := examplePaths) exampleWorld
                   ["proj/a.go"] "proj" false true zeroStats)) zeroStats).
  split; [discriminate | repeat constructor].
Defined.

(** C9 as stated fails: a content of the single byte 255 is written as
    the escape of U+FFFD and read back as the three bytes of U+FFFD. *)
Lemma json_round_trip_loses_bytes :
  option_map (map Content)
    (readRecords (snd (writeJSONOutput (O := exampleOut) [latin1Record]
                                       zeroStats)))
  = Some [String (ascii_of_nat 239)
            (String (ascii_of_nat 191) (String (ascii_of_nat 189) ""))]
  /\ option_map (map Content)
       (readRecords (snd (writeJSONOutput (O := exampleOut) [latin1Record]
                                          zeroStats)))
     <> Some (map Content [latin1Record]).
Proof.
  split; [vm_compute; reflexivity | vm_compute; discriminate].
Qed.

(** ** A parallel run that reorders

    Two workers over [proj/a.go] and [proj/c.txt]: the second worker
    sends its result first, and the records come back in the other
    order. *)
Lemma parallel_may_reorder :
  exists out,
    processFilesParallel (L := examplePaths) exampleWorld
      ["proj/a.go"; "proj/c.txt"] "proj" 2 false true zeroStats out
    /\ map Path (fst out) = ["proj/c.txt"; "proj/a.go"]
    /\ map Path (fst (processFilesSequential (L := examplePaths) exampleWorld
                        ["proj/a.go"; "proj/c.txt"] "proj" false true
                        zeroStats))
       = ["proj/a.go"; "proj/c.txt"].
Proof.
  eexists. split; [|split; [|reflexivity]].
  - eexists. split; [|split; [|reflexivity]].
    + pose proof (parSteps_front (L := examplePaths) exampleWorld
                    ["proj/a.go"; "proj/c.txt"] "proj") as front.
      unfold parInit. cbn [Z.to_nat Pos.to_nat Pos.iter_op Nat.add repeat].
      eapply front;
        [eapply StepSend; [reflexivity | cbn; lia] | cbn -[List.length]].
      eapply front;
        [eapply StepSend; [reflexivity | cbn; lia] | cbn -[List.length]].
      eapply front;
        [eapply StepClose; reflexivity | cbn -[List.length]].
      eapply front;
        [eapply (StepRecv _ _ _ 0); reflexivity | cbn -[List.length]].
      eapply front;
        [eapply (StepRecv _ _ _ 1); reflexivity | cbn -[List.length]].
      eapply front;
        [eapply (StepResult _ _ _ 1); [reflexivity | reflexivity | cbn; lia]
        | cbn -[List.length]].
      eapply front;
        [eapply (StepResult _ _ _ 0); [reflexivity | reflexivity | cbn; lia]
        | cbn -[List.length]].
      eapply front;
        [eapply (StepExit _ _ _ 0); reflexivity | cbn -[List.length]].
      eapply front;
        [eapply (StepExit _ _ _ 1); reflexivity | cbn -[List.length]].
      apply ParRefl.
    + cbn. repeat split. repeat constructor.
  - reflexivity.
Qed.

(** ** The examples of the pruned directory *)

(** The directory [.hidden] of the example tree, and the tree below
    [proj]. *)
Lemma hidden_directory_pruned_witness :
  filesFound (L := examplePaths) goOnly None None "proj/.hidden" hiddenDir = []
  /\ snd (fst (discover (L := examplePaths) (goOnlyAt "proj") None None
                        (exampleTreeNamed "proj") zeroStats))
     = ["proj/a.go"].
Proof.
  destruct hidden_directory_pruned as (H & _ & Hex & _).
  destruct (H examplePaths goOnly None None "proj/.hidden" ".hidden"
              (Some [EFile "b.go" 50 "2024-01-01 00:00:00"])
              (zeroStats, []) eq_refl eq_refl) as (_ & _ & E).
  split; [exact E | exact (Hex "proj" "proj" eq_refl)].
Defined.

Lemma hidden_directory_counted_witness :
  walk (L := examplePaths)
       (walkCallback (L := examplePaths) goOnly None None) "proj/.hidden"
       hiddenDir (zeroStats, [])
  = ((incDirectories zeroStats, []), WSkipDir).
Proof.
  destruct hidden_directory_counted as [H _].
  destruct (H examplePaths goOnly None None "proj/.hidden" ".hidden"
              [EFile "b.go" 50 "2024-01-01 00:00:00"] zeroStats []
              eq_refl eq_refl) as (E & _ & _).
  exact E.
Defined.

(** A root that is itself hidden is pruned like any other directory:
    with the input directory ["."] and [ExcludeHidden] the walk finds no
    file and counts one directory. *)
Lemma hidden_root_pruned :
  discover (L := examplePaths) dotConfig None None
           (EDir "." (Some [EFile "a.go" 50 "2024-01-01 00:00:00"])) zeroStats
  = ((addDirectories zeroStats 1, []), WNil).
Proof. reflexivity. Qed.

(** * Further properties of the code *)

(** ** Extensions without a dot *)

Lemma ext_scan_dot (l acc : list ascii) :
  ext_scan l acc = [] \/ exists r, ext_scan l acc = dot :: r.
Proof.
  revert acc. induction l as [|c r IH]; intros acc; cbn; [now left|].
  destruct (Ascii.eqb c slash); [now left|].
  destruct (Ascii.eqb c dot) eqn:E; [|apply IH].
  apply Ascii.eqb_eq in E. subst c. right. now exists acc.
Qed.

Lemma Ext_dot (path : string) :
  Ext path = "" \/ exists r, Ext path = String dot r.
Proof.
  unfold Ext.
  destruct (ext_scan_dot (rev (chars path)) []) as [E|[r E]]; rewrite E.
  - now left.
  - right. now exists (of_chars r).
Qed.

Section ExtensionFacts.

Context {L : PathLib}.

Lemma EqualFold_noLeadingDot (path allowedExt : string) :
  noLeadingDot allowedExt = true -> EqualFold (Ext path) allowedExt = false.
Proof.
  destruct allowedExt as [|c t]; [discriminate|]. cbn [noLeadingDot].
  rewrite andb_true_iff, negb_true_iff, Z.ltb_lt, Z.eqb_neq. intros [Hc Hd].
  pose proof (byte_of_range c) as Rc.
  destruct (Ext_dot path) as [E|[r E]]; rewrite E; [reflexivity|].
  cbn [EqualFold]. change (byte_of dot) with 46.
  assert (Hl : Z.lor 46 (byte_of c) < 128) by (apply lor_below_128; lia).
  destruct (Z.leb_spec 128 (Z.lor 46 (byte_of c))); [lia|].
  destruct (Z.eqb_spec (byte_of c) 46); [lia|].
  destruct (Z.leb_spec 65 (Z.min 46 (byte_of c))); [lia|reflexivity].
Qed.

Lemma extFound_noLeadingDot (path : string) (allowed : list string) :
  forallb noLeadingDot allowed = true -> extFound (Ext path) allowed = false.
Proof.
  induction allowed as [|a r IH]; cbn; [reflexivity|].
  rewrite andb_true_iff. intros [Ha Hr].
  now rewrite (EqualFold_noLeadingDot path a Ha), IH.
Qed.

(** X1: an entry of the extension list that is not empty and starts
    with an ASCII byte other than the dot matches no file, so a non-empty
    list of such entries rejects every file; the entry ["*"], which
    [validateExtensions] accepts as meaning all files, is one of them.
    The empty entry is none: it matches the files without an extension,
    and the list that holds it alone passes [validateExtensions]. *)
Theorem undotted_extension_matches_nothing (path : string) (info : OsFileInfo)
    (config : Config) (excludeRegex includeRegex : option Regexp) :
  (Extensions config <> [] ->
   forallb noLeadingDot (Extensions config) = true ->
   shouldProcessFile path info config excludeRegex includeRegex = false)
  /\ (TrimSpace "*" = "*" -> validateExtensions "*" = true)
  /\ noLeadingDot "*" = true
  /\ noLeadingDot "" = false
  /\ EqualFold (Ext path) "" = String.eqb (Ext path) ""
  /\ (Extensions config = [""] ->
      rule_rejects path info config excludeRegex includeRegex RExtension
      = negb (String.eqb (Ext path) ""))
  /\ validateExtensions (joinComma [""]) = true.
Proof.
  assert (HE : EqualFold (Ext path) "" = String.eqb (Ext path) "")
    by (destruct (Ext path); reflexivity).
  split; [|split; [|split; [reflexivity|split; [reflexivity|split;
           [exact HE|split; [|reflexivity]]]]]].
  - intros Hne Hall. unfold shouldProcessFile.
    rewrite (extFound_noLeadingDot path _ Hall).
    destruct (Extensions config) as [|a r]; [congruence|]. cbn.
    repeat match goal with
    | |- (if ?c then false else _) = false => destruct c; [reflexivity|]
    end. reflexivity.
  - intros E. unfold validateExtensions. cbn. now rewrite E.
  - intros E. cbn [rule_rejects]. rewrite E. cbn [existsb].
    now rewrite HE, orb_false_r.
Qed.

End ExtensionFacts.

(** The star as the only extension rejects [a.go]; the empty entry as
    the only extension accepts [Makefile]. *)
Lemma undotted_extension_matches_nothing_witness :
  shouldProcessFile (L := examplePaths) "proj/a.go"
    (fileOsInfo "a.go" 50 "") starOnly None None = false
  /\ validateExtensions (L := examplePaths) "*" = true
  /\ rule_rejects (L := examplePaths) "proj/Makefile"
       (fileOsInfo "Makefile" 50 "") emptyEntryOnly None None RExtension
     = false
  /\ shouldProcessFile (L := examplePaths) "proj/Makefile"
       (fileOsInfo "Makefile" 50 "") emptyEntryOnly None None = true.
Proof.
  destruct (undotted_extension_matches_nothing (L := examplePaths) "proj/a.go"
              (fileOsInfo "a.go" 50 "") starOnly None None)
    as (E & V & _).
  destruct (undotted_extension_matches_nothing (L := examplePaths)
              "proj/Makefile" (fileOsInfo "Makefile" 50 "") emptyEntryOnly
              None None) as (_ & _ & _ & _ & _ & M & _).
  split; [exact (E ltac:(discriminate) eq_refl)|].
  split; [exact (V eq_refl)|].
  split; [exact (M eq_refl) | reflexivity].
Defined.

Section SizeFacts.

Context {L : PathLib}.

(** X2: when the maximum size is positive and below the minimum size,
    no file passes, whatever its size. *)
Theorem contradictory_size_bounds (path : string) (info : OsFileInfo)
    (config : Config) (excludeRegex includeRegex : option Regexp) :
  0 < MaxFileSize config < MinFileSize config ->
  shouldProcessFile path info config excludeRegex includeRegex = false.
Proof.
  intros H. unfold shouldProcessFile.
  destruct (ExcludeHidden config && isHidden (Name info)); [reflexivity|].
  destruct (Z.ltb_spec 0 (MaxFileSize config)); [|lia].
  destruct (Z.ltb_spec 0 (MinFileSize config)); [|lia].
  destruct (Z.ltb_spec (MaxFileSize config) (FSize info)); [reflexivity|].
  destruct (Z.ltb_spec (FSize info) (MinFileSize config)); [reflexivity|lia].
Qed.

End SizeFacts.

(** ** The extensions as they are validated *)

Lemma splitComma_nonempty s : forall cur, splitComma s cur <> [].
Proof.
  induction s as [|c r IH]; intros cur; cbn; [discriminate|].
  destruct (Ascii.eqb c ","%char); [discriminate | apply IH].
Qed.

Lemma joinComma_cons x l : l <> [] -> joinComma (x :: l) = x ++ "," ++ joinComma l.
Proof. destruct l; [congruence | reflexivity]. Qed.

Lemma joinComma_splitComma s : forall cur, joinComma (splitComma s cur) = cur ++ s.
Proof.
  induction s as [|c r IH]; intros cur; cbn [splitComma].
  - cbn [joinComma]. now rewrite append_nil_r.
  - destruct (Ascii.eqb c ","%char) eqn:E.
    + apply Ascii.eqb_eq in E. subst c.
      rewrite joinComma_cons by apply splitComma_nonempty.
      now rewrite IH.
    + rewrite IH, append_assoc_s. reflexivity.
Qed.

Lemma splitComma_word x : forall s cur,
  noComma x = true -> splitComma (x ++ s) cur = splitComma s (cur ++ x).
Proof.
  induction x as [|c r IH]; intros s cur H; cbn [String.append].
  - now rewrite append_nil_r.
  - unfold noComma in H. cbn [chars forallb] in H.
    apply andb_true_iff in H. destruct H as [Hc Hr].
    apply negb_true_iff in Hc. cbn [splitComma]. rewrite Hc.
    rewrite IH by exact Hr. now rewrite append_assoc_s.
Qed.

Lemma splitComma_joinComma l :
  forallb noComma l = true -> l <> [] ->
  forall cur, splitComma (joinComma l) cur
              = match l with
                | [] => []
                | x :: r => (cur ++ x) :: r
                end.
Proof.
  induction l as [|x r IH]; intros H Hne cur; [congruence|].
  cbn [forallb] in H. apply andb_true_iff in H. destruct H as [Hx Hr].
  destruct r as [|y r'].
  - cbn [joinComma]. rewrite <- (append_nil_r x) at 1.
    now rewrite splitComma_word.
  - rewrite joinComma_cons by discriminate.
    rewrite splitComma_word by exact Hx. cbn [String.append splitComma].
    cbn [Ascii.eqb Bool.eqb]. f_equal.
    now rewrite (IH Hr ltac:(discriminate) "").
Qed.

Section ExtensionListFacts.

Context {L : PathLib}.

(** X3: [main] validates the extensions after joining them with
    commas, and [validateExtensions] splits them again.  Splitting and
    joining undo each other, so for extensions given by the flag, and
    for any list without a comma in an entry whose join is not empty,
    every entry is checked on its own: trimmed, it must start with a dot
    or be the star. *)
Theorem extensions_checked_each (exts : list string) (s : string) :
  joinComma (splitComma s "") = s
  /\ (s <> "" ->
      validateExtensions (joinComma (splitComma s ""))
      = forallb extensionOk (splitComma s ""))
  /\ (forallb noComma exts = true -> joinComma exts <> "" ->
      splitComma (joinComma exts) "" = exts
      /\ validateExtensions (joinComma exts) = forallb extensionOk exts).
Proof.
  split; [apply joinComma_splitComma|]. split.
  - intros Hs. rewrite (joinComma_splitComma s ""). cbn [String.append].
    unfold validateExtensions. apply String.eqb_neq in Hs. now rewrite Hs.
  - intros Hc Hne.
    assert (Hl : exts <> []) by (intros ->; now apply Hne).
    assert (E : splitComma (joinComma exts) "" = exts).
    { rewrite (splitComma_joinComma exts Hc Hl "").
      destruct exts; [congruence|reflexivity]. }
    split; [exact E|].
    unfold validateExtensions. apply String.eqb_neq in Hne.
    now rewrite Hne, E.
Qed.

End ExtensionListFacts.

(** ** What the walk hands on *)

Section ReachFacts.

Context {L : PathLib}.
Variable config : Config.
Variables excludeRegex includeRegex : option Regexp.

Let accepts (pi : string * OsFileInfo) : bool :=
  shouldProcessFile (fst pi) (snd pi) config excludeRegex includeRegex.

Lemma filesFound_reachable (e : Entry) :
  forall path,
    filesFound config excludeRegex includeRegex path e
    = map fst (filter accepts (reachable config path e)).
Proof.
  induction e as [name size mtime | name | name entries IH | name]
    using Entry_nested_ind; intros path; cbn [filesFound reachable];
    try reflexivity.
  - cbn [filter]. unfold accepts at 1. cbn [fst snd].
    now destruct (shouldProcessFile path (fileOsInfo name size mtime) config
                    excludeRegex includeRegex).
  - destruct (pruned config name); [reflexivity|].
    induction IH as [|c rest Hc _ IHrest]; [reflexivity|].
    rewrite filter_app, map_app, <- Hc, <- IHrest. reflexivity.
Qed.

(** X4: the walk misses no file and adds none: the paths it collects
    are those of the files it can reach that [shouldProcessFile] accepts,
    in the order of the walk, a file being reachable when no directory
    above it below the root is pruned or unreadable. *)
Theorem discovery_complete (root : Entry) :
  snd (fst (discover config excludeRegex includeRegex root zeroStats))
  = map fst
      (filter (fun pi => shouldProcessFile (fst pi) (snd pi) config
                           excludeRegex includeRegex)
              (reachable config (InputDir config) root))
  /\ (forall path info,
        In (path, info) (reachable config (InputDir config) root) ->
        shouldProcessFile path info config excludeRegex includeRegex = true ->
        In path
           (snd (fst (discover config excludeRegex includeRegex root
                               zeroStats)))).
Proof.
  rewrite discover_found. cbn [fst snd].
  rewrite filesFound_reachable. split; [reflexivity|].
  intros path info Hin Hok.
  apply in_map_iff. exists (path, info). split; [reflexivity|].
  apply filter_In. split; [exact Hin | exact Hok].
Qed.

End ReachFacts.

(** The file [a.go] of the example tree is reached and accepted. *)
Lemma discovery_complete_witness :
  In "proj/a.go"
     (snd (fst (discover (L := examplePaths) goOnly None None exampleTree
                         zeroStats))).
Proof.
  destruct (discovery_complete (L := examplePaths) goOnly None None exampleTree)
    as [_ H].
  apply (H "proj/a.go" (fileOsInfo "a.go" 50 "2024-01-01 00:00:00")).
  - cbn. now left.
  - reflexivity.
Defined.

Section AccessFacts.

Context {L : PathLib}.
Variable config : Config.
Variables excludeRegex includeRegex : option Regexp.

Lemma entryName_accessible e : entryName (accessible e) = entryName e.
Proof. destruct e as [| name [entries|] |]; reflexivity. Qed.

Lemma inaccessible_found e path :
  inaccessible e = true ->
  filesFound config excludeRegex includeRegex path e = []
  /\ dirsSeen config e = 0.
Proof. destruct e as [| name [entries|] |]; try discriminate; now split. Qed.

Lemma filesFound_accessible (e : Entry) :
  forall path,
    filesFound config excludeRegex includeRegex path (accessible e)
    = filesFound config excludeRegex includeRegex path e.
Proof.
  induction e as [name size mtime | name | name entries IH | name]
    using Entry_nested_ind; intros path; try reflexivity.
  cbn [accessible filesFound].
  destruct (pruned config name); [reflexivity|].
  induction IH as [|c rest Hc _ IHrest]; [reflexivity|].
  destruct (inaccessible c) eqn:Hi.
  - destruct (inaccessible_found c (Join path (entryName c)) Hi) as [-> _].
    exact IHrest.
  - rewrite entryName_accessible, Hc, IHrest. reflexivity.
Qed.

Lemma dirsSeen_accessible (e : Entry) :
  dirsSeen config (accessible e) = dirsSeen config e.
Proof.
  induction e as [name size mtime | name | name entries IH | name]
    using Entry_nested_ind; try reflexivity.
  cbn [accessible dirsSeen].
  destruct (pruned config name); [reflexivity|]. f_equal.
  induction IH as [|c rest Hc _ IHrest]; [reflexivity|].
  destruct (inaccessible c) eqn:Hi.
  - destruct (inaccessible_found c "" Hi) as [_ ->]. exact IHrest.
  - rewrite Hc, IHrest. reflexivity.
Qed.

Lemma listing_without failing pre post path name :
  inaccessible failing = true ->
  filesFound config excludeRegex includeRegex path
             (EDir name (Some (pre ++ failing :: post)%list))
  = filesFound config excludeRegex includeRegex path
               (EDir name (Some (pre ++ post)%list))
  /\ dirsSeen config (EDir name (Some (pre ++ failing :: post)%list))
     = dirsSeen config (EDir name (Some (pre ++ post)%list)).
Proof.
  intros Hf. cbn [filesFound dirsSeen].
  destruct (pruned config name); [now split|].
  destruct (inaccessible_found failing (Join path (entryName failing)) Hf)
    as [Hfiles Hdirs].
  split.
  - induction pre as [|c r IH]; cbn [app].
    + rewrite Hfiles. reflexivity.
    + rewrite IH. reflexivity.
  - f_equal. induction pre as [|c r IH]; cbn [app].
    + rewrite Hdirs. reflexivity.
    + rewrite IH. reflexivity.
Qed.

(** X5: names whose [Lstat] fails and directories that cannot be read
    are passed over wherever they are in the tree: the callback returns
    [nil] for them, so the walk collects the same paths and counts the
    same directories as over the tree without them, at the root and in
    every directory below it, and goes on with the entries that follow. *)
Theorem access_errors_skipped :
  (forall root,
     discover config excludeRegex includeRegex (accessible root) zeroStats
     = discover config excludeRegex includeRegex root zeroStats)
  /\ (forall path name pre post failing stats paths,
        inaccessible failing = true ->
        int64_range (Directories stats) ->
        walk (walkCallback config excludeRegex includeRegex) path
             (EDir name (Some (pre ++ failing :: post)%list)) (stats, paths)
        = walk (walkCallback config excludeRegex includeRegex) path
               (EDir name (Some (pre ++ post)%list)) (stats, paths))
  /\ (forall name pre post failing,
        inaccessible failing = true ->
        discover config excludeRegex includeRegex
                 (EDir name (Some (pre ++ failing :: post)%list)) zeroStats
        = discover config excludeRegex includeRegex
                   (EDir name (Some (pre ++ post)%list)) zeroStats).
Proof.
  split; [|split].
  - intros root. rewrite !discover_found.
    now rewrite filesFound_accessible, dirsSeen_accessible.
  - intros path name pre post failing stats paths Hf Hr.
    rewrite !walk_callback by exact Hr.
    destruct (listing_without failing pre post path name Hf) as [-> ->].
    reflexivity.
  - intros name pre post failing Hf. rewrite !discover_found.
    destruct (listing_without failing pre post (InputDir config) name Hf)
      as [-> ->].
    reflexivity.
Qed.

End AccessFacts.

(** ** Every schedule of the workers *)

Section ScheduleFacts.

Context {L : PathLib}.
Variable w : World.
Variable paths : list string.
Variable baseDir : string.
Variable nworkers : Z.

Let cap := List.length paths.

Lemma par_measure_exact s s' :
  parStep w baseDir cap s s' -> stepsLeft s = S (stepsLeft s').
Proof.
  intros Hstep. unfold stepsLeft.
  destruct Hstep as [p ps s Hs Hcap | s Hs Hc | i p q s Hi Hq | i s Hi Hq Hc
                    | i p info s Hi Hf Hcap | i p info e s Hi Hf Hcap];
    cbn [toSend fileChan fileClosed workers resultChan errorChan].
  - rewrite Hs, length_app. cbn. lia.
  - rewrite Hs, Hc. cbn. lia.
  - rewrite Hq, (active_set_holding _ _ p Hi).
    pose proof (Permutation_length (held_set_holding _ _ p Hi)) as El.
    cbn in *. lia.
  - rewrite Hq, Hc, held_set_exited by assumption.
    pose proof (active_set_exited _ _ Hi). cbn. lia.
  - rewrite (active_set_idle _ _ _ Hi).
    pose proof (Permutation_length (held_set_idle _ _ _ Hi)) as El.
    cbn in *. lia.
  - rewrite (active_set_idle _ _ _ Hi).
    pose proof (Permutation_length (held_set_idle _ _ _ Hi)) as El.
    cbn in *. lia.
Qed.

Lemma parStepsN_steps n s s' :
  parStepsN w baseDir cap n s s' -> parSteps w baseDir cap s s'.
Proof.
  induction 1 as [|n s1 s2 s3 _ IH Hstep]; [apply ParRefl|].
  eapply ParNext; eassumption.
Qed.

Lemma parSteps_counted s s' :
  parSteps w baseDir cap s s' -> exists n, parStepsN w baseDir cap n s s'.
Proof.
  induction 1 as [|s1 s2 s3 _ [n IH] Hstep].
  - exists O. apply ParZero.
  - exists (S n). eapply ParSucc; eassumption.
Qed.

Lemma active_repeat_idle n : active (repeat Idle n) = n.
Proof. induction n; cbn; auto. Qed.

Lemma stepsLeft_init :
  stepsLeft (parInit paths nworkers)
  = (3 * List.length paths + Z.to_nat nworkers + 1)%nat.
Proof.
  unfold stepsLeft, parInit. cbn.
  rewrite held_repeat_idle, active_repeat_idle. cbn. lia.
Qed.

(** X6: [processFilesParallel] returns on every schedule.  A state it
    reaches in which [wg.Wait] has not returned can take a step, so the
    bounded channels never block it for good; every step uses up one of
    the [3 * len(paths) + workers + 1] steps there are at the start; and
    with a worker a run is over after exactly that many steps. *)
Theorem parallel_always_returns (n : nat) (s : ParState) :
  parStepsN w baseDir (List.length paths) n (parInit paths nworkers) s ->
  (parDone s \/ exists s', parStep w baseDir (List.length paths) s s')
  /\ (n + stepsLeft s = 3 * List.length paths + Z.to_nat nworkers + 1)%nat
  /\ (1 <= nworkers -> parDone s ->
      n = (3 * List.length paths + Z.to_nat nworkers + 1)%nat).
Proof.
  intros Hrun.
  assert (HI : ParInv w paths baseDir nworkers s).
  { eapply ParInv_steps; [apply ParInv_init|].
    eapply parStepsN_steps, Hrun. }
  assert (Hcount : (n + stepsLeft s
                    = 3 * List.length paths + Z.to_nat nworkers + 1)%nat).
  { rewrite <- stepsLeft_init. clear HI.
    induction Hrun as [|n s1 s2 s3 _ IH Hstep]; [reflexivity|].
    rewrite <- IH, (par_measure_exact _ _ Hstep). lia. }
  split; [|split; [exact Hcount|]].
  - destruct (parDoneb s) eqn:Hd.
    + left. now apply parDoneb_spec.
    + right. exact (par_progress w paths baseDir nworkers s HI Hd).
  - intros HW Hdone.
    assert (Hz : stepsLeft s = O).
    { destruct HI as (_ & _ & Hex & _ & Hlen).
      destruct Hdone as (Hsend & Hcl & Hall).
      assert (Hin : In Exited (workers s)).
      { destruct (workers s) as [|x r]; [cbn in Hlen; lia|].
        inversion Hall; subst. now left. }
      destruct (Hex Hin) as [Hq _].
      unfold stepsLeft.
      rewrite Hsend, Hq, Hcl, (allExited_held (workers s))
        by (now apply allExited_Forall).
      cbn. clear - Hall. induction Hall as [|x r Hx _ IH]; [reflexivity|].
      subst x. exact IH. }
    lia.
Qed.

Lemma failed_Permutation l1 l2 :
  Permutation l1 l2 -> Permutation (failed w baseDir l1) (failed w baseDir l2).
Proof.
  unfold failed.
  induction 1 as [| x l l' _ IH | x y l | l l' l'' _ IH1 _ IH2]; cbn.
  - constructor.
  - destruct (negb (ingestOk w baseDir x)); auto.
  - destruct (negb (ingestOk w baseDir x)), (negb (ingestOk w baseDir y));
      try apply Permutation_refl. apply perm_swap.
  - eapply Permutation_trans; eassumption.
Qed.

Lemma failed_cons_ok p l info :
  processSingleFile w p baseDir = (info, None) ->
  failed w baseDir (p :: l) = failed w baseDir l.
Proof.
  intros H. unfold failed, ingestOk. cbn. now rewrite H.
Qed.

Lemma failed_cons_err p l info e :
  processSingleFile w p baseDir = (info, Some e) ->
  failed w baseDir (p :: l) = p :: failed w baseDir l.
Proof.
  intros H. unfold failed, ingestOk. cbn. now rewrite H.
Qed.

(** The failures sent so far and those still to come are the failures
    of the paths. *)
Lemma errors_invariant s :
  parSteps w baseDir cap (parInit paths nworkers) s ->
  Permutation (failed w baseDir paths)
              (errorChan s ++ failed w baseDir (pending s)).
Proof.
  intros Hrun. remember (parInit paths nworkers) as s0 eqn:E0.
  induction Hrun as [|s1 s2 s3 _ IH Hstep].
  - subst. unfold pending, parInit. cbn. rewrite held_repeat_idle. cbn.
    apply Permutation_refl.
  - specialize (IH E0). eapply Permutation_trans; [exact IH|]. clear IH.
    unfold pending.
    destruct Hstep as [p ps s Hs Hcap | s Hs Hc | i p q s Hi Hq | i s Hi Hq Hc
                      | i p info s Hi Hf Hcap | i p info e s Hi Hf Hcap];
      cbn [toSend fileChan fileClosed workers resultChan errorChan].
    + rewrite Hs, <- !app_assoc. apply Permutation_refl.
    + rewrite Hs. apply Permutation_refl.
    + rewrite Hq. apply Permutation_app_head, failed_Permutation.
      eapply Permutation_trans;
        [| apply Permutation_app_tail, Permutation_sym, held_set_holding, Hi].
      cbn. apply Permutation_sym, Permutation_middle.
    + rewrite Hq, held_set_exited by assumption. apply Permutation_refl.
    + apply Permutation_app_head.
      eapply Permutation_trans.
      * apply failed_Permutation, Permutation_app_tail, (held_set_idle _ _ _ Hi).
      * cbn [app]. rewrite (failed_cons_ok _ _ _ Hf). apply Permutation_refl.
    + rewrite <- app_assoc. apply Permutation_app_head.
      eapply Permutation_trans.
      * apply failed_Permutation, Permutation_app_tail, (held_set_idle _ _ _ Hi).
      * cbn [app]. rewrite (failed_cons_err _ _ _ _ Hf). apply Permutation_refl.
Qed.

(** X7: with a worker, when [wg.Wait] returns every path has given
    either a record or an error: the errors sent are those of the paths
    whose ingestion fails, each once, and the results and the errors
    together are as many as the paths. *)
Theorem parallel_errors_reported (s : ParState) :
  1 <= nworkers ->
  parSteps w baseDir (List.length paths) (parInit paths nworkers) s ->
  parDone s ->
  Permutation (errorChan s) (failed w baseDir paths)
  /\ (List.length (resultChan s) + List.length (errorChan s)
      = List.length paths)%nat.
Proof.
  intros HW Hrun Hdone.
  pose proof (errors_invariant s Hrun) as HE.
  pose proof (ParInv_steps w _ _ _ _ _ (ParInv_init w paths baseDir nworkers)
                Hrun) as (_ & Hcount & Hex & _ & Hlen).
  destruct Hdone as (Hsend & Hcl & Hall).
  assert (Hin : In Exited (workers s)).
  { destruct (workers s) as [|x r]; [cbn in Hlen; lia|].
    inversion Hall; subst. now left. }
  destruct (Hex Hin) as [Hq _].
  assert (Hh : held (workers s) = [])
    by (now apply allExited_held, allExited_Forall).
  unfold pending in HE. rewrite Hsend, Hq, Hh in HE. cbn in HE.
  rewrite app_nil_r in HE. split; [now apply Permutation_sym|].
  rewrite Hsend, Hq, Hh in Hcount. cbn in Hcount. lia.
Qed.

(** X8: without a worker ([workers <= 0]) [processFilesParallel] still
    returns, but with no record and the statistics untouched: the paths
    are sent and never received. *)
Theorem parallel_without_workers (verbose quiet : bool) (stats : Stats) :
  nworkers <= 0 ->
  (exists out,
     processFilesParallel w paths baseDir nworkers verbose quiet stats out)
  /\ (forall out,
        processFilesParallel w paths baseDir nworkers verbose quiet stats out ->
        out = ([], stats)).
Proof.
  intros HW. split.
  - destruct (par_terminates w paths baseDir nworkers _
                (ParInv_init w paths baseDir nworkers)) as (s & Hrun & Hdone).
    exists (collectResults (resultChan s) [] stats). exists s. auto.
  - intros out (s & Hrun & _ & ->).
    assert (H : workers s = [] /\ resultChan s = []).
    { remember (parInit paths nworkers) as s0 eqn:E0.
      induction Hrun as [|s1 s2 s3 _ IH Hstep].
      - subst. unfold parInit. cbn.
        replace (Z.to_nat nworkers) with O by lia. auto.
      - destruct (IH E0) as [Hw Hr]. clear IH.
        destruct Hstep as [p ps s Hs Hcap | s Hs Hc | i p q s Hi Hq
                          | i s Hi Hq Hc | i p info s Hi Hf Hcap
                          | i p info e s Hi Hf Hcap];
          cbn [toSend fileChan fileClosed workers resultChan errorChan];
          auto; rewrite Hw in Hi; destruct i; discriminate. }
    destruct H as [_ Hr]. rewrite Hr. reflexivity.
Qed.

End ScheduleFacts.

(** ** Whole runs *)

Section RunFacts.

Context {L : PathLib} {O : OutLib}.
Variable w : World.

Lemma preflight_fatal config flags f :
  preflight w config flags = inl f ->
  In f [BadInputDir; BadOutputPath; BadExtensions;
        BadExcludePattern; BadIncludePattern].
Proof.
  unfold preflight.
  repeat match goal with
  | |- context [if ?c then _ else _] => destruct c
  | |- context [match ?c with Some _ => _ | None => _ end] => destruct c
  end; intros H; inversion H; cbn; auto 10.
Qed.

Lemma mainRun_walked config flags elapsed excludeRegex includeRegex :
  preflight w config flags = inr (excludeRegex, includeRegex) ->
  forall o,
    mainRun w config flags elapsed o
    <-> exists fileInfos stats',
          ingest w config flags (candidates w config excludeRegex includeRegex)
                 (walked w config) (fileInfos, stats')
          /\ o = finish w config flags elapsed
                   (candidates w config excludeRegex includeRegex)
                   fileInfos stats'.
Proof.
  intros Hpre o. unfold mainRun. rewrite Hpre, discover_found. reflexivity.
Qed.

Lemma ingest_records config flags filePaths stats out :
  ingest w config flags filePaths stats out ->
  Permutation (fst out) (ingested w filePaths (InputDir config))
  /\ snd out = countAll (fst out) stats
  /\ (flagParallel flags <= 1 ->
      fst out = ingested w filePaths (InputDir config)).
Proof.
  unfold ingest. destruct (Z.ltb_spec 1 (flagParallel flags)) as [HP|HP].
  - intros (s & Hrun & Hdone & ->).
    pose proof (ParInv_steps w _ (InputDir config) (flagParallel flags) _ _
                  (ParInv_init w _ (InputDir config) (flagParallel flags))
                  Hrun) as HI.
    pose proof (parDone_results w _ (InputDir config) (flagParallel flags) s
                  ltac:(lia) HI Hdone) as HPm.
    rewrite collectResults_countAll. cbn [fst snd app].
    split; [now apply Permutation_sym|]. split; [reflexivity|lia].
  - intros ->. unfold processFilesSequential.
    rewrite sequentialLoop_ingested. cbn [fst snd app].
    split; [apply Permutation_refl|]. split; reflexivity.
Qed.

Lemma countAll_fresh infos st :
  FilesProcessed st = 0 -> TotalBytes st = 0 ->
  countAll infos st = bump st (Z.of_nat (List.length infos)) (sizeSum infos).
Proof.
  intros HF HT.
  assert (E : st = bump st 0 0).
  { destruct st; cbn in *; subst. reflexivity. }
  rewrite E at 1. rewrite countAll_bump. f_equal.
Qed.

(** A run that passed the checks, taken apart. *)
Lemma mainRun_inv config flags elapsed excludeRegex includeRegex o :
  preflight w config flags = inr (excludeRegex, includeRegex) ->
  mainRun w config flags elapsed o ->
  exists fileInfos,
    Permutation fileInfos
      (ingested w (candidates w config excludeRegex includeRegex)
                (InputDir config))
    /\ (flagParallel flags <= 1 ->
        fileInfos = ingested w (candidates w config excludeRegex includeRegex)
                             (InputDir config))
    /\ o = finish w config flags elapsed
             (candidates w config excludeRegex includeRegex) fileInfos
             (bump (walked w config) (Z.of_nat (List.length fileInfos))
                   (sizeSum fileInfos)).
Proof.
  intros Hpre Hrun.
  apply (mainRun_walked _ _ _ _ _ Hpre) in Hrun.
  destruct Hrun as (fileInfos & stats' & Hi & ->).
  destruct (ingest_records _ _ _ _ _ Hi) as (HP & Hs & Hseq).
  cbn [fst snd] in *. exists fileInfos. split; [exact HP|]. split; [exact Hseq|].
  rewrite Hs, countAll_fresh by reflexivity. reflexivity.
Qed.

(** X9: the walk of [main] never fails, whatever the tree: its callback
    answers every access error with [nil].  So no run ends with the error
    of the walk. *)
Theorem walk_never_fails (config : Config) (flags : Flags) (elapsed : Z) :
  (forall excludeRegex includeRegex root,
     snd (discover config excludeRegex includeRegex root zeroStats) = WNil)
  /\ (forall o, mainRun w config flags elapsed o ->
                fatal o <> Some WalkFailed).
Proof.
  split.
  - intros. now rewrite discover_found.
  - intros o Ho.
    destruct (preflight w config flags) as [f|[ex inc]] eqn:Hpre.
    + apply (mainRun_preflight_failed w _ _ _ _ Hpre) in Ho. subst o.
      cbn. apply preflight_fatal in Hpre. cbn in Hpre.
      intuition congruence.
    + destruct (mainRun_inv _ _ _ _ _ _ Hpre Ho) as (infos & _ & _ & ->).
      unfold finish. destruct (flagDryRun flags); [discriminate|].
      destruct (writeOutput _ _ _ _ _ _) as [[n b]|]; discriminate.
Qed.

(** X10: in a run that ends without error the records are those of the
    candidates of the walk that could be read, in the order of the walk
    when ingestion is sequential and in some order when it is parallel. *)
Theorem run_records (config : Config) (flags : Flags) (elapsed : Z)
    (excludeRegex includeRegex : option Regexp) (o : Outcome) :
  preflight w config flags = inr (excludeRegex, includeRegex) ->
  mainRun w config flags elapsed o ->
  fatal o = None ->
  Permutation (records o)
    (ingested w (candidates w config excludeRegex includeRegex)
              (InputDir config))
  /\ (flagParallel flags <= 1 ->
      records o = ingested w (candidates w config excludeRegex includeRegex)
                           (InputDir config))
  /\ (forall p, In p (map Path (records o))
                <-> In p (candidates w config excludeRegex includeRegex)
                    /\ ingestOk w (InputDir config) p = true).
Proof.
  intros Hpre Ho Hf.
  destruct (mainRun_inv _ _ _ _ _ _ Hpre Ho) as (infos & HP & Hseq & ->).
  assert (E : records (finish w config flags elapsed
                         (candidates w config excludeRegex includeRegex) infos
                         (bump (walked w config)
                               (Z.of_nat (List.length infos)) (sizeSum infos)))
              = infos).
  { revert Hf. unfold finish. destruct (flagDryRun flags); [reflexivity|].
    destruct (writeOutput _ _ _ _ _ _) as [[n b]|]; [reflexivity|discriminate]. }
  rewrite E. split; [exact HP|]. split; [exact Hseq|].
  intros p. rewrite <- filter_In, <- ingested_paths.
  split; intros Hin.
  - eapply Permutation_in; [apply Permutation_map, HP | exact Hin].
  - eapply Permutation_in; [apply Permutation_map, Permutation_sym, HP | exact Hin].
Qed.

(** X11: in a run that ends without error the statistics are those of
    its records: [FilesProcessed] is their number and [TotalBytes] the
    sum of their sizes, in 64 bits, and [Duration] the time elapsed. *)
Theorem run_statistics (config : Config) (flags : Flags) (elapsed : Z)
    (o : Outcome) :
  mainRun w config flags elapsed o ->
  fatal o = None ->
  FilesProcessed (finalStats o) = wrap64 (Z.of_nat (List.length (records o)))
  /\ TotalBytes (finalStats o) = wrap64 (sizeSum (records o))
  /\ Duration (finalStats o) = elapsed.
Proof.
  intros Ho Hf.
  destruct (preflight w config flags) as [f|[ex inc]] eqn:Hpre.
  - apply (mainRun_preflight_failed w _ _ _ _ Hpre) in Ho. subst o. discriminate.
  - destruct (mainRun_inv _ _ _ _ _ _ Hpre Ho) as (infos & _ & _ & ->).
    revert Hf. unfold finish. destruct (flagDryRun flags).
    + intros _. cbn. repeat split.
    + destruct (writeOutput _ _ _ _ _ _) as [[n b]|]; [|discriminate].
      intros _. cbn. repeat split.
Qed.

End RunFacts.

Section RunEnds.

Context {L : PathLib} {O : OutLib}.
Variable w : World.

(** X12: a dry run creates no file, whatever the configuration; once
    the checks have passed it still walks the tree and reads every
    candidate, then exits with code 0 and leaves [OutputSize] at 0. *)
Theorem dry_run_creates_nothing (config : Config) (flags : Flags)
    (elapsed : Z) (o : Outcome) :
  flagDryRun flags = true ->
  mainRun w config flags elapsed o ->
  (forall path bytes, ~ In (EvCreate path bytes) (effects o))
  /\ OutputSize (finalStats o) = 0
  /\ (forall excludeRegex includeRegex,
        preflight w config flags = inr (excludeRegex, includeRegex) ->
        exitCode o = 0 /\ fatal o = None
        /\ effects o
           = EvWalk (InputDir config)
             :: map EvIngest (candidates w config excludeRegex includeRegex)).
Proof.
  intros Hdry Ho.
  destruct (preflight w config flags) as [f|[ex inc]] eqn:Hpre.
  - apply (mainRun_preflight_failed w _ _ _ _ Hpre) in Ho. subst o. cbn.
    split; [auto|]. split; [reflexivity|]. intros ? ? H. discriminate H.
  - destruct (mainRun_inv _ _ _ _ _ _ _ Hpre Ho) as (infos & _ & _ & ->).
    unfold finish. rewrite Hdry. cbn.
    split; [|split; [reflexivity|]].
    + intros path bytes [H|H]; [discriminate|].
      apply in_map_iff in H. destruct H as (x & Hx & _). discriminate.
    + intros ? ? H. inversion H; subst. auto.
Qed.

(** X13: in a run that passed the checks and is no dry run, the output
    file is created after the walk and after every candidate was read,
    at the path [config.OutputFile] also when compression is asked for;
    when it cannot be created the run exits with code 1 and the work done
    is lost. *)
Theorem output_created_last (config : Config) (flags : Flags) (elapsed : Z)
    (excludeRegex includeRegex : option Regexp) (o : Outcome) :
  flagDryRun flags = false ->
  preflight w config flags = inr (excludeRegex, includeRegex) ->
  mainRun w config flags elapsed o ->
  if os_Create w (OutputFile config)
  then exitCode o = 0 /\ fatal o = None
       /\ effects o
          = (EvWalk (InputDir config)
             :: map EvIngest (candidates w config excludeRegex includeRegex)
             ++ [EvCreate (OutputFile config)
                   (fileBytes (os_Create w) (records o) (OutputFile config)
                      (flagFormat flags) (flagCompress flags)
                      (setOutputSize (finalStats o) 0))])%list
       /\ OutputSize (finalStats o)
          = fst (chosenWriter (flagFormat flags) (records o)
                   (setOutputSize (finalStats o) 0))
  else exitCode o = 1 /\ fatal o = Some WriteFailed /\ records o = []
       /\ effects o
          = EvWalk (InputDir config)
            :: map EvIngest (candidates w config excludeRegex includeRegex).
Proof.
  intros Hdry Hpre Ho.
  destruct (mainRun_inv _ _ _ _ _ _ _ Hpre Ho) as (infos & _ & _ & ->).
  unfold finish, fileBytes. rewrite Hdry, !writeOutput_chosen.
  destruct (os_Create w (OutputFile config)) eqn:Hc; cbn.
  - repeat split.
  - repeat split.
Qed.

End RunEnds.

(** ** Examples of runs *)

Lemma mainRun_sequential {L : PathLib} {O : OutLib} (w : World)
    (config : Config) (flags : Flags) (elapsed : Z)
    (excludeRegex includeRegex : option Regexp) :
  preflight w config flags = inr (excludeRegex, includeRegex) ->
  flagParallel flags <= 1 ->
  mainRun w config flags elapsed
          (sequentialOutcome w config flags elapsed excludeRegex includeRegex).
Proof.
  intros Hpre Hseq. apply (mainRun_walked w _ _ _ _ _ Hpre).
  eexists. eexists. split; [|reflexivity].
  unfold ingest. destruct (Z.ltb_spec 1 (flagParallel flags)); [lia|].
  symmetry. apply surjective_pairing.
Qed.

(** A file of 15 bytes under a maximum of 10 and a minimum of 20. *)
Lemma contradictory_size_bounds_witness :
  shouldProcessFile (L := examplePaths) "proj/a.go"
    (fileOsInfo "a.go" 15 "") crossedBounds None None = false.
Proof.
  apply (contradictory_size_bounds (L := examplePaths)). cbn. lia.
Defined.

(** The sequential run over the example tree. *)
Lemma walk_never_fails_witness :
  mainRun (L := examplePaths) (O := exampleOut) exampleWorld goOnly plainFlags 0
    (sequentialOutcome (L := examplePaths) (O := exampleOut) exampleWorld
       goOnly plainFlags 0 None None)
  /\ fatal (sequentialOutcome (L := examplePaths) (O := exampleOut)
              exampleWorld goOnly plainFlags 0 None None)
     <> Some WalkFailed.
Proof.
  pose proof (mainRun_sequential (L := examplePaths) (O := exampleOut)
                exampleWorld goOnly plainFlags 0 None None eq_refl
                ltac:(cbn; lia)) as H.
  split; [exact H|].
  exact (proj2 (walk_never_fails (L := examplePaths) (O := exampleOut)
                  exampleWorld goOnly plainFlags 0) _ H).
Defined.

(** A missing name and a directory [locked] that cannot be read, two
    levels down and in the listing of the root. *)
Lemma access_errors_skipped_witness :
  discover (L := examplePaths) goOnly None None
    (EDir "proj"
       (Some [EDir "sub"
                (Some [EFile "a.go" 50 ""; EErr "gone"; EDir "locked" None;
                       EFile "b.go" 50 ""]);
              EFile "c.go" 50 ""])) zeroStats
  = discover (L := examplePaths) goOnly None None
      (EDir "proj"
         (Some [EDir "sub" (Some [EFile "a.go" 50 ""; EFile "b.go" 50 ""]);
                EFile "c.go" 50 ""])) zeroStats
  /\ discover (L := examplePaths) goOnly None None
       (EDir "proj" (Some [EFile "a.go" 50 ""; EDir "locked" None;
                           EFile "b.go" 50 ""])) zeroStats
     = discover (L := examplePaths) goOnly None None
         (EDir "proj" (Some [EFile "a.go" 50 ""; EFile "b.go" 50 ""]))
         zeroStats.
Proof.
  destruct (access_errors_skipped (L := examplePaths) goOnly None None)
    as (H1 & _ & H3).
  split.
  - symmetry.
    exact (H1 (EDir "proj"
                 (Some [EDir "sub"
                          (Some [EFile "a.go" 50 ""; EErr "gone";
                                 EDir "locked" None; EFile "b.go" 50 ""]);
                        EFile "c.go" 50 ""]))).
  - exact (H3 "proj" [EFile "a.go" 50 ""] [EFile "b.go" 50 ""]
              (EDir "locked" None) eq_refl).
Defined.

(** The sequential run over the example tree has the one record of [proj/a.go]. *)
Lemma run_records_witness :
  mainRun (L := examplePaths) (O := exampleOut) exampleWorld goOnly plainFlags 0
    (sequentialOutcome (L := examplePaths) (O := exampleOut) exampleWorld
       goOnly plainFlags 0 None None)
  /\ map Path (records (sequentialOutcome (L := examplePaths) (O := exampleOut)
                          exampleWorld goOnly plainFlags 0 None None))
     = ["proj/a.go"].
Proof.
  pose proof (mainRun_sequential (L := examplePaths) (O := exampleOut)
                exampleWorld goOnly plainFlags 0 None None eq_refl
                ltac:(cbn; lia)) as H.
  split; [exact H|].
  destruct (run_records (L := examplePaths) (O := exampleOut) exampleWorld
              goOnly plainFlags 0 None None _ eq_refl H eq_refl)
    as (_ & E & _).
  rewrite (E ltac:(cbn; lia)). reflexivity.
Defined.

(** The same run counts one file of 50 bytes. *)
Lemma run_statistics_witness :
  mainRun (L := examplePaths) (O := exampleOut) exampleWorld goOnly plainFlags 0
    (sequentialOutcome (L := examplePaths) (O := exampleOut) exampleWorld
       goOnly plainFlags 0 None None)
  /\ FilesProcessed
       (finalStats (sequentialOutcome (L := examplePaths) (O := exampleOut)
                      exampleWorld goOnly plainFlags 0 None None)) = 1
  /\ TotalBytes
       (finalStats (sequentialOutcome (L := examplePaths) (O := exampleOut)
                      exampleWorld goOnly plainFlags 0 None None)) = 50.
Proof.
  pose proof (mainRun_sequential (L := examplePaths) (O := exampleOut)
                exampleWorld goOnly plainFlags 0 None None eq_refl
                ltac:(cbn; lia)) as H.
  split; [exact H|].
  destruct (run_statistics (L := examplePaths) (O := exampleOut) exampleWorld
              goOnly plainFlags 0 _ H eq_refl) as (E1 & E2 & _).
  split; [exact E1 | exact E2].
Defined.

(** The dry run over the example tree walks and reads, and creates nothing. *)
Lemma dry_run_creates_nothing_witness :
  mainRun (L := examplePaths) (O := exampleOut) exampleWorld goOnly
    dryRunFlags 0
    (sequentialOutcome (L := examplePaths) (O := exampleOut) exampleWorld
       goOnly dryRunFlags 0 None None)
  /\ effects (sequentialOutcome (L := examplePaths) (O := exampleOut)
                exampleWorld goOnly dryRunFlags 0 None None)
     = [EvWalk "proj"; EvIngest "proj/a.go"].
Proof.
  pose proof (mainRun_sequential (L := examplePaths) (O := exampleOut)
                exampleWorld goOnly dryRunFlags 0 None None eq_refl
                ltac:(cbn; lia)) as H.
  split; [exact H|].
  destruct (dry_run_creates_nothing (L := examplePaths) (O := exampleOut)
              exampleWorld goOnly dryRunFlags 0 _ eq_refl H) as (_ & _ & E).
  destruct (E None None eq_refl) as (_ & _ & E'). exact E'.
Defined.

(** The example run when the output file cannot be created. *)
Lemma output_created_last_witness :
  mainRun (L := examplePaths) (O := exampleOut) readOnlyWorld goOnly
    plainFlags 0
    (sequentialOutcome (L := examplePaths) (O := exampleOut) readOnlyWorld
       goOnly plainFlags 0 None None)
  /\ exitCode (sequentialOutcome (L := examplePaths) (O := exampleOut)
                 readOnlyWorld goOnly plainFlags 0 None None) = 1
  /\ effects (sequentialOutcome (L := examplePaths) (O := exampleOut)
                readOnlyWorld goOnly plainFlags 0 None None)
     = [EvWalk "proj"; EvIngest "proj/a.go"].
Proof.
  pose proof (mainRun_sequential (L := examplePaths) (O := exampleOut)
                readOnlyWorld goOnly plainFlags 0 None None eq_refl
                ltac:(cbn; lia)) as H.
  split; [exact H|].
  pose proof (output_created_last (L := examplePaths) (O := exampleOut)
                readOnlyWorld goOnly plainFlags 0 None None _ eq_refl eq_refl H)
    as E.
  cbn [os_Create readOnlyWorld] in E. destruct E as (E1 & _ & _ & E2).
  split; [exact E1 | exact E2].
Defined.

Section HiddenRoot.

Context {L : PathLib} {O : OutLib}.
Variable w : World.

(** X14: when the input directory itself has a hidden name and
    [ExcludeHidden] is set, the walk stops at the root: the run has no
    candidate, reads no file and ends with no record.  The names ["."]
    and [".."] are hidden, so this is what a run with the default input
    directory and the default [exclude-hidden] does. *)
Theorem hidden_root_yields_nothing (config : Config) (flags : Flags)
    (elapsed : Z) (name : string) (entries : option (list Entry))
    (excludeRegex includeRegex : option Regexp) (o : Outcome) :
  os_Tree w (InputDir config) = EDir name entries ->
  ExcludeHidden config = true ->
  isHidden name = true ->
  preflight w config flags = inr (excludeRegex, includeRegex) ->
  mainRun w config flags elapsed o ->
  candidates w config excludeRegex includeRegex = []
  /\ records o = []
  /\ FilesProcessed (finalStats o) = 0
  /\ TotalBytes (finalStats o) = 0
  /\ (forall path, ~ In (EvIngest path) (effects o))
  /\ isHidden "." = true /\ isHidden ".." = true.
Proof.
  intros Htree Hex Hh Hpre Ho.
  assert (Hc : candidates w config excludeRegex includeRegex = []).
  { unfold candidates. rewrite Htree. cbn [filesFound].
    unfold pruned. rewrite Hex, Hh. now destruct entries. }
  destruct (mainRun_inv w _ _ _ _ _ _ Hpre Ho) as (infos & HP & _ & ->).
  rewrite Hc in *. cbn [ingested] in HP. apply Permutation_sym in HP.
  apply Permutation_nil in HP. subst infos.
  split; [reflexivity|].
  unfold finish. cbn [map List.length sizeSum fold_right Z.of_nat].
  destruct (flagDryRun flags).
  - cbn. repeat split. intros path [H|[]]. discriminate.
  - destruct (writeOutput _ _ _ _ _ _) as [[n b]|]; cbn; repeat split;
      intros path H; repeat (destruct H as [H|H]; try discriminate); exact H.
Qed.

End HiddenRoot.

(** The current directory holds [a.go], which can be read, and the run
    has no record. *)
Lemma hidden_root_yields_nothing_witness :
  mainRun (L := examplePaths) (O := exampleOut) dotWorld dotConfig plainFlags 0
    (sequentialOutcome (L := examplePaths) (O := exampleOut) dotWorld
       dotConfig plainFlags 0 None None)
  /\ records (sequentialOutcome (L := examplePaths) (O := exampleOut) dotWorld
                dotConfig plainFlags 0 None None) = []
  /\ os_ReadFile dotWorld "./a.go" = Some fifty.
Proof.
  pose proof (mainRun_sequential (L := examplePaths) (O := exampleOut)
                dotWorld dotConfig plainFlags 0 None None eq_refl
                ltac:(cbn; lia)) as H.
  split; [exact H|]. split; [|reflexivity].
  destruct (hidden_root_yields_nothing (L := examplePaths) (O := exampleOut)
              dotWorld dotConfig plainFlags 0 "."
              (Some [EFile "a.go" 50 "2024-01-01 00:00:00"]) None None _
              eq_refl eq_refl eq_refl eq_refl H) as (_ & E & _).
  exact E.
Defined.

(** ** The resolved configuration *)

(** X15: with a configuration file, a flag left at its default leaves
    the setting of the file: the file alone gives the configuration when
    no flag is given; [-max-size] and [-min-size] never replace the limits
    of the file; and [-eh=false] does not replace [exclude_hidden] of the
    file, only [-exclude-hidden] does. *)
Theorem config_file_kept (cfg : Config) (a : CommandLine) :
  resolveConfig (Some cfg) (shortOverrides defaultCommandLine) = cfg
  /\ MaxFileSize (resolveConfig (Some cfg) (shortOverrides a)) = MaxFileSize cfg
  /\ MinFileSize (resolveConfig (Some cfg) (shortOverrides a)) = MinFileSize cfg
  /\ (excludeHiddenSet a = false ->
      ExcludeHidden (resolveConfig (Some cfg) (shortOverrides a))
      = ExcludeHidden cfg)
  /\ (argInputShort a = "" -> argInput a = "." ->
      InputDir (resolveConfig (Some cfg) (shortOverrides a)) = InputDir cfg)
  /\ (argOutputShort a = "" -> argOutput a = "combined.txt" ->
      OutputFile (resolveConfig (Some cfg) (shortOverrides a))
      = OutputFile cfg).
Proof.
  split; [destruct cfg; reflexivity|].
  split; [reflexivity|]. split; [reflexivity|].
  split; [intros H; cbn; now rewrite H|].
  split; intros H1 H2; cbn; now rewrite H1, H2.
Qed.

(** The flags [-eh=false -max-size 5 -min-size 1] beside a configuration
    file. *)
Lemma config_file_kept_witness :
  ExcludeHidden (resolveConfig (Some fileConfig) (shortOverrides sizeFlagsLine))
  = false
  /\ MaxFileSize (resolveConfig (Some fileConfig) (shortOverrides sizeFlagsLine))
     = 100
  /\ InputDir (resolveConfig (Some fileConfig) (shortOverrides sizeFlagsLine))
     = "proj".
Proof.
  destruct (config_file_kept fileConfig sizeFlagsLine)
    as (_ & H1 & _ & H2 & H3 & _).
  split; [exact (H2 eq_refl)|]. split; [exact H1 | exact (H3 eq_refl eq_refl)].
Defined.

Section SettingsFacts.

Context {L : PathLib} {O : OutLib}.
Variable w : World.

(** A run reads six settings of its configuration. *)
Lemma mainRun_settings (c1 c2 : Config) (flags : Flags) (elapsed : Z)
    (o : Outcome) :
  InputDir c1 = InputDir c2 ->
  OutputFile c1 = OutputFile c2 ->
  Extensions c1 = Extensions c2 ->
  ExcludeHidden c1 = ExcludeHidden c2 ->
  MaxFileSize c1 = MaxFileSize c2 ->
  MinFileSize c1 = MinFileSize c2 ->
  mainRun w c1 flags elapsed o <-> mainRun w c2 flags elapsed o.
Proof.
  destruct c1, c2. cbn. intros; subst. reflexivity.
Qed.

(** X16: of a configuration file a run takes six settings: the input
    directory, the output file, the extensions, [exclude_hidden] and the
    two size limits.  Its patterns, format, compression, number of
    workers and modes are never read: two files that differ in them only
    give the same runs, whatever the flags. *)
Theorem config_file_settings_unread (cfg1 cfg2 : Config) (a : CommandLine)
    (elapsed : Z) (o : Outcome) :
  InputDir cfg1 = InputDir cfg2 ->
  OutputFile cfg1 = OutputFile cfg2 ->
  Extensions cfg1 = Extensions cfg2 ->
  ExcludeHidden cfg1 = ExcludeHidden cfg2 ->
  MaxFileSize cfg1 = MaxFileSize cfg2 ->
  MinFileSize cfg1 = MinFileSize cfg2 ->
  commandRun w (Some cfg1) a elapsed o <-> commandRun w (Some cfg2) a elapsed o.
Proof.
  intros H1 H2 H3 H4 H5 H6. unfold commandRun.
  apply mainRun_settings; cbn;
    rewrite ?H1, ?H2, ?H3, ?H4, ?H5, ?H6; reflexivity.
Qed.

End SettingsFacts.

(** Two configuration files that differ in the eight settings only. *)
Lemma config_file_settings_unread_witness :
  exists o,
    commandRun (L := examplePaths) (O := exampleOut) exampleWorld
               (Some fileConfig) sizeFlagsLine 0 o
    /\ commandRun (L := examplePaths) (O := exampleOut) exampleWorld
                  (Some fileConfigOtherwise) sizeFlagsLine 0 o.
Proof.
  destruct (mainRun_total (L := examplePaths) (O := exampleOut) exampleWorld
              (resolveConfig (Some fileConfig) (shortOverrides sizeFlagsLine))
              (argRest (shortOverrides sizeFlagsLine)) 0) as [o Ho].
  exists o. split; [exact Ho|].
  exact (proj1 (config_file_settings_unread (L := examplePaths)
                  (O := exampleOut) exampleWorld fileConfig fileConfigOtherwise
                  sizeFlagsLine 0 o eq_refl eq_refl eq_refl eq_refl eq_refl
                  eq_refl) Ho).
Defined.

(** ** The prompts *)

Section PromptFacts.

Context {L : PathLib}.

(** X17: [promptSelect] returns one of the options or the default, and
    its index is never out of range; a number between 1 and the number of
    options selects by position.  For the formats of the interactive mode
    the answer is one of the four formats. *)
Theorem promptSelect_in_options (line : string) (options : list string)
    (defaultValue : string) :
  (exists choice,
     promptSelect line options defaultValue = Some choice
     /\ (choice = defaultValue \/ In choice options))
  /\ (forall num,
        TrimSpace line <> "" -> Atoi (TrimSpace line) = Some num ->
        1 <= num <= Z.of_nat (List.length options) ->
        promptSelect line options defaultValue
        = nth_error options (Z.to_nat (num - 1)))
  /\ (exists choice,
        promptSelect line formats "text" = Some choice /\ In choice formats).
Proof.
  assert (Hgen : forall opts dflt,
            exists choice,
              promptSelect line opts dflt = Some choice
              /\ (choice = dflt \/ In choice opts)).
  { intros opts dflt. unfold promptSelect.
    destruct (String.eqb (TrimSpace line) ""); [eexists; split; [reflexivity|now left]|].
    assert (Hname : exists choice,
              match find (fun option => EqualFold option (TrimSpace line)) opts with
              | Some option => Some option
              | None => Some dflt
              end = Some choice /\ (choice = dflt \/ In choice opts)).
    { destruct (find _ opts) as [x|] eqn:F.
      - exists x. split; [reflexivity|]. right. now apply find_some in F.
      - exists dflt. split; [reflexivity|now left]. }
    destruct (Atoi (TrimSpace line)) as [num|]; [|exact Hname].
    destruct (Z.leb_spec 1 num); cbn [andb]; [|exact Hname].
    destruct (Z.leb_spec num (Z.of_nat (List.length opts))); [|exact Hname].
    destruct (nth_error opts (Z.to_nat (num - 1))) as [x|] eqn:N.
    - exists x. split; [reflexivity|]. right. eapply nth_error_In, N.
    - apply nth_error_None in N. lia. }
  split; [apply Hgen|]. split.
  - intros num Hne Ha Hr. unfold promptSelect.
    apply String.eqb_neq in Hne. rewrite Hne, Ha.
    destruct (Z.leb_spec 1 num); [|lia].
    destruct (Z.leb_spec num (Z.of_nat (List.length options))); [|lia].
    reflexivity.
  - destruct (Hgen formats "text") as (c & E & [->|Hin]).
    + exists "text". split; [exact E|]. now left.
    + exists c. now split.
Qed.

(** X18: when [promptUserWithValidation] returns, the value passes the
    validator; it is the answer of the first line whose answer passes,
    the empty answer standing for the default, and the lines before it
    were rejected.  It returns as soon as a line passes. *)
Theorem prompt_returns_valid (lines : list string) (defaultValue : string)
    (valid : string -> bool) :
  (forall value rest,
     promptUserWithValidation lines defaultValue (Some valid)
     = Some (value, rest) ->
     valid value = true
     /\ exists rejected line,
          lines = (rejected ++ line :: rest)%list
          /\ value = answer line defaultValue
          /\ Forall (fun l => valid (answer l defaultValue) = false) rejected)
  /\ (Exists (fun l => valid (answer l defaultValue) = true) lines ->
      exists value rest,
        promptUserWithValidation lines defaultValue (Some valid)
        = Some (value, rest))
  /\ (forall line rest,
        promptUser (line :: rest) defaultValue
        = Some (answer line defaultValue, rest)).
Proof.
  split; [|split].
  - induction lines as [|l r IH]; intros value rest; cbn [promptUserWithValidation];
      [discriminate|].
    fold (answer l defaultValue).
    destruct (valid (answer l defaultValue)) eqn:V; cbn [negb].
    + intros H. inversion H; subst. split; [exact V|].
      exists [], l. cbn. auto.
    + intros H. destruct (IH _ _ H) as (Hv & rej & line & -> & Ev & Hrej).
      split; [exact Hv|]. exists (l :: rej), line. cbn. auto.
  - induction 1 as [l r Hl | l r _ IH]; cbn [promptUserWithValidation];
      fold (answer l defaultValue).
    + rewrite Hl. cbn. eauto.
    + destruct (valid (answer l defaultValue)); cbn [negb]; eauto.
  - reflexivity.
Qed.

End PromptFacts.

(** ** [formatBytes] *)

Lemma unitLoop_more (bytes : Z) (extra : nat) :
  1024 <= bytes < 2 ^ 63 ->
  unitLoop (6 + extra) (bytes / 1024) 1024 0 = unitLoop 6 (bytes / 1024) 1024 0.
Proof.
  intros H. cbn [Nat.add unitLoop].
  repeat match goal with
  | |- context [1024 <=? ?n] => destruct (Z.leb_spec 1024 n); [|reflexivity]
  end.
  exfalso. Z.div_mod_to_equations. lia.
Qed.

Lemma unitLoop_bracket (bytes : Z) :
  1024 <= bytes < 2 ^ 63 ->
  exists exp,
    unitLoop 6 (bytes / 1024) 1024 0 = (1024 ^ (exp + 1), exp)
    /\ 0 <= exp <= 5
    /\ 1024 ^ (exp + 1) <= bytes < 1024 * 1024 ^ (exp + 1).
Proof.
  intros H. cbn [unitLoop].
  repeat match goal with
  | |- context [1024 <=? ?n] => destruct (Z.leb_spec 1024 n)
  end;
  try (exfalso; Z.div_mod_to_equations; lia);
  match goal with
  | |- exists exp, (_, ?e) = _ /\ _ =>
      exists e; split; [reflexivity|]; split; [lia|];
      let v := eval cbv in (1024 ^ (e + 1)) in
      change (1024 ^ (e + 1)) with v
  end.
  all: Z.div_mod_to_equations; lia.
Qed.

(** X19: for a size from 1024 up to the largest int64 the loop of
    [formatBytes] stops by itself after at most five rounds, so the index
    into ["KMGTPE"] is in range; the divisor is the power of 1024 of the
    unit chosen, it does not overflow, and the size lies between the
    divisor and 1024 times the divisor. *)
Theorem formatBytes_unit_in_range (bytes : Z) :
  1024 <= bytes < 2 ^ 63 ->
  let div := fst (unitLoop 6 (bytes / 1024) 1024 0) in
  let exp := snd (unitLoop 6 (bytes / 1024) 1024 0) in
  0 <= exp <= 5
  /\ div = 1024 ^ (exp + 1)
  /\ div <= bytes < 1024 * div
  /\ String.length (unitLetter exp) = 1%nat
  /\ (forall extra : nat,
        unitLoop (6 + extra) (bytes / 1024) 1024 0 = (div, exp)).
Proof.
  intros H div exp.
  destruct (unitLoop_bracket bytes H) as (e & E & He & Hb).
  subst div exp. rewrite E. cbn [fst snd].
  split; [exact He|]. split; [reflexivity|]. split; [exact Hb|]. split.
  - assert (Hc : e = 0 \/ e = 1 \/ e = 2 \/ e = 3 \/ e = 4 \/ e = 5) by lia.
    destruct Hc as [->|[->|[->|[->|[->| ->]]]]]; reflexivity.
  - intros extra. now rewrite (unitLoop_more bytes extra H).
Qed.

Lemma roundHalfEven_near (n d : Z) :
  0 < d -> - d <= 2 * (n - roundHalfEven n d * d) <= d.
Proof.
  intros Hd. unfold roundHalfEven.
  pose proof (Z.div_mod n d ltac:(lia)) as E.
  pose proof (Z.mod_pos_bound n d Hd) as B.
  destruct (Z.ltb_spec (2 * (n mod d)) d);
    [|destruct (Z.ltb_spec d (2 * (n mod d))); [|destruct (Z.even (n / d))]];
    nia.
Qed.

Lemma roundHalfEven_between (n d lo hi : Z) :
  0 < d -> lo * d <= n <= hi * d -> lo <= roundHalfEven n d <= hi.
Proof.
  intros Hd H. unfold roundHalfEven.
  pose proof (Z.div_mod n d ltac:(lia)) as E.
  pose proof (Z.mod_pos_bound n d Hd) as B.
  assert (lo <= n / d) by (apply Z.div_le_lower_bound; lia).
  assert (Hhi : n / d < hi \/ (n / d = hi /\ n mod d = 0)) by nia.
  destruct (Z.ltb_spec (2 * (n mod d)) d);
    [|destruct (Z.ltb_spec d (2 * (n mod d))); [|destruct (Z.even (n / d))]];
    lia.
Qed.

Lemma toFloat64_small (x : Z) : 0 < x < 2 ^ 53 -> toFloat64 x = x.
Proof.
  intros H. unfold toFloat64.
  assert (Z.log2 x < 53) by (apply Z.log2_lt_pow2; lia).
  destruct (Z.leb_spec (Z.log2 x + 1) 53); [reflexivity | lia].
Qed.

(** Rounding to 53 bits keeps a value between two powers of 1024 that
    bracket it. *)
Lemma toFloat64_between (x e : Z) :
  0 <= e <= 5 -> 1024 ^ (e + 1) <= x < 1024 * 1024 ^ (e + 1) -> x < 2 ^ 63 ->
  1024 ^ (e + 1) <= toFloat64 x <= 1024 * 1024 ^ (e + 1).
Proof.
  intros He Hx H63. unfold toFloat64.
  assert (Hpos : 0 < x).
  { assert (0 < 1024 ^ (e + 1)) by (apply Z.pow_pos_nonneg; lia). lia. }
  destruct (Z.leb_spec (Z.log2 x + 1) 53) as [Hb|Hb]; [lia|].
  pose proof (Z.log2_spec x Hpos) as [Hlo Hhi].
  assert (Hl63 : Z.log2 x < 63) by (apply Z.log2_lt_pow2; lia).
  set (j := Z.log2 x + 1 - 53) in *.
  assert (Hj : 1 <= j <= 10) by lia.
  assert (Hu : 0 < 2 ^ j) by (apply Z.pow_pos_nonneg; lia).
  assert (He4 : 4 <= e).
  { destruct (Z.lt_ge_cases e 4) as [Hlt|]; [|assumption]. exfalso.
    assert (1024 * 1024 ^ (e + 1) <= 2 ^ 50).
    { assert (Hc : e = 0 \/ e = 1 \/ e = 2 \/ e = 3) by lia.
      destruct Hc as [->|[->|[->| ->]]]; cbv; discriminate. }
    assert (2 ^ 53 <= 2 ^ Z.log2 x) by (apply Z.pow_le_mono_r; lia).
    assert (2 ^ 50 < 2 ^ 53) by reflexivity. lia. }
  assert (Hdiv : exists k, 0 < k /\ 1024 ^ (e + 1) = k * 2 ^ j).
  { exists (2 ^ (10 * (e + 1) - j)). split; [apply Z.pow_pos_nonneg; lia|].
    rewrite <- Z.pow_add_r by lia.
    change 1024 with (2 ^ 10). rewrite <- Z.pow_mul_r by lia. f_equal. lia. }
  destruct Hdiv as (k & Hk & Ek).
  pose proof (roundHalfEven_between x (2 ^ j) k (1024 * k) Hu) as R.
  rewrite Ek in *. nia.
Qed.

(** X20: for a size from 1024 on, [formatBytes] prints a number of
    tenths between 1.0 and 1024.0 with the letter of the unit; below
    2^53 bytes that number is the quotient of the size by the divisor
    rounded to the nearest tenth.  The upper end is reached: 1048575
    bytes are printed as 1024.0 KB. *)
Theorem formatBytes_figure (bytes : Z) :
  1024 <= bytes < 2 ^ 63 ->
  let div := fst (unitLoop 6 (bytes / 1024) 1024 0) in
  let exp := snd (unitLoop 6 (bytes / 1024) 1024 0) in
  exists tenths,
    formatBytes bytes
    = (itoa (tenths / 10) ++ "." ++ itoa (tenths mod 10))
      ++ " " ++ unitLetter exp ++ "B"
    /\ 10 <= tenths <= 10240
    /\ (bytes < 2 ^ 53 -> - div <= 2 * (10 * bytes - tenths * div) <= div).
Proof.
  intros H div exp.
  destruct (unitLoop_bracket bytes H) as (e & E & He & Hb).
  assert (Hd : 0 < 1024 ^ (e + 1)) by (apply Z.pow_pos_nonneg; lia).
  exists (roundHalfEven (10 * toFloat64 bytes) div).
  subst div exp. unfold formatBytes.
  destruct (Z.ltb_spec bytes 1024) as [|_]; [lia|].
  rewrite E. cbn [fst snd]. split; [reflexivity|]. split.
  - pose proof (toFloat64_between bytes e He Hb ltac:(lia)) as F.
    apply roundHalfEven_between; [exact Hd | lia].
  - intros H53. rewrite toFloat64_small by lia.
    apply roundHalfEven_near, Hd.
Qed.

(** One byte below a mebibyte. *)
Lemma formatBytes_figure_witness :
  1024 <= 1048575 < 2 ^ 63
  /\ exists tenths,
       formatBytes 1048575
       = (itoa (tenths / 10) ++ "." ++ itoa (tenths mod 10)) ++ " KB"
       /\ 10 <= tenths <= 10240
       /\ (1048575 < 2 ^ 53 ->
           - 1024 <= 2 * (10 * 1048575 - tenths * 1024) <= 1024).
Proof.
  split; [lia|]. exact (formatBytes_figure 1048575 ltac:(lia)).
Defined.

(** Five exbibytes. *)
Lemma formatBytes_unit_in_range_witness :
  1024 <= 5 * 2 ^ 60 < 2 ^ 63
  /\ unitLoop 6 (5 * 2 ^ 60 / 1024) 1024 0 = (2 ^ 60, 5)
  /\ unitLetter 5 = "E".
Proof.
  split; [lia|].
  destruct (formatBytes_unit_in_range (5 * 2 ^ 60) ltac:(lia))
    as (_ & _ & _ & _ & E).
  split; [exact (E 0%nat) | reflexivity].
Defined.

(** ** The layout of the output *)

Section LayoutFacts.

Context {O : OutLib}.

Lemma writeTextSections_written fileInfos :
  forall st,
    snd (writeTextSections fileInfos st) = snd st ++ textSections fileInfos.
Proof.
  induction fileInfos as [|info rest IH]; intros st; cbn.
  - now rewrite append_nil_r.
  - rewrite IH. cbn. now rewrite append_assoc_s.
Qed.

Lemma writeMdSections_written fileInfos :
  forall i st,
    snd (writeMdSections i fileInfos st) = snd st ++ mdSections i fileInfos.
Proof.
  induction fileInfos as [|info rest IH]; intros i st;
    cbn [writeMdSections mdSections].
  - now rewrite append_nil_r.
  - rewrite IH. cbn [writeString snd]. now rewrite append_assoc_s.
Qed.

(** X21: the text output is the header, one section for every record
    in the order of the records, and the footer; the output size the
    footer prints is the size of what comes before the footer.  The
    Markdown output is laid out the same way, its sections numbered from
    1 in the order of the records. *)
Theorem streamed_layout (fileInfos : list FileInfo) (stats : Stats) :
  snd (writeTextOutput fileInfos stats)
  = textHeader stats ++ textSections fileInfos
    ++ textFooter stats
         (wrap64 (len (textHeader stats ++ textSections fileInfos)))
  /\ snd (writeMarkdownOutput fileInfos stats)
     = mdHeader stats ++ mdSections 0 fileInfos ++ mdFooter stats
  /\ (forall a b, textSections (a ++ b) = textSections a ++ textSections b)
  /\ (forall a b i,
        mdSections i (a ++ b)
        = mdSections i a ++ mdSections (i + Z.of_nat (List.length a)) b).
Proof.
  split; [|split; [|split]].
  - unfold writeTextOutput.
    pose proof (counted_text_sections fileInfos
                  (writeString (textHeader stats) (0, ""))
                  (counted_writeString _ _ counted_start)) as Hc.
    unfold counted in Hc. rewrite Hc.
    cbn [writeString snd]. rewrite writeTextSections_written.
    cbn [writeString snd String.append]. now rewrite append_assoc_s.
  - unfold writeMarkdownOutput. cbn [writeString snd].
    rewrite writeMdSections_written. cbn [writeString snd String.append].
    now rewrite append_assoc_s.
  - intros a b. induction a as [|x r IH]; cbn [app textSections];
      [reflexivity|]. now rewrite IH, append_assoc_s.
  - intros a. induction a as [|x r IH]; intros b i;
      cbn [app mdSections List.length].
    + cbn. now rewrite Z.add_0_r.
    + rewrite IH, append_assoc_s. do 3 f_equal. lia.
Qed.

End LayoutFacts.

(** ** The size reported for JSON *)

Lemma compact_arr l : compact (JArr l) = "[" ++ compactItems l true ++ "]".
Proof. reflexivity. Qed.

Lemma compact_obj l : compact (JObj l) = "{" ++ compactFields l true ++ "}".
Proof. reflexivity. Qed.

Lemma compact_le_indented v :
  forall d, (String.length (compact v) <= String.length (indented d v))%nat.
Proof.
  induction v as [| b | lit | s | items IH | fields IH] using JSON_nested_ind;
    intros d; try (cbn; lia).
  - destruct items as [|x r]; [cbn; lia|].
    rewrite compact_arr, indented_arr.
    assert (H : forall b,
              (String.length (compactItems (x :: r) b)
               <= String.length (indentedItems d (x :: r) b))%nat).
    { induction IH as [|y l Hy _ IHl]; intros b; cbn [compactItems indentedItems];
        [cbn; lia|].
      specialize (Hy (S d)). specialize (IHl false).
      rewrite !length_append_s. lia. }
    specialize (H true). rewrite !length_append_s. cbn [String.length]. lia.
  - destruct fields as [|kx r]; [cbn; lia|].
    rewrite compact_obj, indented_obj.
    assert (H : forall b,
              (String.length (compactFields (kx :: r) b)
               <= String.length (indentedFields d (kx :: r) b))%nat).
    { induction IH as [|[k y] l Hy _ IHl]; intros b;
        cbn [compactFields indentedFields]; [cbn; lia|].
      cbn [snd] in Hy. specialize (Hy (S d)). specialize (IHl false).
      rewrite !length_append_s. cbn [String.length]. lia. }
    specialize (H true). rewrite !length_append_s. cbn [String.length]. lia.
Qed.

Section JsonSizeFacts.

Context {O : OutLib}.

(** X22: for the JSON format the size reported is the length of the
    compact form of the document, while the bytes written are its
    indented form and a new line: the size reported is always smaller
    than the number of bytes written.  For XML the size reported is the
    number of bytes written, in 64 bits. *)
Theorem json_size_below_written (fileInfos : list FileInfo) (stats : Stats) :
  fst (writeJSONOutput fileInfos stats)
  = len (compact (jsonOutput fileInfos stats))
  /\ fst (writeJSONOutput fileInfos stats)
     < len (snd (writeJSONOutput fileInfos stats))
  /\ fst (writeXMLOutput fileInfos stats)
     = wrap64 (len (snd (writeXMLOutput fileInfos stats))).
Proof.
  split; [reflexivity|]. split.
  - unfold writeJSONOutput. cbn [fst snd]. rewrite length_append_Z.
    pose proof (compact_le_indented (jsonOutput fileInfos stats) 0) as H.
    unfold len. change (String.length nl) with 1%nat. lia.
  - unfold writeXMLOutput, add64. cbn [fst snd]. rewrite length_append_Z.
    f_equal. lia.
Qed.

End JsonSizeFacts.

(** ** The strings read back *)

Lemma EncodeRune_error_valid s :
  ValidUTF8 s -> ValidUTF8 (EncodeRune RuneError ++ s).
Proof.
  intros H. change (EncodeRune RuneError)
    with (String (byteChar 239) (String (byteChar 191) (String (byteChar 189) ""))).
  cbn [String.append]. apply VThree; [| |exact H].
  - right; left. cbv. split; [right|]; split; discriminate.
  - cbv. split; discriminate.
Qed.

Lemma coerceLoop_valid n : forall s, ValidUTF8 (coerceLoop n s).
Proof.
  induction n as [|n IH]; intros s; cbn [coerceLoop]; [constructor|].
  destruct s as [|c r]; [constructor|].
  destruct (byte_of c <? 128) eqn:Hb.
  - apply Z.ltb_lt in Hb. apply VAscii; [exact Hb | apply IH].
  - apply Z.ltb_ge in Hb.
    destruct (decode_cases c r ltac:(lia))
      as [E | [(c1 & t & -> & H0 & H1)
         | [(c1 & c2 & t & -> & H0 & H2)
           | (c1 & c2 & c3 & t & -> & H0 & H2 & H3)]]].
    + rewrite E. cbn [Z.eqb RuneError Nat.eqb andb Pos.eqb].
      apply EncodeRune_error_valid, IH.
    + rewrite decode_2 by assumption. cbn [Nat.eqb]. rewrite andb_false_r.
      cbn [takeBytes dropBytes String.append]. apply VTwo; auto.
    + rewrite decode_3 by assumption. cbn [Nat.eqb]. rewrite andb_false_r.
      cbn [takeBytes dropBytes String.append]. apply VThree; auto.
    + rewrite decode_4 by assumption. cbn [Nat.eqb]. rewrite andb_false_r.
      cbn [takeBytes dropBytes String.append]. apply VFour; auto.
Qed.

Lemma coerceInfo_valid info : validRecord (coerceInfo info).
Proof.
  unfold validRecord, coerceInfo, toValidUTF8. cbn.
  repeat split; apply coerceLoop_valid.
Qed.

Lemma coerceInfo_fixed info : validRecord info -> coerceInfo info = info.
Proof.
  intros (H1 & H2 & H3 & H4). destruct info as [p sz m c r].
  cbn [Path Modified Content RelativePath] in *.
  unfold coerceInfo. cbn [Path Modified Content RelativePath Size].
  now rewrite !toValidUTF8_valid.
Qed.

Section ReadBackFacts.

Context {O : OutLib}.

(** X23: the records read back from the JSON document hold valid UTF-8
    in every string, and writing them again and reading that back gives
    the same records: after one pass through the document the round trip
    is exact. *)
Theorem json_read_back_stable (fileInfos fileInfos' : list FileInfo)
    (stats stats' : Stats) :
  numberLit (jsonSeconds (Duration stats)) ->
  numberLit (jsonSeconds (Duration stats')) ->
  readRecords (snd (writeJSONOutput fileInfos stats)) = Some fileInfos' ->
  Forall validRecord fileInfos'
  /\ readRecords (snd (writeJSONOutput fileInfos' stats')) = Some fileInfos'.
Proof.
  intros Hn Hn' Hr. rewrite readRecords_written in Hr by assumption.
  inversion Hr; subst fileInfos'. clear Hr.
  assert (Hv : Forall validRecord (map coerceInfo fileInfos)).
  { apply Forall_forall. intros i Hi. apply in_map_iff in Hi.
    destruct Hi as (x & <- & _). apply coerceInfo_valid. }
  split; [exact Hv|].
  rewrite readRecords_written by assumption. f_equal.
  induction Hv as [|i l Hi _ IH]; cbn [map]; [reflexivity|].
  now rewrite (coerceInfo_fixed i Hi), IH.
Qed.

End ReadBackFacts.

(** ** Further examples *)

(** The answer [2] selects the second format. *)
Lemma promptSelect_in_options_witness :
  promptSelect (L := examplePaths) (" 2" ++ nl) formats "text" = Some "json".
Proof.
  destruct (promptSelect_in_options (L := examplePaths) (" 2" ++ nl) formats
              "text") as (_ & H & _).
  exact (H 2 ltac:(discriminate) eq_refl ltac:(cbn; lia)).
Defined.

(** A directory that does not exist is rejected, the empty line that
    follows gives the default. *)
Lemma prompt_returns_valid_witness :
  promptUserWithValidation (L := examplePaths) ["nowhere" ++ nl; nl] "proj"
    (Some (validateDirectory exampleWorld)) = Some ("proj", [])
  /\ validateDirectory exampleWorld "proj" = true.
Proof.
  split; [reflexivity|].
  destruct (prompt_returns_valid (L := examplePaths) ["nowhere" ++ nl; nl]
              "proj" (validateDirectory exampleWorld)) as (H & _ & _).
  exact (proj1 (H "proj" [] eq_refl)).
Defined.

(** Two paths and two workers: nine steps, and the first can be taken. *)
Lemma parallel_always_returns_witness :
  (parDone (parInit ["proj/a.go"; "proj/c.txt"] 2)
   \/ exists s', parStep (L := examplePaths) exampleWorld "proj" 2
                   (parInit ["proj/a.go"; "proj/c.txt"] 2) s')
  /\ stepsLeft (parInit ["proj/a.go"; "proj/c.txt"] 2) = 9%nat.
Proof.
  destruct (parallel_always_returns (L := examplePaths) exampleWorld
              ["proj/a.go"; "proj/c.txt"] "proj" 2 O
              (parInit ["proj/a.go"; "proj/c.txt"] 2)
              (ParZero exampleWorld "proj" 2 _)) as (H1 & H2 & _).
  split; [exact H1 | exact H2].
Defined.

(** Of two paths one is missing: its error is the one sent. *)
Lemma parallel_errors_reported_witness :
  exists s,
    parSteps (L := examplePaths) exampleWorld "proj" 2
      (parInit ["proj/a.go"; "proj/missing"] 1) s
    /\ parDone s
    /\ Permutation (errorChan s) ["proj/missing"].
Proof.
  destruct (par_terminates (L := examplePaths) exampleWorld
              ["proj/a.go"; "proj/missing"] "proj" 1 _
              (ParInv_init exampleWorld ["proj/a.go"; "proj/missing"] "proj" 1))
    as (s & Hrun & Hdone).
  exists s. split; [exact Hrun|]. split; [exact Hdone|].
  exact (proj1 (parallel_errors_reported (L := examplePaths) exampleWorld
                  ["proj/a.go"; "proj/missing"] "proj" 1 s ltac:(lia)
                  Hrun Hdone)).
Defined.

(** Two readable paths and no worker. *)
Lemma parallel_without_workers_witness :
  exists out,
    processFilesParallel (L := examplePaths) exampleWorld
      ["proj/a.go"; "proj/c.txt"] "proj" 0 false true zeroStats out
    /\ out = ([], zeroStats).
Proof.
  destruct (parallel_without_workers (L := examplePaths) exampleWorld
              ["proj/a.go"; "proj/c.txt"] "proj" 0 false true zeroStats
              ltac:(lia)) as [[out Ho] Hall].
  exists out. split; [exact Ho | exact (Hall out Ho)].
Defined.

(** The record whose content is the byte 255: read back once it holds
    U+FFFD, and read back twice the same. *)
Lemma json_read_back_stable_witness :
  readRecords (snd (writeJSONOutput (O := exampleOut) [latin1Record] zeroStats))
  = Some [coerceInfo latin1Record]
  /\ readRecords
       (snd (writeJSONOutput (O := exampleOut) [coerceInfo latin1Record]
                             zeroStats))
     = Some [coerceInfo latin1Record].
Proof.
  assert (Hn : numberLit (@jsonSeconds exampleOut (Duration zeroStats))).
  { split; [discriminate|]. repeat constructor. }
  pose proof (readRecords_written (O := exampleOut) [latin1Record] zeroStats Hn)
    as E.
  split; [exact E|].
  exact (proj2 (json_read_back_stable (O := exampleOut) [latin1Record]
                  [coerceInfo latin1Record] zeroStats zeroStats Hn Hn E)).
Defined.

(** Two extensions, one with a leading blank. *)
Lemma extensions_checked_each_witness :
  splitComma (joinComma [".go"; " .txt"]) "" = [".go"; " .txt"]
  /\ validateExtensions (L := examplePaths) (joinComma [".go"; " .txt"]) = true.
Proof.
  destruct (extensions_checked_each (L := examplePaths) [".go"; " .txt"] "")
    as (_ & _ & H).
  destruct (H eq_refl ltac:(discriminate)) as [E V].
  split; [exact E | rewrite V; reflexivity].
Defined.
